(** * LunaTV emby aggregation: source registry, list cache, search fan-out,
      detail ordering and play proxy

    A shallow embedding of
      - [lib/emby-manager]            (EmbyManager, migrateEmbyConfig),
      - [lib/emby-cache.ts]           (list cache with lazy expiry),
      - [app/api/search]              (GET: fan-out, flatten, yellow filter),
      - [lib/special-sources-detail]  (getEmbyDetail),
      - [app/api/emby/play]           (GET: 401 retry),
    and the properties the design document states about them.

    Conventions.  An optional TypeScript field [f?: T] is an [option T];
    [undefined] is [None].  A JS [Map] used only through has/get/set/clear is
    a [gmap]; a [Map] whose iteration order is observed is an association
    list kept in insertion order.  [Date.now()] is an explicit argument.
    A JS object created with [new] carries the index at which it was
    allocated, so that two objects built from equal arguments stay
    distinguishable. *)

From Stdlib Require Import ZArith String List Lia Bool.
From Stdlib Require Import Sorting.Sorted Sorting.Permutation.
From stdpp Require Import base tactics option list gmap strings pretty.

Local Open Scope string_scope.
Local Open Scope Z_scope.
Local Open Scope list_scope.

(** ** JavaScript values *)

Module JS.

(** Truthiness of a string: every string but the empty one. *)
Definition truthy_string (s : string) : bool :=
  match s with EmptyString => false | String _ _ => true end.

(** [x || d] on an optional string. *)
Definition or_string (x : option string) (d : string) : string :=
  match x with
  | Some s => if truthy_string s then s else d
  | None => d
  end.

(** [x || d] on an optional (integral) number: [0] and [undefined] are
    falsy. *)
Definition or_num (x : option Z) (d : Z) : Z :=
  match x with
  | Some n => if n =? 0 then d else n
  | None => d
  end.

(** [x || undefined] on an optional string. *)
Definition or_undefined (x : option string) : option string :=
  match x with
  | Some s => if truthy_string s then Some s else None
  | None => None
  end.

(** [x ?? d]. *)
Definition nullish {A} (x : option A) (d : A) : A :=
  match x with Some a => a | None => d end.

(** Truthiness of an optional boolean flag. *)
Definition truthy_flag (x : option bool) : bool := nullish x false.

(** [n.toString()] for an integral number below 1e21 in absolute value:
    JavaScript prints those in plain decimal, and larger ones with an
    exponent. *)
Definition toString (n : Z) : string := pretty n.

(** [String.prototype.includes]: [w] occurs in [s] as a contiguous run. *)
Fixpoint includes (s w : string) : bool :=
  String.prefix w s
  || match s with
     | EmptyString => false
     | String _ s' => includes s' w
     end.

(** The one-character string holding a double quote. *)
Definition dquote : string := String (Ascii.ascii_of_nat 34) EmptyString.

(** [w] occurs in [s]: some text, then [w], then some text. *)
Definition occursIn (w s : string) : Prop :=
  exists pre post, s = pre +:+ w +:+ post.

(** [String.prototype.startsWith]. *)
Definition startsWith (s p : string) : bool := String.prefix p s.

(** [s.padStart(n, '0')]. *)
Definition padStart0 (n : nat) (s : string) : string :=
  String.concat "" (repeat "0" (n - String.length s)) +:+ s.

(** [Array.prototype.find]. *)
Definition find {A} (p : A -> bool) (l : list A) : option A := List.find p l.

(** [x] is the first element of [l] on which [p] holds. *)
Definition firstWith {A} (p : A -> bool) (l : list A) (x : A) : Prop :=
  exists pre post,
    l = pre ++ x :: post /\ Forall (fun y => p y = false) pre /\ p x = true.

(** [Array.prototype.some]. *)
Definition some {A} (p : A -> bool) (l : list A) : bool := existsb p l.

(** An insertion-ordered [Map<string, V>]: [set] on a key already present
    replaces the value in place, a new key goes to the end. *)
Fixpoint map_set {V} (k : string) (v : V) (m : list (string * V))
  : list (string * V) :=
  match m with
  | [] => [(k, v)]
  | (k', v') :: m' =>
      if String.eqb k' k then (k, v) :: m' else (k', v') :: map_set k v m'
  end.

(** [Array.from(m.values())]. *)
Definition map_values {V} (m : list (string * V)) : list V := map snd m.

(** [Array.prototype.sort(cmp)].  ECMAScript asks for a stable sort and
    fixes the result when [cmp] is a consistent comparator: the definition
    below gives that result.  When [cmp] is not consistent the standard
    leaves the order to the engine; the definition then gives what V8 gives
    on an array of two elements ([b] before [a] exactly when
    [cmp b a < 0]), and need not on a longer one, which V8 sorts by binary
    insertion.  [insert] puts [x], which followed every element of [l] in
    the array, before the first element that must come after it. *)
Section Sort.
Context {A : Type} (cmp : A -> A -> Z).

Fixpoint insert (x : A) (l : list A) : list A :=
  match l with
  | [] => [x]
  | y :: l' => if cmp x y <? 0 then x :: y :: l' else y :: insert x l'
  end.

Definition sort (l : list A) : list A :=
  fold_left (fun acc x => insert x acc) l [].
End Sort.

(** *** Header values *)

(** Text is held as the bytes of its UTF-8 form, as the literals of this
    file are.  A character up to U+00FF takes bytes below 0xC4 only, and a
    character above U+00FF starts with a byte from 0xC4 up: a value is a
    [ByteString] when every byte is below 0xC4. *)
Definition isByteStringChar (c : Ascii.ascii) : bool :=
  (Ascii.nat_of_ascii c <? 196)%nat.

(** HTTP whitespace: tab, LF, CR and space. *)
Definition isHttpWhitespace (c : Ascii.ascii) : bool :=
  let n := Ascii.nat_of_ascii c in
  ((n =? 9) || (n =? 10) || (n =? 13) || (n =? 32))%nat.

(** NUL, LF and CR. *)
Definition isNulOrNewline (c : Ascii.ascii) : bool :=
  let n := Ascii.nat_of_ascii c in
  ((n =? 0) || (n =? 10) || (n =? 13))%nat.

Fixpoint trimStart (l : list Ascii.ascii) : list Ascii.ascii :=
  match l with
  | c :: l' => if isHttpWhitespace c then trimStart l' else l
  | [] => []
  end.

(** The value with its leading and trailing HTTP whitespace removed. *)
Definition headerValueNormalize (l : list Ascii.ascii) : list Ascii.ascii :=
  rev (trimStart (rev (trimStart l))).

(** Whether [Headers.prototype.set(name, v)] accepts the value [v]: it
    throws a [TypeError] when [v] is no [ByteString], and when NUL, LF or CR
    is left in it once it is normalised. *)
Definition headerValueOk (v : string) : bool :=
  let bytes := list_ascii_of_string v in
  forallb isByteStringChar bytes
  && forallb (fun c => negb (isNulOrNewline c)) (headerValueNormalize bytes).

(** Whether a file name can stand between the quotes of a header value:
    every byte is below 0xC4 and none is NUL, LF or CR. *)
Definition fileNameOk (filename : string) : bool :=
  forallb (fun c => isByteStringChar c && negb (isNulOrNewline c))
          (list_ascii_of_string filename).

End JS.

(** ** lib/emby-manager *)

Module EmbyManager.

(** [interface EmbySourceConfig]. *)
Record EmbySourceConfig := {
  key : string;
  name : string;
  enabled : bool;
  ServerURL : string;
  ApiKey : option string;
  Username : option string;
  Password : option string;
  UserId : option string;
  AuthToken : option string;
  Libraries : option (list string);
  LastSyncTime : option Z;
  ItemCount : option Z;
  isDefault : option bool;
  removeEmbyPrefix : option bool;
  appendMediaSourceId : option bool;
  transcodeMp4 : option bool;
  proxyPlay : option bool;
}.

(** [AdminConfig['EmbyConfig']]: the fields the manager reads.  Both the
    multi-source field [Sources] and the single-source fields are optional. *)
Record EmbyConfig := {
  Sources : option (list EmbySourceConfig);
  cfg_Enabled : option bool;
  cfg_ServerURL : option string;
  cfg_ApiKey : option string;
  cfg_Username : option string;
  cfg_Password : option string;
  cfg_UserId : option string;
  cfg_AuthToken : option string;
  cfg_Libraries : option (list string);
  cfg_LastSyncTime : option Z;
  cfg_ItemCount : option Z;
}.

Record SiteConfig := { DisableYellowFilter : bool }.

(** [AdminConfig], as far as the modelled code reads it. *)
Record AdminConfig := {
  EmbyCfg : option EmbyConfig;
  SiteCfg : SiteConfig;
}.

(** The one-element array built from the single-source fields. *)
Definition legacySource (ec : EmbyConfig) (url : string) : EmbySourceConfig :=
  {| key := "default";
     name := "Emby";
     enabled := JS.nullish (cfg_Enabled ec) false;
     ServerURL := url;
     ApiKey := cfg_ApiKey ec;
     Username := cfg_Username ec;
     Password := cfg_Password ec;
     UserId := cfg_UserId ec;
     AuthToken := cfg_AuthToken ec;
     Libraries := cfg_Libraries ec;
     LastSyncTime := cfg_LastSyncTime ec;
     ItemCount := cfg_ItemCount ec;
     isDefault := Some true;
     removeEmbyPrefix := None;
     appendMediaSourceId := None;
     transcodeMp4 := None;
     proxyPlay := None |}.

(** [EmbyManager.getSources], on the configuration [getConfig()] returned. *)
Definition getSources (config : AdminConfig) : list EmbySourceConfig :=
  match EmbyCfg config with
  | None => []
  | Some ec =>
      match Sources ec with
      | Some sources => sources
      | None =>
          match cfg_ServerURL ec with
          | Some url =>
              if JS.truthy_string url then [legacySource ec url] else []
          | None => []
          end
      end
  end.

(** The callers' test [config.EmbyConfig?.Sources] present and non-empty
    (the negation of what makes them throw). *)
Definition hasSources (config : AdminConfig) : bool :=
  match EmbyCfg config with
  | Some ec => match Sources ec with
               | Some (_ :: _) => true
               | _ => false
               end
  | None => false
  end.

(** [EmbyManager.getEnabledSources]. *)
Definition getEnabledSources (config : AdminConfig) : list EmbySourceConfig :=
  List.filter enabled (getSources config).

(** [EmbyManager.hasEmby]. *)
Definition hasEmby (config : AdminConfig) : bool :=
  JS.some (fun s => enabled s && JS.truthy_string (ServerURL s))
          (getSources config).

(** The source [migrateEmbyConfig] writes: the legacy one with the advanced
    streaming options set to their defaults. *)
Definition migratedSource (ec : EmbyConfig) (url : string) : EmbySourceConfig :=
  {| key := "default";
     name := "Emby";
     enabled := JS.nullish (cfg_Enabled ec) false;
     ServerURL := JS.or_string (Some url) "";
     ApiKey := cfg_ApiKey ec;
     Username := cfg_Username ec;
     Password := cfg_Password ec;
     UserId := cfg_UserId ec;
     AuthToken := cfg_AuthToken ec;
     Libraries := cfg_Libraries ec;
     LastSyncTime := cfg_LastSyncTime ec;
     ItemCount := cfg_ItemCount ec;
     isDefault := Some true;
     removeEmbyPrefix := Some false;
     appendMediaSourceId := Some false;
     transcodeMp4 := Some false;
     proxyPlay := Some false |}.

(** [migrateEmbyConfig]: the new [EmbyConfig] holds [Sources] only. *)
Definition migrateEmbyConfig (config : AdminConfig) : AdminConfig :=
  match EmbyCfg config with
  | None => config
  | Some ec =>
      match Sources ec with
      | Some _ => config
      | None =>
          match cfg_ServerURL ec with
          | Some url =>
              if JS.truthy_string url then
                {| EmbyCfg := Some {| Sources := Some [migratedSource ec url];
                                      cfg_Enabled := None;
                                      cfg_ServerURL := None;
                                      cfg_ApiKey := None;
                                      cfg_Username := None;
                                      cfg_Password := None;
                                      cfg_UserId := None;
                                      cfg_AuthToken := None;
                                      cfg_Libraries := None;
                                      cfg_LastSyncTime := None;
                                      cfg_ItemCount := None |};
                   SiteCfg := SiteCfg config |}
              else config
          | None => config
          end
      end
  end.

(** The two shapes of a persisted configuration. *)
Definition modernShape (config : AdminConfig) (sources : list EmbySourceConfig) : Prop :=
  exists ec, EmbyCfg config = Some ec /\ Sources ec = Some sources.

Definition legacyShape (config : AdminConfig) (ec : EmbyConfig) (url : string) : Prop :=
  EmbyCfg config = Some ec /\ Sources ec = None /\
  cfg_ServerURL ec = Some url /\ url <> "".

Definition neitherShape (config : AdminConfig) : Prop :=
  forall ec, EmbyCfg config = Some ec ->
    Sources ec = None /\ (cfg_ServerURL ec = None \/ cfg_ServerURL ec = Some "").

(** Two sources with the same key, name, flags and connection fields. *)
Definition sameConnection (a b : EmbySourceConfig) : Prop :=
  key a = key b /\ name a = name b /\ enabled a = enabled b /\
  ServerURL a = ServerURL b /\ ApiKey a = ApiKey b /\
  Username a = Username b /\ Password a = Password b /\
  UserId a = UserId b /\ AuthToken a = AuthToken b /\
  Libraries a = Libraries b /\ isDefault a = isDefault b.

(** *** The handle cache *)

(** An [EmbyClient] object: the configuration it was constructed from and
    the index of its allocation (its identity as an object). *)
Record EmbyClient := {
  client_id : nat;
  client_config : EmbySourceConfig;
}.

(** The singleton [EmbyManager]: its private [clients] map, and every
    [EmbyClient] constructed so far, oldest first. *)
Record Manager := {
  clients : gmap string EmbyClient;
  constructed : list EmbyClient;
}.

Definition initial : Manager := {| clients := ∅; constructed := [] |}.

(** [new EmbyClient(sourceConfig)]. *)
Definition newEmbyClient (sc : EmbySourceConfig) (m : Manager) : EmbyClient :=
  {| client_id := length (constructed m); client_config := sc |}.

(** [this.clients.set(k, new EmbyClient(sc))]. *)
Definition construct (k : string) (sc : EmbySourceConfig) (m : Manager) : Manager :=
  let c := newEmbyClient sc m in
  {| clients := <[k := c]> (clients m); constructed := constructed m ++ [c] |}.

(** The three errors [getClient] throws, with the text each one carries. *)
Inductive Error :=
| NotConfigured                (* 未配置 Emby 源 *)
| NotFound (key : string)      (* 未找到 Emby 源: key *)
| Disabled (name : string).    (* Emby 源已禁用: name *)

Inductive Result (A : Type) :=
| Ok (a : A)
| Throw (e : Error).
Arguments Ok {A} a.
Arguments Throw {A} e.

(** [!key] for the optional parameter. *)
Definition keyOmitted (k : option string) : bool :=
  match k with
  | None => true
  | Some s => negb (JS.truthy_string s)
  end.

(** The key [getClient] works with after its defaulting step:
    [sources.find(s => s.isDefault) || sources[0]]. *)
Definition resolveKey (k : option string) (s0 : EmbySourceConfig)
           (sources : list EmbySourceConfig) : string :=
  if keyOmitted k then
    key (JS.nullish (JS.find (fun s => JS.truthy_flag (isDefault s)) sources) s0)
  else JS.nullish k "".

(** [EmbyManager.getClient(key?)]. *)
Definition getClient (k : option string) (config : AdminConfig) (m : Manager)
  : Result EmbyClient * Manager :=
  let sources := getSources config in
  match sources with
  | [] => (Throw NotConfigured, m)
  | s0 :: _ =>
      let k' := resolveKey k s0 sources in
      match clients m !! k' with
      | Some c => (Ok c, m)
      | None =>
          match JS.find (fun s => String.eqb (key s) k') sources with
          | None => (Throw (NotFound k'), m)
          | Some sourceConfig =>
              if enabled sourceConfig then
                (Ok (newEmbyClient sourceConfig m), construct k' sourceConfig m)
              else (Throw (Disabled (name sourceConfig)), m)
          end
      end
  end.

(** One entry of the map [getAllClients] returns. *)
Record ClientEntry := {
  client : EmbyClient;
  config : EmbySourceConfig;
}.

(** One turn of the loop in [getAllClients]. *)
Definition getAllClients_step (acc : Manager * list (string * ClientEntry))
           (source : EmbySourceConfig) : Manager * list (string * ClientEntry) :=
  let '(m, result) := acc in
  let m' := match clients m !! key source with
            | Some _ => m
            | None => construct (key source) source m
            end in
  match clients m' !! key source with
  | Some c => (m', JS.map_set (key source) {| client := c; config := source |} result)
  | None => (m', result)
  end.

(** [EmbyManager.getAllClients()]. *)
Definition getAllClients (cfg : AdminConfig) (m : Manager)
  : list (string * ClientEntry) * Manager :=
  let '(m', result) :=
    fold_left getAllClients_step (getEnabledSources cfg) (m, []) in
  (result, m').

(** [EmbyManager.clearCache()]. *)
Definition clearCache (m : Manager) : Manager :=
  {| clients := ∅; constructed := constructed m |}.

(** A call made on the manager, with the configuration [getConfig()]
    returns to it.  A call awaits nothing between reading [clients] and
    writing it, so calls made by concurrent requests take effect one after
    the other, in some order. *)
Inductive Call :=
| CallGetClient (k : option string) (cfg : AdminConfig)
| CallGetAllClients (cfg : AdminConfig)
| CallClearCache.

Definition isClear (c : Call) : bool :=
  match c with CallClearCache => true | _ => false end.

Definition call (m : Manager) (c : Call) : Manager :=
  match c with
  | CallGetClient k cfg => snd (getClient k cfg m)
  | CallGetAllClients cfg => snd (getAllClients cfg m)
  | CallClearCache => clearCache m
  end.

Definition run (cs : list Call) (m : Manager) : Manager := fold_left call cs m.

(** The clients constructed by [cs] started in [m]. *)
Definition constructedBy (cs : list Call) (m : Manager) : list EmbyClient :=
  drop (length (constructed m)) (constructed (run cs m)).

(** No call of [cs] is [clearCache]. *)
Definition clearFree (cs : list Call) : Prop :=
  Forall (fun c => isClear c = false) cs.

(** The key of the source a client was constructed from. *)
Definition clientKey (c : EmbyClient) : string := key (client_config c).

(** [m'] comes from [m] by constructing the clients [new], one per key that
    had none, each cached under the key of its source, every entry of [m]
    kept. *)
Definition grows (m m' : Manager) (new : list EmbyClient) : Prop :=
  constructed m' = constructed m ++ new /\
  NoDup (map clientKey new) /\
  (forall c, c ∈ new ->
     clients m !! clientKey c = None /\ clients m' !! clientKey c = Some c) /\
  (forall k c, clients m !! k = Some c -> clients m' !! k = Some c).

(** What holds of the map [getAllClients] builds, at every turn of its loop:
    each entry pairs an enabled source with the client cached under its
    key. *)
Definition entriesCached (acc : Manager * list (string * ClientEntry)) : Prop :=
  forall k e, (k, e) ∈ acc.2 ->
    clients acc.1 !! k = Some (client e) /\ key (config e) = k /\
    enabled (config e) = true.

(** The keys and sources of the entries of a [getAllClients] map. *)
Definition entryConfigs (result : list (string * ClientEntry))
  : list (string * EmbySourceConfig) :=
  map (fun ke => (ke.1, config ke.2)) result.

(** Every client constructed so far sits at the index it carries. *)
Definition idsOk (m : Manager) : Prop :=
  forall i c, constructed m !! i = Some c -> client_id c = i.

(** What holds of the manager at every point of a run that starts from
    [initial]: constructed clients sit at the index they carry, and every
    cached client is one of them. *)
Definition consistent (m : Manager) : Prop :=
  idsOk m /\ forall k c, clients m !! k = Some c -> c ∈ constructed m.

(** *** resolveHandle as the design document words it *)

(** With the key omitted: the instance with [isDefault = true], falling
    back to the first enabled instance (and, when none is enabled, to the
    first instance). *)
Definition spec_resolveKey (k : option string) (s0 : EmbySourceConfig)
           (sources : list EmbySourceConfig) : string :=
  if keyOmitted k then
    key (JS.nullish (JS.find (fun s => JS.truthy_flag (isDefault s)) sources)
           (JS.nullish (JS.find enabled sources) s0))
  else JS.nullish k "".

(** NotConfigured with no instance, NotFound when the key matches none,
    Disabled when the resolved instance is switched off; otherwise the
    cached handle, or a new one that is cached. *)
Definition spec_resolveHandle (k : option string) (config : AdminConfig)
           (m : Manager) : Result EmbyClient * Manager :=
  let sources := getSources config in
  match sources with
  | [] => (Throw NotConfigured, m)
  | s0 :: _ =>
      let k' := spec_resolveKey k s0 sources in
      match JS.find (fun s => String.eqb (key s) k') sources with
      | None => (Throw (NotFound k'), m)
      | Some sourceConfig =>
          if enabled sourceConfig then
            match clients m !! k' with
            | Some c => (Ok c, m)
            | None => (Ok (newEmbyClient sourceConfig m), construct k' sourceConfig m)
            end
          else (Throw (Disabled (name sourceConfig)), m)
      end
  end.

End EmbyManager.

(** ** lib/emby-cache.ts *)

Module EmbyCache.

Section Cache.
(** The cached payload ([any] in the source). *)
Context {T : Type}.

(** [interface EmbyCachedEntry<T>]. *)
Record EmbyCachedEntry := {
  expiresAt : Z;
  data : T;
}.

Definition EMBY_CACHE_TTL_MS : Z := 6 * 60 * 60 * 1000.
Definition EMBY_VIEWS_CACHE_TTL_MS : Z := 24 * 60 * 60 * 1000.
Definition EMBY_VIEWS_CACHE_KEY : string := "emby:views".

(** [makeListCacheKey]. *)
Definition makeListCacheKey (page pageSize : Z)
           (parentId embyKey : option string) : string :=
  let keyPrefix :=
    match embyKey with
    | Some k => if JS.truthy_string k then "emby:" +:+ k else "emby"
    | None => "emby"
    end in
  let base :=
    keyPrefix +:+ ":list:" +:+ JS.toString page +:+ ":" +:+ JS.toString pageSize in
  match parentId with
  | Some p => if JS.truthy_string p then base +:+ ":" +:+ p else base
  | None => base
  end.

(** [getCachedEmbyList], reading the clock at [now]: the value returned
    ([None] is [null]) and the module's [EMBY_CACHE] afterwards. *)
Definition getCachedEmbyList (now : Z) (page pageSize : Z)
           (parentId embyKey : option string)
           (EMBY_CACHE : gmap string EmbyCachedEntry)
  : option T * gmap string EmbyCachedEntry :=
  let key := makeListCacheKey page pageSize parentId embyKey in
  match EMBY_CACHE !! key with
  | None => (None, EMBY_CACHE)
  | Some entry =>
      if expiresAt entry <=? now then (None, delete key EMBY_CACHE)
      else (Some (data entry), EMBY_CACHE)
  end.

(** [setCachedEmbyList], reading the clock at [now]. *)
Definition setCachedEmbyList (now : Z) (page pageSize : Z) (d : T)
           (parentId embyKey : option string)
           (EMBY_CACHE : gmap string EmbyCachedEntry)
  : gmap string EmbyCachedEntry :=
  let key := makeListCacheKey page pageSize parentId embyKey in
  <[key := {| expiresAt := now + EMBY_CACHE_TTL_MS; data := d |}]> EMBY_CACHE.

(** [clearEmbyCache]: the count reported and the emptied map. *)
Definition clearEmbyCache (EMBY_CACHE : gmap string EmbyCachedEntry)
  : nat * gmap string EmbyCachedEntry :=
  (size EMBY_CACHE, ∅).

(** [getCachedEmbyViews] ([embyKey] already defaulted to ['default']). *)
Definition getCachedEmbyViews (now : Z) (embyKey : string)
           (EMBY_CACHE : gmap string EmbyCachedEntry)
  : option T * gmap string EmbyCachedEntry :=
  let cacheKey := EMBY_VIEWS_CACHE_KEY +:+ ":" +:+ embyKey in
  match EMBY_CACHE !! cacheKey with
  | None => (None, EMBY_CACHE)
  | Some entry =>
      if expiresAt entry <=? now then (None, delete cacheKey EMBY_CACHE)
      else (Some (data entry), EMBY_CACHE)
  end.

(** [setCachedEmbyViews]. *)
Definition setCachedEmbyViews (now : Z) (embyKey : string) (d : T)
           (EMBY_CACHE : gmap string EmbyCachedEntry)
  : gmap string EmbyCachedEntry :=
  let cacheKey := EMBY_VIEWS_CACHE_KEY +:+ ":" +:+ embyKey in
  <[cacheKey := {| expiresAt := now + EMBY_VIEWS_CACHE_TTL_MS; data := d |}]>
    EMBY_CACHE.
End Cache.

Arguments EmbyCachedEntry : clear implicits.

End EmbyCache.

(** ** What the emby server returns *)

Module Emby.

(** [EmbyItem], as far as the callers read it. *)
Record EmbyItem := {
  Id : string;
  Name : string;
  Type_ : string;            (* the field [Type] *)
  ProductionYear : option Z;
  Overview : option string;
  ParentIndexNumber : option Z;
  IndexNumber : option Z;
}.

End Emby.

(** ** Promises raced against a timer *)

Module Async.

(** What an asynchronous call has done by the time the 20000 ms timer it is
    raced against fires. *)
Inductive Task (A : Type) :=
| Returns (v : A)
| Throws
| Pending.
Arguments Returns {A} v.
Arguments Throws {A}.
Arguments Pending {A}.

Inductive Promise (A : Type) :=
| Fulfilled (v : A)
| Rejected.
Arguments Fulfilled {A} v.
Arguments Rejected {A}.

(** [Promise.race([task, new Promise((_, reject) => setTimeout(reject, 20000))])]. *)
Definition raceTimeout {A} (t : Task A) : Promise A :=
  match t with
  | Returns v => Fulfilled v
  | Throws => Rejected
  | Pending => Rejected
  end.

(** [p.catch(() => d)]. *)
Definition catch {A} (p : Promise A) (d : A) : Promise A :=
  match p with
  | Fulfilled v => Fulfilled v
  | Rejected => Fulfilled d
  end.

(** [try { return await t } catch { return d }] inside an async function. *)
Definition tryCatch {A B} (t : Task A) (f : A -> B) (d : B) : Task B :=
  match t with
  | Returns v => Returns (f v)
  | Throws => Returns d
  | Pending => Pending
  end.

(** [(await Promise.allSettled(ps)).filter(r => r.status === 'fulfilled').map(r => r.value)]. *)
Definition fulfilledValues {A} (ps : list (Promise A)) : list A :=
  omap (fun p => match p with Fulfilled v => Some v | Rejected => None end) ps.

End Async.

(** ** app/api/search: GET *)

Module Search.
Import EmbyManager Emby Async.

(** [SearchResult]. *)
Record SearchResult := {
  id : string;
  source : string;
  source_name : string;
  title : string;
  poster : string;
  episodes : list string;
  episodes_titles : list string;
  year : string;
  desc : string;
  type_name : option string;
  douban_id : Z;
}.

(** A generic API site. *)
Record ApiSite := {
  site_key : string;
  site_name : string;
  site_api : string;
}.

(** [getAuthInfoFromCookie(request)]. *)
Record AuthInfo := { username : option string }.

(** The request: the auth cookie and the [q] parameter. *)
Record Request := {
  authInfo : option AuthInfo;
  q : option string;
}.

Inductive Body :=
| Results (results : list SearchResult)
| ErrorBody (error : string).

(** The JSON response: status, body, and whether the Cache-Control headers
    are set. *)
Record Response := {
  status : Z;
  body : Body;
  cacheHeaders : bool;
}.

Section Handler.
(** The collaborators of the handler that live in other modules. *)
Variable getAvailableApiSites : string -> list ApiSite.
Variable generateSearchVariants : string -> list string.
Variable searchFromApi : ApiSite -> string -> list string -> Task (list SearchResult).
Variable getItems : EmbyClient -> string -> Task (list EmbyItem).
Variable getImageUrl : EmbyClient -> string -> string -> string.
Variable yellowWords : list string.

(** The source tag and source name of one emby task. *)
Definition sourceValue (embySources : list ClientEntry) (embyConfig : EmbySourceConfig) : string :=
  if (length embySources =? 1)%nat then "emby" else "emby_" +:+ key embyConfig.

Definition sourceName (embySources : list ClientEntry) (embyConfig : EmbySourceConfig) : string :=
  if (length embySources =? 1)%nat then "Emby" else name embyConfig.

(** The result built from one item of [searchResult.Items]. *)
Definition embyResult (embySources : list ClientEntry) (e : ClientEntry)
           (item : EmbyItem) : SearchResult :=
  {| id := Id item;
     source := sourceValue embySources (config e);
     source_name := sourceName embySources (config e);
     title := Name item;
     poster := getImageUrl (client e) (Id item) "Primary";
     episodes := [];
     episodes_titles := [];
     year := match ProductionYear item with
             | Some y => JS.or_string (Some (JS.toString y)) ""
             | None => ""
             end;
     desc := JS.or_string (Overview item) "";
     type_name := Some (if String.eqb (Type_ item) "Movie" then "电影" else "电视剧");
     douban_id := 0 |}.

(** The async function of one emby source: [getItems], then the mapping,
    inside [try]/[catch]. *)
Definition embyTask (embySources : list ClientEntry) (query : string)
           (e : ClientEntry) : Task (list SearchResult) :=
  tryCatch (getItems (client e) query) (map (embyResult embySources e)) [].

(** [embyPromises]. *)
Definition embyPromises (embySources : list ClientEntry) (query : string)
  : list (Promise (list SearchResult)) :=
  map (fun e => catch (raceTimeout (embyTask embySources query e)) []) embySources.

(** [searchPromises]. *)
Definition searchPromises (apiSites : list ApiSite) (query : string)
           (searchVariants : list string) : list (Promise (list SearchResult)) :=
  map (fun site => catch (raceTimeout (searchFromApi site query searchVariants)) [])
      apiSites.

(** The predicate of the yellow filter. *)
Definition typeName (result : SearchResult) : string :=
  JS.or_string (type_name result) "".

Definition notYellow (result : SearchResult) : bool :=
  negb (JS.some (fun word => JS.includes (typeName result) word) yellowWords).

(** The filtering step on the flattened list. *)
Definition yellowFilter (config : AdminConfig) (flattenedResults : list SearchResult)
  : list SearchResult :=
  if negb (DisableYellowFilter (SiteCfg config))
  then List.filter notYellow flattenedResults
  else flattenedResults.

(** The name of the authenticated user, if the cookie carries one. *)
Definition authenticated (request : Request) : option string :=
  match authInfo request with
  | Some a =>
      match username a with
      | Some u => if JS.truthy_string u then Some u else None
      | None => None
      end
  | None => None
  end.

(** [GET]: the response and the manager afterwards.  The [catch] branch
    around [Promise.allSettled] (status 500) is left out: nothing in the
    [try] block throws. *)
Definition GET (request : Request) (config : AdminConfig) (m : Manager)
  : Response * Manager :=
  match authenticated request with
  | None => ({| status := 401; body := ErrorBody "Unauthorized"; cacheHeaders := false |}, m)
  | Some user =>
      match q request with
      | None => ({| status := 200; body := Results []; cacheHeaders := true |}, m)
      | Some query =>
          if negb (JS.truthy_string query) then
            ({| status := 200; body := Results []; cacheHeaders := true |}, m)
          else
            let apiSites := getAvailableApiSites user in
            let searchVariants := generateSearchVariants query in
            let '(embySourcesMap, m') := getAllClients config m in
            let embySources := JS.map_values embySourcesMap in
            let embyPromises := embyPromises embySources query in
            let searchPromises := searchPromises apiSites query searchVariants in
            let results := searchPromises in
            let successResults := fulfilledValues results in
            let flattenedResults := yellowFilter config (concat successResults) in
            match flattenedResults with
            | [] => ({| status := 200; body := Results []; cacheHeaders := false |}, m')
            | _ => ({| status := 200; body := Results flattenedResults;
                       cacheHeaders := true |}, m')
            end
      end
  end.

(** The results a response carries, when it carries any. *)
Definition resultsOf (r : Response) : list SearchResult :=
  match body r with Results l => l | ErrorBody _ => [] end.

(** The value one emby source's promise settles to. *)
Definition embyContribution (embySources : list ClientEntry) (query : string)
           (e : ClientEntry) : list SearchResult :=
  match catch (raceTimeout (embyTask embySources query e)) [] with
  | Fulfilled v => v
  | Rejected => []
  end.

(** The value one API site's promise settles to. *)
Definition siteContribution (query : string) (site : ApiSite) : list SearchResult :=
  match catch (raceTimeout (searchFromApi site query (generateSearchVariants query))) [] with
  | Fulfilled v => v
  | Rejected => []
  end.
End Handler.

End Search.

(** ** lib/special-sources-detail.ts *)

Module Detail.
Import EmbyManager Emby.

(** The comparator handed to [allEpisodes.sort]. *)
Definition strictNotEqual (a b : option Z) : bool :=
  match a, b with
  | Some x, Some y => negb (x =? y)
  | None, None => false
  | _, _ => true
  end.

Definition episodeCompare (a b : EmbyItem) : Z :=
  if strictNotEqual (ParentIndexNumber a) (ParentIndexNumber b)
  then JS.or_num (ParentIndexNumber a) 0 - JS.or_num (ParentIndexNumber b) 0
  else JS.or_num (IndexNumber a) 0 - JS.or_num (IndexNumber b) 0.

(** [allEpisodes] after the loop over the seasons and the sort. *)
Definition sortedEpisodes (episodesBySeason : list (list EmbyItem)) : list EmbyItem :=
  JS.sort episodeCompare (concat episodesBySeason).

(** The label [S<season>E<episode>]. *)
Definition episodeTitle (ep : EmbyItem) : string :=
  let seasonNum := JS.or_num (ParentIndexNumber ep) 1 in
  let episodeNum := JS.or_num (IndexNumber ep) 1 in
  "S" +:+ JS.padStart0 2 (JS.toString seasonNum) +:+
  "E" +:+ JS.padStart0 2 (JS.toString episodeNum).

(** The ordering the design document asks for: by season index, then by
    episode index, a missing index counting as 0. *)
Definition rank (ep : EmbyItem) : Z * Z :=
  (JS.nullish (ParentIndexNumber ep) 0, JS.nullish (IndexNumber ep) 0).

Definition rank_le (a b : EmbyItem) : Prop :=
  (rank a).1 < (rank b).1 \/ ((rank a).1 = (rank b).1 /\ (rank a).2 <= (rank b).2).

(** Of two episodes, not one lacks its season index while the other sits
    in season 0. *)
Definition comparable (a b : EmbyItem) : Prop :=
  ~ (ParentIndexNumber a = None /\ ParentIndexNumber b = Some 0) /\
  ~ (ParentIndexNumber b = None /\ ParentIndexNumber a = Some 0).

(** No episode of [l] lacks its season index while another one sits in
    season 0. *)
Definition seasonsComparable (l : list EmbyItem) : Prop :=
  forall a b, a ∈ l -> b ∈ l -> comparable a b.

(** The detail record returned to the caller. *)
Record DetailResult := {
  source : string;
  source_name : string;
  id : string;
  title : string;
  poster : string;
  year : string;
  douban_id : Z;
  desc : string;
  episodes : list string;
  episodes_titles : list string;
  subtitles : list (list string);
  proxyMode : bool;
}.

Inductive DetailError :=
| EmbyNotConfigured                 (* Emby 未配置或未启用 *)
| ManagerError (e : EmbyManager.Error)
| ClientError                       (* a call on the EmbyClient rejected *)
| UnsupportedType.                  (* 不支持的媒体类型 *)

Section GetEmbyDetail.
(** The methods of [EmbyClient]; [None] is a rejected call. *)
Variable getItem : EmbyClient -> string -> option EmbyItem.
Variable getSeasons : EmbyClient -> string -> option (list EmbyItem).
Variable getEpisodes : EmbyClient -> string -> string -> option (list EmbyItem).
Variable getStreamUrl : EmbyClient -> string -> option string.
Variable getSubtitles : EmbyClient -> EmbyItem -> list string.
Variable getImageUrl : EmbyClient -> string -> string -> string.

(** [source.startsWith('emby_') ? source.substring(5) : undefined]. *)
Definition embyKeyOf (source : string) : option string :=
  if JS.startsWith source "emby_"
  then Some (String.substring 5 (String.length source - 5) source)
  else None.

Definition yearOf (item : EmbyItem) : string :=
  match ProductionYear item with
  | Some y => JS.or_string (Some (JS.toString y)) ""
  | None => ""
  end.

(** The name shown for the source: that of the enabled source whose key
    is [embyKey], else ['Emby']. *)
Definition sourceNameOf (config : AdminConfig) (embyKey : option string) : string :=
  match embyKey with
  | Some k =>
      match JS.find (fun s => String.eqb (key s) k) (getEnabledSources config) with
      | Some sc => if JS.truthy_string (name sc) then name sc else "Emby"
      | None => "Emby"
      end
  | None => "Emby"
  end.

(** The episodes of every season, season after season. *)
Definition fetchEpisodes (c : EmbyClient) (item : EmbyItem)
  : option (list (list EmbyItem)) :=
  seasons ← getSeasons c (Id item);
  mapM (fun season => getEpisodes c (Id item) (Id season)) seasons.

(** [getEmbyDetail]. *)
Definition getEmbyDetail (source id : string) (config : AdminConfig) (m : Manager)
  : (DetailError + DetailResult) * Manager :=
  if negb (hasSources config) then (inl EmbyNotConfigured, m) else
  let embyKey := embyKeyOf source in
  let sourceName := sourceNameOf config embyKey in
  match getClient embyKey config m with
  | (Throw e, m') => (inl (ManagerError e), m')
  | (Ok c, m') =>
      match getItem c id with
      | None => (inl ClientError, m')
      | Some item =>
          if String.eqb (Type_ item) "Movie" then
            let subs := getSubtitles c item in
            match getStreamUrl c (Id item) with
            | None => (inl ClientError, m')
            | Some url =>
                (inr {| source := source; source_name := sourceName;
                        id := Id item; title := Name item;
                        poster := getImageUrl c (Id item) "Primary";
                        year := yearOf item; douban_id := 0;
                        desc := JS.or_string (Overview item) "";
                        episodes := [url];
                        episodes_titles := [Name item];
                        subtitles := match subs with [] => [] | _ => [subs] end;
                        proxyMode := false |}, m')
            end
          else if String.eqb (Type_ item) "Series" then
            match fetchEpisodes c item with
            | None => (inl ClientError, m')
            | Some episodesBySeason =>
                let allEpisodes := sortedEpisodes episodesBySeason in
                match mapM (fun ep => getStreamUrl c (Id ep)) allEpisodes with
                | None => (inl ClientError, m')
                | Some urls =>
                    (inr {| source := source; source_name := sourceName;
                            id := Id item; title := Name item;
                            poster := getImageUrl c (Id item) "Primary";
                            year := yearOf item; douban_id := 0;
                            desc := JS.or_string (Overview item) "";
                            episodes := urls;
                            episodes_titles := map episodeTitle allEpisodes;
                            subtitles := map (getSubtitles c) allEpisodes;
                            proxyMode := false |}, m')
                end
            end
          else (inl UnsupportedType, m')
      end
  end.
End GetEmbyDetail.

End Detail.

(** ** app/api/emby/play: GET *)

Module PlayProxy.
Import EmbyManager.

(** What [fetch] resolves to: the status and the headers the handler
    copies, each as [videoResponse.headers.get] gives it. *)
Record Upstream := {
  up_status : Z;
  content_type : option string;
  content_length : option string;
  accept_ranges : option string;
  content_range : option string;
}.

(** [Response.ok]. *)
Definition ok (r : Upstream) : bool := (200 <=? up_status r) && (up_status r <=? 299).

(** The effects of the handler on its collaborators, in program order. *)
Inductive Event :=
| EvGetClient (embyKey : option string)
| EvGetStreamUrl (c : EmbyClient) (itemId : string)
| EvFetch (url : string) (range : option string)
| EvClearCache.

Definition isFetch (e : Event) : bool :=
  match e with EvFetch _ _ => true | _ => false end.

Definition fetchCount (log : list Event) : nat := length (List.filter isFetch log).

(** The manager and the effects so far. *)
Record World := {
  mgr : Manager;
  log : list Event;
}.

(** What the handler answers. *)
Inductive Reply :=
| Json (status : Z) (error : string)
| Stream (status : Z) (headers : list (string * string)) (upstream : Upstream).

(** A computation that may throw: the world afterwards and either the
    thrown error ([inl]) or the value. *)
Definition M (A : Type) : Type := World -> World * (string + A).

Definition ret {A} (a : A) : M A := fun w => (w, inr a).
Definition throw {A} (msg : string) : M A := fun w => (w, inl msg).
Definition bind {A B} (x : M A) (f : A -> M B) : M B :=
  fun w => match x w with
           | (w', inl e) => (w', inl e)
           | (w', inr a) => f a w'
           end.
Definition emit (e : Event) : M unit :=
  fun w => ({| mgr := mgr w; log := log w ++ [e] |}, inr tt).

Notation "'let!' x ':=' c1 'in' c2" := (bind c1 (fun x => c2))
  (at level 10, x name, c1 at level 100, c2 at level 200).
Notation "'do!' c1 'in' c2" := (bind c1 (fun _ => c2))
  (at level 10, c1 at level 100, c2 at level 200).

Definition errorText (e : EmbyManager.Error) : string :=
  match e with
  | NotConfigured => "未配置 Emby 源"
  | NotFound k => "未找到 Emby 源: " +:+ k
  | Disabled n => "Emby 源已禁用: " +:+ n
  end.

Section Handler.
Variable config : AdminConfig.
(** [client.getStreamUrl(itemId, true, true)]; [None] is a rejection. *)
Variable getStreamUrl : EmbyClient -> string -> option string.
(** The network: the answer to the [n]-th fetch of the request, given its
    URL and Range header; [None] is a rejected fetch. *)
Variable fetch : nat -> string -> option string -> option Upstream.

(** [getEmbyClient]. *)
Definition getEmbyClient (embyKey : option string) : M EmbyClient :=
  if negb (hasSources config) then throw "Emby 未配置或未启用" else
  do! emit (EvGetClient embyKey) in
  fun w =>
    match getClient embyKey config (mgr w) with
    | (Ok c, m') => ({| mgr := m'; log := log w |}, inr c)
    | (Throw e, m') => ({| mgr := m'; log := log w |}, inl (errorText e))
    end.

Definition streamUrl (c : EmbyClient) (itemId : string) : M string :=
  do! emit (EvGetStreamUrl c itemId) in
  match getStreamUrl c itemId with
  | Some url => ret url
  | None => throw "getStreamUrl"
  end.

Definition doFetch (url : string) (range : option string) : M Upstream :=
  fun w =>
    let w' := {| mgr := mgr w; log := log w ++ [EvFetch url range] |} in
    match fetch (fetchCount (log w)) url range with
    | Some r => (w', inr r)
    | None => (w', inl "fetch failed")
    end.

Definition doClearCache : M unit :=
  fun w => ({| mgr := clearCache (mgr w); log := log w ++ [EvClearCache] |}, inr tt).

(** The headers copied from the upstream answer: the names and values
    handed to [headers.set], in program order. *)
Definition copiedHeaders (r : Upstream) : list (string * string) :=
  [("Content-Type", JS.or_string (content_type r) "video/mp4")]
  ++ match content_length r with
     | Some v => if JS.truthy_string v then [("Content-Length", v)] else []
     | None => []
     end
  ++ match accept_ranges r with
     | Some v => if JS.truthy_string v then [("Accept-Ranges", v)] else []
     | None => []
     end
  ++ match content_range r with
     | Some v => if JS.truthy_string v then [("Content-Range", v)] else []
     | None => []
     end.

(** The headers of the streamed response: the copied ones, then the
    [Content-Disposition] built from the file name of the URL. *)
Definition replyHeaders (filename : string) (r : Upstream) : list (string * string) :=
  copiedHeaders r
  ++ [("Content-Disposition",
       "inline; filename=" +:+ JS.dquote +:+ filename +:+ JS.dquote)].

(** Every [headers.set] went through: none threw. *)
Definition headersAccepted (headers : list (string * string)) : bool :=
  forallb (fun kv => JS.headerValueOk kv.2) headers.

(** The body of the [try] block, after the authorisation and parameter
    checks. *)
Definition proxy (itemId filename : string) (embyKey range : option string) : M Reply :=
  let! client := getEmbyClient embyKey in
  let! embyStreamUrl := streamUrl client itemId in
  let! videoResponse := doFetch embyStreamUrl range in
  let! videoResponse :=
    (if up_status videoResponse =? 401 then
       do! doClearCache in
       let! client := getEmbyClient embyKey in
       let! embyStreamUrl := streamUrl client itemId in
       doFetch embyStreamUrl range
     else ret videoResponse) in
  if negb (ok videoResponse) then ret (Json 500 "获取视频流失败")
  else
    let headers := replyHeaders filename videoResponse in
    if headersAccepted headers
    then ret (Stream (up_status videoResponse) headers videoResponse)
    else throw "Invalid header value".

(** [GET]: [hasValidToken], [hasValidAuth] are the two authorisation
    tests; [embyKey] is [searchParams.get('embyKey')] and [range] the
    [Range] header the handler forwards, if it forwards one. *)
Definition GET (hasValidToken hasValidAuth : bool) (itemId : option string)
           (filename : string) (embyKey range : option string) (w : World)
  : World * Reply :=
  if negb hasValidToken && negb hasValidAuth then (w, Json 401 "未授权") else
  match itemId with
  | None => (w, Json 400 "缺少 itemId 参数")
  | Some i =>
      if negb (JS.truthy_string i) then (w, Json 400 "缺少 itemId 参数") else
      let embyKey := JS.or_undefined embyKey in
      match proxy i filename embyKey range w with
      | (w', inr reply) => (w', reply)
      | (w', inl _) => (w', Json 500 "播放失败")
      end
  end.
End Handler.

End PlayProxy.

(** ** app/api/emby/import: POST *)

Module ImportRoute.
Import EmbyManager.

(** [Array.prototype.findIndex]; [None] is [-1]. *)
Fixpoint findIndex {A} (p : A -> bool) (l : list A) : option nat :=
  match l with
  | [] => None
  | x :: l' => if p x then Some 0%nat else S <$> findIndex p l'
  end.

(** One turn of the loop over [data.Sources]: overwrite the source that has
    the key, else append. *)
Definition upsert (mergedSources : list EmbySourceConfig)
           (importSource : EmbySourceConfig) : list EmbySourceConfig :=
  match findIndex (fun s => String.eqb (key s) (key importSource)) mergedSources with
  | Some existingIndex => <[existingIndex := importSource]> mergedSources
  | None => mergedSources ++ [importSource]
  end.

(** [mergedSources] after the loop. *)
Definition mergeSources (existingSources imported : list EmbySourceConfig)
  : list EmbySourceConfig :=
  fold_left upsert imported existingSources.

(** [{...a, ...b}] on one optional field. *)
Definition spread {A} (a b : option A) : option A :=
  match b with Some v => Some v | None => a end.

(** The object no field of which is set ([adminConfig.EmbyConfig] when it is
    [undefined], under a spread). *)
Definition emptyEmbyConfig : EmbyConfig :=
  {| Sources := None; cfg_Enabled := None; cfg_ServerURL := None;
     cfg_ApiKey := None; cfg_Username := None; cfg_Password := None;
     cfg_UserId := None; cfg_AuthToken := None; cfg_Libraries := None;
     cfg_LastSyncTime := None; cfg_ItemCount := None |}.

(** [{...old, ...data}]. *)
Definition spreadEmbyConfig (old data : EmbyConfig) : EmbyConfig :=
  {| Sources := spread (Sources old) (Sources data);
     cfg_Enabled := spread (cfg_Enabled old) (cfg_Enabled data);
     cfg_ServerURL := spread (cfg_ServerURL old) (cfg_ServerURL data);
     cfg_ApiKey := spread (cfg_ApiKey old) (cfg_ApiKey data);
     cfg_Username := spread (cfg_Username old) (cfg_Username data);
     cfg_Password := spread (cfg_Password old) (cfg_Password data);
     cfg_UserId := spread (cfg_UserId old) (cfg_UserId data);
     cfg_AuthToken := spread (cfg_AuthToken old) (cfg_AuthToken data);
     cfg_Libraries := spread (cfg_Libraries old) (cfg_Libraries data);
     cfg_LastSyncTime := spread (cfg_LastSyncTime old) (cfg_LastSyncTime data);
     cfg_ItemCount := spread (cfg_ItemCount old) (cfg_ItemCount data) |}.

(** [{...old, Sources: mergedSources}]. *)
Definition withSources (old : EmbyConfig) (mergedSources : list EmbySourceConfig)
  : EmbyConfig :=
  {| Sources := Some mergedSources;
     cfg_Enabled := cfg_Enabled old; cfg_ServerURL := cfg_ServerURL old;
     cfg_ApiKey := cfg_ApiKey old; cfg_Username := cfg_Username old;
     cfg_Password := cfg_Password old; cfg_UserId := cfg_UserId old;
     cfg_AuthToken := cfg_AuthToken old; cfg_Libraries := cfg_Libraries old;
     cfg_LastSyncTime := cfg_LastSyncTime old; cfg_ItemCount := cfg_ItemCount old |}.

(** The configuration the handler saves, from the one [getConfig()] returned
    and the imported [data] (an object holding a [Sources] array, or the
    single-source fields).  [data] is taken as typed: a [Sources] field, when
    it is there, is an array. *)
Definition importInto (adminConfig : AdminConfig) (data : EmbyConfig) : AdminConfig :=
  let old := JS.nullish (EmbyCfg adminConfig) emptyEmbyConfig in
  match Sources data with
  | Some dataSources =>
      let existingSources := JS.nullish (Sources old) [] in
      {| EmbyCfg := Some (withSources old (mergeSources existingSources dataSources));
         SiteCfg := SiteCfg adminConfig |}
  | None =>
      {| EmbyCfg := Some (spreadEmbyConfig old data); SiteCfg := SiteCfg adminConfig |}
  end.

(** The request: the storage type ([NEXT_PUBLIC_STORAGE_TYPE], when set), the
    user name of the auth cookie, the site owner ([USERNAME], when set) and
    the [data] field of the body. *)
Record Request := {
  storageType : option string;
  username : option string;
  owner : option string;
  data : option EmbyConfig;
}.

(** The status of the answer and the configuration saved, if any.  [saved]
    tells whether [db.saveAdminConfig] went through. *)
Definition POST (request : Request) (adminConfig : AdminConfig) (saved : bool)
  : Z * option AdminConfig :=
  if String.eqb (JS.or_string (storageType request) "localstorage") "localstorage"
  then (400, None) else
  match username request with
  | None => (401, None)
  | Some u =>
      if negb (JS.truthy_string u) then (401, None) else
      match owner request with
      | None => (403, None)
      | Some o =>
          if negb (String.eqb u o) then (403, None) else
          match data request with
          | None => (400, None)
          | Some d =>
              if saved then (200, Some (importInto adminConfig d)) else (500, None)
          end
      end
  end.

End ImportRoute.

(** ** Reading the maps of the manager *)

Module ManagerViews.
Import EmbyManager.

(** [m.get(k)] on an insertion-ordered map. *)
Definition map_get {V} (k : string) (m : list (string * V)) : option V :=
  snd <$> List.find (fun kv => String.eqb kv.1 k) m.

(** The map [getAllClients] returns when the clients it needs are all in
    [cache]: one [set] per source, with the client cached under its key. *)
Definition entriesFor (cache : gmap string EmbyClient)
           (sources : list EmbySourceConfig) (result : list (string * ClientEntry))
  : list (string * ClientEntry) :=
  fold_left (fun acc source =>
               match cache !! key source with
               | Some c => JS.map_set (key source) {| client := c; config := source |} acc
               | None => acc
               end) sources result.

End ManagerViews.

(** ** Text without a colon *)

Module Text.

(** No character of [s] is a colon. *)
Fixpoint colonFree (s : string) : bool :=
  match s with
  | EmptyString => true
  | String c s' => negb (Ascii.eqb c (Ascii.ascii_of_nat 58)) && colonFree s'
  end.

End Text.

(** ** lib/special-sources-detail.ts: the dispatcher *)

Module SpecialSources.
Import EmbyManager Emby Detail.

(** [isSpecialSource]. *)
Definition isSpecialSource (source : string) : bool :=
  String.eqb source "emby" || JS.startsWith source "emby_".

Section Dispatch.
Variable getItem : EmbyClient -> string -> option EmbyItem.
Variable getSeasons : EmbyClient -> string -> option (list EmbyItem).
Variable getEpisodes : EmbyClient -> string -> string -> option (list EmbyItem).
Variable getStreamUrl : EmbyClient -> string -> option string.
Variable getSubtitles : EmbyClient -> EmbyItem -> list string.
Variable getImageUrl : EmbyClient -> string -> string -> string.

(** [getSpecialSourceDetail]: the detail, [null] ([None]) for a source that
    is not special, or the error of [getEmbyDetail], thrown again. *)
Definition getSpecialSourceDetail (source id : string) (config : AdminConfig)
           (m : Manager) : (DetailError + option DetailResult) * Manager :=
  if String.eqb source "emby" || JS.startsWith source "emby_" then
    match getEmbyDetail getItem getSeasons getEpisodes getStreamUrl getSubtitles
                        getImageUrl source id config m with
    | (inr r, m') => (inr (Some r), m')
    | (inl e, m') => (inl e, m')
    end
  else (inr None, m).
End Dispatch.

End SpecialSources.

(** ** app/api/emby/views/route.ts *)

Module ViewsRoute.
Import EmbyManager EmbyCache.

(** A library as [client.getUserViews()] returns it. *)
Record EmbyView := {
  Id : string;
  Name : string;
  CollectionType : option string;
}.

(** An element of [response.views]. *)
Record ViewOut := {
  id : string;
  name : string;
  type : option string;
}.

(** [response]: [{ success: true, views }]. *)
Record ViewsResponse := {
  views : list ViewOut;
}.

(** The callback of [views.filter]. *)
Definition isMediaLibrary (view : EmbyView) : bool :=
  match CollectionType view with
  | Some t => String.eqb t "movies" || String.eqb t "tvshows"
  | None => false
  end.

(** The callback of [filteredViews.map]. *)
Definition viewOut (view : EmbyView) : ViewOut :=
  {| id := Id view; name := Name view; type := CollectionType view |}.

(** [cacheKey], from the [embyKey] parameter of the URL. *)
Definition cacheKeyOf (embyKeyParam : option string) : string :=
  JS.or_string (JS.or_undefined embyKeyParam) "default".

Section Handler.
(** What [EMBY_CACHE] holds ([any] in the source), how a response sits in it
    and which of its values are truthy. *)
Context {T : Type}.
Variable store : ViewsResponse -> T.
Variable truthy : T -> bool.
(** [client.getUserViews()]: the libraries, or the message of the error
    thrown. *)
Variable getUserViews : EmbyClient -> string + list EmbyView.

(** The body of the answer: a cached value as it is, a fresh response, or
    [{ error, views: [] }]; the status is 200 in each case. *)
Inductive Reply :=
| Json (cached : T)
| Fresh (response : ViewsResponse)
| Failure (error : string).

(** [GET].  [now] is the clock read by [getCachedEmbyViews], [later] the one
    read by [setCachedEmbyViews]; the state is the manager and [EMBY_CACHE]. *)
Definition GET (now later : Z) (embyKeyParam : option string) (config : AdminConfig)
           (st : Manager * gmap string (EmbyCachedEntry T))
  : Reply * (Manager * gmap string (EmbyCachedEntry T)) :=
  let embyKey := JS.or_undefined embyKeyParam in
  let cacheKey := JS.or_string embyKey "default" in
  let (cached, cache1) := getCachedEmbyViews now cacheKey st.2 in
  let miss :=
    match getClient embyKey config st.1 with
    | (Throw e, m1) =>
        (Failure ("获取 Emby 媒体库列表失败: " +:+ PlayProxy.errorText e), (m1, cache1))
    | (Ok client, m1) =>
        match getUserViews client with
        | inl message =>
            (Failure ("获取 Emby 媒体库列表失败: " +:+ message), (m1, cache1))
        | inr views =>
            let filteredViews := List.filter isMediaLibrary views in
            let response := {| views := map viewOut filteredViews |} in
            (Fresh response, (m1, setCachedEmbyViews later cacheKey (store response) cache1))
        end
    end in
  match cached with
  | Some d => if truthy d then (Json d, (st.1, cache1)) else miss
  | None => miss
  end.
End Handler.

Arguments Reply : clear implicits.

End ViewsRoute.

(** ** app/private-library/page.tsx: the [source] parameter *)

Module LibraryPage.

(** [s.split(sep)] for a one-character separator. *)
Fixpoint split (sep : Ascii.ascii) (s : string) : list string :=
  match s with
  | EmptyString => [EmptyString]
  | String c s' =>
      if Ascii.eqb c sep then EmptyString :: split sep s'
      else match split sep s' with
           | part :: parts => String c part :: parts
           | [] => [String c EmptyString]
           end
  end.

(** What [parseSourceParam] returns. *)
Record SourceParam := {
  sourceType : string;
  embyKey : option string;
}.

(** [parseSourceParam]; [const [type, key] = ...] reads the first two
    parts. *)
Definition parseSourceParam (sourceParam : option string) : SourceParam :=
  match sourceParam with
  | None => {| sourceType := "emby"; embyKey := None |}
  | Some p =>
      if negb (JS.truthy_string p) then {| sourceType := "emby"; embyKey := None |}
      else if JS.includes p ":" then
        let parts := split (Ascii.ascii_of_nat 58) p in
        {| sourceType := default "" (parts !! 0%nat); embyKey := parts !! 1%nat |}
      else {| sourceType := p; embyKey := None |}
  end.

(** The [source] parameter the page writes to the URL, from its state and
    the number of emby sources on offer.  What [params.set] is given is what
    [searchParams.get] gives back: [URLSearchParams] escapes and unescapes
    the value. *)
Definition urlSourceParam (sourceType : string) (embyKey : option string)
           (embySourceOptions : nat) : string :=
  match embyKey with
  | Some k =>
      if String.eqb sourceType "emby" && JS.truthy_string k && (1 <? embySourceOptions)%nat
      then "emby:" +:+ k else sourceType
  | None => sourceType
  end.

(** The [sourceParam] the page hands to a video card. *)
Definition cardSourceParam (sourceType : string) (embyKey : option string) : string :=
  match embyKey with
  | Some k =>
      if String.eqb sourceType "emby" && JS.truthy_string k then "emby_" +:+ k
      else sourceType
  | None => sourceType
  end.

End LibraryPage.

(** ** Concrete configurations and inputs *)

Module Examples.
Import EmbyManager.

(** An emby source with the given key, name and flags. *)
Definition mkSource (k n : string) (en : bool) (dflt : option bool) : EmbySourceConfig :=
  {| key := k; name := n; enabled := en;
     ServerURL := "http://" +:+ k +:+ ".example:8096";
     ApiKey := Some "secret"; Username := None; Password := None;
     UserId := None; AuthToken := None; Libraries := None;
     LastSyncTime := None; ItemCount := None; isDefault := dflt;
     removeEmbyPrefix := None; appendMediaSourceId := None;
     transcodeMp4 := None; proxyPlay := None |}.

(** A configuration in the multi-source format. *)
Definition modernConfig (sources : list EmbySourceConfig) : AdminConfig :=
  {| EmbyCfg := Some {| Sources := Some sources; cfg_Enabled := None;
                        cfg_ServerURL := None; cfg_ApiKey := None;
                        cfg_Username := None; cfg_Password := None;
                        cfg_UserId := None; cfg_AuthToken := None;
                        cfg_Libraries := None; cfg_LastSyncTime := None;
                        cfg_ItemCount := None |};
     SiteCfg := {| DisableYellowFilter := true |} |}.

(** The single-source fields of a configuration in the old format. *)
Definition legacyEmby (url : option string) : EmbyConfig :=
  {| Sources := None; cfg_Enabled := Some true;
     cfg_ServerURL := url; cfg_ApiKey := Some "legacy-key";
     cfg_Username := Some "admin"; cfg_Password := Some "pw";
     cfg_UserId := None; cfg_AuthToken := None;
     cfg_Libraries := Some ["movies"]; cfg_LastSyncTime := None;
     cfg_ItemCount := Some 12 |}.

Definition legacyConfig (url : option string) : AdminConfig :=
  {| EmbyCfg := Some (legacyEmby url);
     SiteCfg := {| DisableYellowFilter := false |} |}.

Definition noEmbyConfig : AdminConfig :=
  {| EmbyCfg := None; SiteCfg := {| DisableYellowFilter := false |} |}.

Definition srcA : EmbySourceConfig := mkSource "a" "Attic" true None.
Definition srcB : EmbySourceConfig := mkSource "b" "Basement" true None.
Definition srcA_off : EmbySourceConfig := mkSource "a" "Attic" false None.
Definition srcB_default : EmbySourceConfig := mkSource "b" "Basement" true (Some true).
Definition srcC : EmbySourceConfig := mkSource "c" "Cellar" true None.

(** The manager after a first [getClient('a')] while source [a] is on. *)
Definition managerWithA : Manager :=
  snd (getClient (Some "a") (modernConfig [srcA]) initial).

(** A run of calls with no [clearCache] among them. *)
Definition calls : list Call :=
  [CallGetAllClients (modernConfig [srcA; srcB]);
   CallGetClient (Some "b") (modernConfig [srcB]);
   CallGetClient None (modernConfig [srcA_off]);
   CallGetAllClients (modernConfig [srcC; srcA])].


(** *** A search *)

Definition itemMatrix : Emby.EmbyItem :=
  {| Emby.Id := "101"; Emby.Name := "The Matrix"; Emby.Type_ := "Movie";
     Emby.ProductionYear := Some 1999; Emby.Overview := None;
     Emby.ParentIndexNumber := None; Emby.IndexNumber := None |}.

Definition getImageUrl (c : EmbyClient) (itemId kind : string) : string :=
  ServerURL (client_config c) +:+ "/Items/" +:+ itemId +:+ "/Images/" +:+ kind.

(** Every emby server answers the search with one item. *)
Definition getItemsOk (c : EmbyClient) (query : string) : Async.Task (list Emby.EmbyItem) :=
  Async.Returns [itemMatrix].

(** Server [b] throws, the others answer with one item. *)
Definition getItemsBdown (c : EmbyClient) (query : string)
  : Async.Task (list Emby.EmbyItem) :=
  if String.eqb (key (client_config c)) "b" then Async.Throws
  else Async.Returns [itemMatrix].

Definition siteX : Search.ApiSite :=
  {| Search.site_key := "x"; Search.site_name := "Site X";
     Search.site_api := "https://x.example/api.php/provide/vod" |}.
Definition siteY : Search.ApiSite :=
  {| Search.site_key := "y"; Search.site_name := "Site Y";
     Search.site_api := "https://y.example/api.php/provide/vod" |}.

Definition resultY (tn : option string) : Search.SearchResult :=
  {| Search.id := "7"; Search.source := "y"; Search.source_name := "Site Y";
     Search.title := "The Matrix Reloaded"; Search.poster := "";
     Search.episodes := ["https://y.example/7.m3u8"];
     Search.episodes_titles := ["HD"]; Search.year := "2003";
     Search.desc := ""; Search.type_name := tn; Search.douban_id := 0 |}.

(** Site [x] is still pending when its timer fires, site [y] answers. *)
Definition searchFromApi (site : Search.ApiSite) (query : string)
           (variants : list string) : Async.Task (list Search.SearchResult) :=
  if String.eqb (Search.site_key site) "x" then Async.Pending
  else Async.Returns [resultY (Some "科幻片")].

Definition noSites (user : string) : list Search.ApiSite := [].
Definition twoSites (user : string) : list Search.ApiSite := [siteX; siteY].
Definition generateSearchVariants (query : string) : list string := [query].
Definition yellowWords : list string := ["伦理"; "福利"].

Definition request : Search.Request :=
  {| Search.authInfo := Some {| Search.username := Some "alice" |};
     Search.q := Some "matrix" |}.

(** The result an emby task builds from [itemMatrix]. *)
Definition resultMatrix (tag tagName url : string) : Search.SearchResult :=
  {| Search.id := "101"; Search.source := tag; Search.source_name := tagName;
     Search.title := "The Matrix";
     Search.poster := url +:+ "/Items/101/Images/Primary";
     Search.episodes := []; Search.episodes_titles := []; Search.year := "1999";
     Search.desc := ""; Search.type_name := Some "电影"; Search.douban_id := 0 |}.

(** *** A play request *)

Definition getStreamUrl (c : EmbyClient) (itemId : string) : option string :=
  Some (ServerURL (client_config c) +:+ "/Videos/" +:+ itemId +:+ "/stream").

Definition answer (st : Z) : PlayProxy.Upstream :=
  {| PlayProxy.up_status := st; PlayProxy.content_type := Some "video/mp4";
     PlayProxy.content_length := Some "1024"; PlayProxy.accept_ranges := Some "bytes";
     PlayProxy.content_range := None |}.


(** The server answers 401 to the first fetch and 206 from then on. *)
Definition fetchRecovers (n : nat) (url : string) (range : option string)
  : option PlayProxy.Upstream :=
  Some (answer (if (n =? 0)%nat then 401 else 206)).

Definition freshWorld : PlayProxy.World :=
  {| PlayProxy.mgr := initial; PlayProxy.log := [] |}.

(** *** A series *)

Definition episode (epId : string) (season index : option Z) : Emby.EmbyItem :=
  {| Emby.Id := epId; Emby.Name := "Episode " +:+ epId; Emby.Type_ := "Episode";
     Emby.ProductionYear := None; Emby.Overview := None;
     Emby.ParentIndexNumber := season; Emby.IndexNumber := index |}.

(** An episode whose season index the server does not know, and the first
    special (season 0). *)
Definition epUnknownSeason : Emby.EmbyItem := episode "e5" None (Some 5).
Definition epSpecial : Emby.EmbyItem := episode "e1" (Some 0) (Some 1).

Definition seriesItem : Emby.EmbyItem :=
  {| Emby.Id := "s1"; Emby.Name := "Some Show"; Emby.Type_ := "Series";
     Emby.ProductionYear := Some 2020; Emby.Overview := Some "A show.";
     Emby.ParentIndexNumber := None; Emby.IndexNumber := None |}.

Definition seasonItem : Emby.EmbyItem :=
  {| Emby.Id := "season0"; Emby.Name := "Specials"; Emby.Type_ := "Season";
     Emby.ProductionYear := None; Emby.Overview := None;
     Emby.ParentIndexNumber := None; Emby.IndexNumber := Some 0 |}.

Definition getItem (c : EmbyClient) (itemId : string) : option Emby.EmbyItem :=
  Some seriesItem.
Definition getSeasons (c : EmbyClient) (itemId : string) : option (list Emby.EmbyItem) :=
  Some [seasonItem].
Definition getEpisodes (c : EmbyClient) (itemId seasonId : string)
  : option (list Emby.EmbyItem) :=
  Some [epUnknownSeason; epSpecial].
Definition getSubtitles (c : EmbyClient) (item : Emby.EmbyItem) : list string := [].

(** The server answers 206 to every fetch. *)
Definition fetchOk (n : nat) (url : string) (range : option string)
  : option PlayProxy.Upstream := Some (answer 206).

(** *** The libraries of a server *)

Definition libraryMovies : ViewsRoute.EmbyView :=
  {| ViewsRoute.Id := "v1"; ViewsRoute.Name := "Films";
     ViewsRoute.CollectionType := Some "movies" |}.
Definition libraryMusic : ViewsRoute.EmbyView :=
  {| ViewsRoute.Id := "v2"; ViewsRoute.Name := "Records";
     ViewsRoute.CollectionType := Some "music" |}.
Definition libraryShows : ViewsRoute.EmbyView :=
  {| ViewsRoute.Id := "v3"; ViewsRoute.Name := "Shows";
     ViewsRoute.CollectionType := Some "tvshows" |}.

Definition getUserViews (c : EmbyClient) : string + list ViewsRoute.EmbyView :=
  inr [libraryMovies; libraryMusic; libraryShows].

(** The response built from these libraries. *)
Definition viewsResponse : ViewsRoute.ViewsResponse :=
  {| ViewsRoute.views := [ViewsRoute.viewOut libraryMovies; ViewsRoute.viewOut libraryShows] |}.

(** A cache that holds responses as they are; every response is an object,
    so truthy. *)
Definition storeResponse (r : ViewsRoute.ViewsResponse) : ViewsRoute.ViewsResponse := r.
Definition truthyResponse (r : ViewsRoute.ViewsResponse) : bool := true.

(** *** An import request *)

Definition importRequest : ImportRoute.Request :=
  {| ImportRoute.storageType := Some "redis";
     ImportRoute.username := Some "owner";
     ImportRoute.owner := Some "owner";
     ImportRoute.data := Some (ImportRoute.withSources ImportRoute.emptyEmbyConfig [srcB]) |}.

(** *** A play request after the configuration changed *)



End Examples.

(** * Properties *)

(** ** The source registry *)

Section RegistryFacts.
Import EmbyManager.

Lemma getSources_modern config sources :
  modernShape config sources -> getSources config = sources.
Proof.
  intros (ec & Hec & Hs). unfold getSources. now rewrite Hec, Hs.
Qed.

Lemma getSources_legacy config ec url :
  legacyShape config ec url -> getSources config = [legacySource ec url].
Proof.
  intros (Hec & Hs & Hu & Hne). unfold getSources. rewrite Hec, Hs, Hu.
  destruct url; [congruence | reflexivity].
Qed.

Lemma getSources_neither config :
  neitherShape config -> getSources config = [].
Proof.
  intros H. unfold getSources.
  destruct (EmbyCfg config) as [ec|] eqn:Hec; [|reflexivity].
  destruct (H ec Hec) as [-> [-> | ->]]; reflexivity.
Qed.

(** Every configuration has one of the three shapes. *)
Lemma shape_cases config :
  (exists sources, modernShape config sources) \/
  (exists ec url, legacyShape config ec url) \/
  neitherShape config.
Proof.
  destruct (EmbyCfg config) as [ec|] eqn:Hec.
  - destruct (Sources ec) as [l|] eqn:Hs.
    + left. exists l, ec. auto.
    + destruct (cfg_ServerURL ec) as [url|] eqn:Hu.
      * destruct (string_dec url "") as [->|Hne].
        -- right; right. intros ec' He. rewrite Hec in He.
           injection He as <-. auto.
        -- right; left. exists ec, url. repeat split; auto.
      * right; right. intros ec' He. rewrite Hec in He.
        injection He as <-. auto.
  - right; right. intros ec' He. congruence.
Qed.

Lemma legacySource_fields ec url :
  let s := legacySource ec url in
  key s = "default" /\ name s = "Emby" /\ isDefault s = Some true /\
  enabled s = JS.nullish (cfg_Enabled ec) false /\
  ServerURL s = url /\ ApiKey s = cfg_ApiKey ec /\
  Username s = cfg_Username ec /\ Password s = cfg_Password ec /\
  UserId s = cfg_UserId ec /\ AuthToken s = cfg_AuthToken ec /\
  Libraries s = cfg_Libraries ec.
Proof. cbn. repeat split. Qed.

(** C7.  [getSources] accepts both persisted formats: a configuration
    holding a [Sources] array yields that array as it is; one holding only
    the single-source fields (a non-empty [ServerURL]) yields exactly one
    source, keyed ['default'], carrying the legacy connection fields, with
    [isDefault = true]; a configuration holding neither yields the empty
    list. *)
Theorem getSources_dual_format (config : AdminConfig) :
  (forall sources, modernShape config sources -> getSources config = sources) /\
  (forall ec url, legacyShape config ec url ->
     exists s, getSources config = [s] /\
       isDefault s = Some true /\ key s = "default" /\
       enabled s = JS.nullish (cfg_Enabled ec) false /\
       ServerURL s = url /\ ApiKey s = cfg_ApiKey ec /\
       Username s = cfg_Username ec /\ Password s = cfg_Password ec /\
       UserId s = cfg_UserId ec /\ AuthToken s = cfg_AuthToken ec /\
       Libraries s = cfg_Libraries ec) /\
  (neitherShape config -> getSources config = []).
Proof.
  split; [|split].
  - apply getSources_modern.
  - intros ec url H. exists (legacySource ec url). split.
    + now apply getSources_legacy.
    + cbn. repeat split.
  - apply getSources_neither.
Qed.

Lemma getSources_dual_format_witness :
  getSources (Examples.modernConfig [Examples.srcA; Examples.srcB_default])
    = [Examples.srcA; Examples.srcB_default] /\
  (exists s, getSources (Examples.legacyConfig (Some "http://emby.lan")) = [s] /\
     isDefault s = Some true /\ ServerURL s = "http://emby.lan" /\
     ApiKey s = Some "legacy-key") /\
  getSources Examples.noEmbyConfig = [] /\
  getSources (Examples.legacyConfig (Some "")) = [].
Proof.
  split; [|split; [|split]].
  - apply (proj1 (getSources_dual_format _)).
    eexists. split; reflexivity.
  - destruct (proj1 (proj2 (getSources_dual_format
               (Examples.legacyConfig (Some "http://emby.lan"))))
               (Examples.legacyEmby (Some "http://emby.lan")) "http://emby.lan")
      as (s & Hs & Hd & _ & _ & Hu & Hk & _).
    + repeat split; try reflexivity. discriminate.
    + exists s. rewrite Hk. auto.
  - apply (proj2 (proj2 (getSources_dual_format _))).
    intros ec H. discriminate H.
  - apply (proj2 (proj2 (getSources_dual_format _))).
    intros ec H. injection H as <-. split; [reflexivity | right; reflexivity].
Defined.

(** What [migrateEmbyConfig] stores lists the same sources, up to the
    advanced streaming options it initialises. *)
Lemma getSources_migrate config :
  Forall2 sameConnection (getSources (migrateEmbyConfig config)) (getSources config).
Proof.
  assert (Hrefl : forall l, Forall2 sameConnection l l).
  { induction l; constructor; auto. unfold sameConnection. repeat split. }
  unfold migrateEmbyConfig.
  destruct (EmbyCfg config) as [ec|] eqn:Hec; [|apply Hrefl].
  destruct (Sources ec) as [l|] eqn:Hs; [apply Hrefl|].
  destruct (cfg_ServerURL ec) as [url|] eqn:Hu; [|apply Hrefl].
  destruct (JS.truthy_string url) eqn:Ht; [|apply Hrefl].
  unfold getSources at 2. rewrite Hec, Hs, Hu, Ht. cbn.
  repeat constructor; cbn. now rewrite Ht.
Qed.

(** *** [getClient] *)

Lemma find_firstWith {A} (p : A -> bool) l x :
  JS.find p l = Some x <-> JS.firstWith p l x.
Proof.
  unfold JS.find, JS.firstWith. split.
  - induction l as [|y l IH]; cbn; [discriminate|].
    destruct (p y) eqn:Hy.
    + intros [= ->]. exists [], l. auto.
    + intros H. destruct (IH H) as (pre & post & -> & Hpre & Hx).
      exists (y :: pre), post. auto.
  - intros (pre & post & -> & Hpre & Hx).
    induction Hpre as [|y pre Hy _ IH]; cbn.
    + now rewrite Hx.
    + now rewrite Hy.
Qed.

Lemma find_none {A} (p : A -> bool) l :
  JS.find p l = None <-> Forall (fun y => p y = false) l.
Proof.
  unfold JS.find. induction l as [|y l IH]; cbn.
  - split; auto.
  - destruct (p y) eqn:Hy; split.
    + discriminate.
    + intros H. inversion H; congruence.
    + intros H. constructor; [assumption | now apply IH].
    + intros H. inversion H. now apply IH.
Qed.

Lemma keyOmitted_false k :
  keyOmitted k = false <-> exists s, k = Some s /\ s <> "".
Proof.
  destruct k as [[|a t]|]; cbn; split; intros H; try discriminate;
    try (destruct H as (s & Hs & Hne); congruence).
  eexists. split; [reflexivity | discriminate].
Qed.

(** The key [getClient] works with. *)
Lemma resolveKey_spec k s0 sources :
  (forall s, k = Some s -> s <> "" -> resolveKey k s0 sources = s) /\
  (keyOmitted k = true ->
     (forall d, JS.firstWith (fun s => JS.truthy_flag (isDefault s)) sources d ->
        resolveKey k s0 sources = key d) /\
     (Forall (fun s => JS.truthy_flag (isDefault s) = false) sources ->
        resolveKey k s0 sources = key s0)).
Proof.
  unfold resolveKey. split.
  - intros s -> Hs. destruct s; [congruence | reflexivity].
  - intros ->. split.
    + intros d Hd. apply find_firstWith in Hd. now rewrite Hd.
    + intros Hn. apply find_none in Hn. now rewrite Hn.
Qed.

(** C2, as the code has it.  With no source configured [getClient] throws
    the not-configured error.  Otherwise it works with a key: the given one
    when it is non-empty, else that of the first source marked
    [isDefault], else that of the first source (enabled or not).  A client
    cached under that key is returned as it is, whatever the configuration
    now says about the source.  With none cached, it throws the not-found
    error when no source has the key and the disabled error when the first
    source with the key is switched off; otherwise it constructs a client
    from that source, caches it under the key and returns it. *)
Theorem getClient_resolution (k : option string) (config : AdminConfig) (m : Manager) :
  (getSources config = [] -> getClient k config m = (Throw NotConfigured, m)) /\
  (forall s0 rest, getSources config = s0 :: rest ->
     exists k',
       (forall s, k = Some s -> s <> "" -> k' = s) /\
       (keyOmitted k = true ->
          (forall d, JS.firstWith (fun s => JS.truthy_flag (isDefault s)) (s0 :: rest) d ->
             k' = key d) /\
          (Forall (fun s => JS.truthy_flag (isDefault s) = false) (s0 :: rest) ->
             k' = key s0)) /\
       (forall c, clients m !! k' = Some c -> getClient k config m = (Ok c, m)) /\
       (clients m !! k' = None ->
          (Forall (fun s => key s <> k') (s0 :: rest) ->
             getClient k config m = (Throw (NotFound k'), m)) /\
          (forall sc, JS.firstWith (fun s => String.eqb (key s) k') (s0 :: rest) sc ->
             (enabled sc = false ->
                getClient k config m = (Throw (Disabled (name sc)), m)) /\
             (enabled sc = true ->
                exists c m',
                  getClient k config m = (Ok c, m') /\
                  client_config c = sc /\
                  clients m' = <[k' := c]> (clients m) /\
                  constructed m' = constructed m ++ [c])))).
Proof.
  split.
  - intros H. unfold getClient. now rewrite H.
  - intros s0 rest Hsrc.
    exists (resolveKey k s0 (s0 :: rest)).
    destruct (resolveKey_spec k s0 (s0 :: rest)) as [Hk Ho].
    split; [exact Hk | split; [exact Ho |]].
    unfold getClient. rewrite Hsrc. cbv zeta.
    set (k' := resolveKey k s0 (s0 :: rest)).
    split.
    + intros c Hc. now rewrite Hc.
    + intros Hnone. rewrite Hnone. split.
      * intros Hall.
        assert (Hf : JS.find (fun s => String.eqb (key s) k') (s0 :: rest) = None).
        { apply find_none. eapply Forall_impl; [exact Hall|].
          intros s Hs. cbn beta. now apply String.eqb_neq. }
        now rewrite Hf.
      * intros sc Hsc. apply find_firstWith in Hsc. rewrite Hsc. split.
        -- intros ->. reflexivity.
        -- intros ->. eexists _, _. split; [reflexivity|]. cbn. auto.
Qed.

Lemma getClient_resolution_witness :
  getClient None Examples.noEmbyConfig initial = (Throw NotConfigured, initial) /\
  getClient None (Examples.modernConfig [Examples.srcA_off; Examples.srcB]) initial
    = (Throw (Disabled "Attic"), initial) /\
  getClient (Some "a") (Examples.modernConfig [Examples.srcA_off]) Examples.managerWithA
    = (Ok {| client_id := 0; client_config := Examples.srcA |}, Examples.managerWithA).
Proof.
  split; [|split].
  - apply (proj1 (getClient_resolution None Examples.noEmbyConfig initial)).
    reflexivity.
  - destruct (proj2 (getClient_resolution None
                (Examples.modernConfig [Examples.srcA_off; Examples.srcB]) initial)
                Examples.srcA_off [Examples.srcB] eq_refl)
      as (k' & _ & Ho & _ & Hn).
    destruct (Ho eq_refl) as [_ Hk'].
    assert (k' = "a") as -> by (apply Hk'; repeat constructor).
    destruct (Hn eq_refl) as [_ Hsc].
    destruct (Hsc Examples.srcA_off) as [Hoff _].
    + exists [], [Examples.srcB]. repeat split. constructor.
    + apply Hoff. reflexivity.
  - destruct (proj2 (getClient_resolution (Some "a")
                (Examples.modernConfig [Examples.srcA_off]) Examples.managerWithA)
                Examples.srcA_off [] eq_refl)
      as (k' & Hk & _ & Hc & _).
    assert (k' = "a") as -> by (apply Hk; [reflexivity | discriminate]).
    apply Hc. vm_compute. reflexivity.
Defined.

(** C2: where the code departs from the wording.  With the key omitted,
    no source marked default and a disabled source listed first, the code
    throws the disabled error where the wording selects the first enabled
    source; and a client cached while its source was enabled is returned
    after the source has been disabled, where the wording has the call
    fail. *)
Lemma getClient_differs_from_spec :
  (getClient None (Examples.modernConfig [Examples.srcA_off; Examples.srcB]) initial
     = (Throw (Disabled "Attic"), initial) /\
   fst (spec_resolveHandle None
          (Examples.modernConfig [Examples.srcA_off; Examples.srcB]) initial)
     = Ok {| client_id := 0; client_config := Examples.srcB |}) /\
  (getClient (Some "a") (Examples.modernConfig [Examples.srcA_off]) Examples.managerWithA
     = (Ok {| client_id := 0; client_config := Examples.srcA |}, Examples.managerWithA) /\
   spec_resolveHandle (Some "a") (Examples.modernConfig [Examples.srcA_off])
     Examples.managerWithA
     = (Throw (Disabled "Attic"), Examples.managerWithA)).
Proof.
  repeat split; vm_compute; reflexivity.
Qed.

(** Where the code and the wording agree: when a default is marked or the
    first source is enabled, and every cached key belongs to an enabled
    source. *)
Lemma getClient_agrees_with_spec k cfg m s0 rest :
  getSources cfg = s0 :: rest ->
  (JS.find (fun s => JS.truthy_flag (isDefault s)) (s0 :: rest) <> None \/
   enabled s0 = true) ->
  (forall k' c, clients m !! k' = Some c ->
     exists sc, JS.find (fun s => String.eqb (key s) k') (s0 :: rest) = Some sc /\
                enabled sc = true) ->
  getClient k cfg m = spec_resolveHandle k cfg m.
Proof.
  intros Hsrc Hdef Hcache. unfold getClient, spec_resolveHandle. rewrite Hsrc. cbv zeta.
  assert (Hk : resolveKey k s0 (s0 :: rest) = spec_resolveKey k s0 (s0 :: rest)).
  { unfold resolveKey, spec_resolveKey. destruct (keyOmitted k); [|reflexivity].
    destruct (JS.find (fun s => JS.truthy_flag (isDefault s)) (s0 :: rest)) as [d|];
      [reflexivity|].
    destruct Hdef as [Hd|Hen]; [congruence|].
    cbn. now rewrite Hen. }
  rewrite <- Hk. set (k' := resolveKey k s0 (s0 :: rest)).
  destruct (clients m !! k') as [c|] eqn:Hc.
  - destruct (Hcache k' c Hc) as (sc & -> & ->). reflexivity.
  - destruct (JS.find _ (s0 :: rest)) as [sc|]; [|reflexivity].
    now destruct (enabled sc).
Qed.

(** *** The handle cache *)

Lemma grows_refl m : grows m m [].
Proof.
  unfold grows. rewrite app_nil_r.
  split; [reflexivity | split; [constructor | split; [|auto]]].
  intros c Hc. inversion Hc.
Qed.

Lemma grows_trans m1 m2 m3 new1 new2 :
  grows m1 m2 new1 -> grows m2 m3 new2 -> grows m1 m3 (new1 ++ new2).
Proof.
  intros (Hc1 & Hnd1 & Hn1 & Hk1) (Hc2 & Hnd2 & Hn2 & Hk2).
  unfold grows. split; [|split; [|split]].
  - now rewrite Hc2, Hc1, app_assoc.
  - rewrite map_app. apply NoDup_app. split; [exact Hnd1 | split; [|exact Hnd2]].
    intros k Hin1 Hin2.
    apply list_elem_of_fmap in Hin1 as (c1 & -> & Hc1in).
    apply list_elem_of_fmap in Hin2 as (c2 & Heq & Hc2in).
    destruct (Hn1 c1 Hc1in) as [_ Hs]. destruct (Hn2 c2 Hc2in) as [Hnone _].
    rewrite <- Heq in Hnone. congruence.
  - intros c H. apply elem_of_app in H as [H|H].
    + split; [now apply Hn1 | apply Hk2; now apply Hn1].
    + destruct (Hn2 c H) as [Hnone Hsome]. split; [|exact Hsome].
      destruct (clients m1 !! clientKey c) as [c'|] eqn:E; [|reflexivity].
      apply Hk1 in E. congruence.
  - intros k c H. apply Hk2, Hk1, H.
Qed.

Lemma grows_construct m sc :
  clients m !! key sc = None ->
  grows m (construct (key sc) sc m) [newEmbyClient sc m].
Proof.
  intros Hnone. unfold grows, construct. cbn.
  split; [reflexivity | split; [|split]].
  - apply NoDup_singleton.
  - intros c H. apply list_elem_of_singleton in H as ->.
    split; [exact Hnone | apply lookup_insert_eq].
  - intros k c Hk. rewrite lookup_insert_ne; [exact Hk | congruence].
Qed.

(** [getClient] either leaves the manager as it is, or constructs one client
    for a key that had none. *)
Lemma getClient_grows k cfg m :
  exists new, grows m (snd (getClient k cfg m)) new.
Proof.
  unfold getClient. destruct (getSources cfg) as [|s0 rest].
  { exists []. apply grows_refl. }
  cbv zeta. set (k' := resolveKey k s0 (s0 :: rest)).
  destruct (clients m !! k') as [c|] eqn:Hc.
  { exists []. apply grows_refl. }
  destruct (JS.find _ _) as [sc|] eqn:Hf.
  2:{ exists []. apply grows_refl. }
  destruct (enabled sc).
  2:{ exists []. apply grows_refl. }
  apply find_firstWith in Hf as (pre & post & _ & _ & Hkey).
  apply String.eqb_eq in Hkey. cbn [snd]. rewrite <- Hkey in *.
  eexists. now apply grows_construct.
Qed.

Lemma getAllClients_step_grows m result source :
  exists new, grows m (fst (getAllClients_step (m, result) source)) new.
Proof.
  unfold getAllClients_step.
  destruct (clients m !! key source) as [c|] eqn:Hc.
  - rewrite Hc. exists []. apply grows_refl.
  - exists [newEmbyClient source m].
    destruct (clients (construct (key source) source m) !! key source);
      now apply grows_construct.
Qed.

Lemma getAllClients_loop_grows sources m result :
  exists new, grows m (fst (fold_left getAllClients_step sources (m, result))) new.
Proof.
  revert m result. induction sources as [|s sources IH]; intros m result; cbn [fold_left].
  - exists []. apply grows_refl.
  - destruct (getAllClients_step_grows m result s) as (new1 & H1).
    destruct (getAllClients_step (m, result) s) as [m1 result1] eqn:E.
    destruct (IH m1 result1) as (new2 & H2).
    exists (new1 ++ new2). eapply grows_trans; eauto.
Qed.

Lemma getAllClients_grows cfg m :
  exists new, grows m (snd (getAllClients cfg m)) new.
Proof.
  unfold getAllClients.
  destruct (getAllClients_loop_grows (getEnabledSources cfg) m []) as (new & H).
  destruct (fold_left _ _ _) as [m' result]. now exists new.
Qed.

Lemma run_grows cs m :
  clearFree cs -> exists new, grows m (run cs m) new.
Proof.
  unfold run. intros Hcf. revert m.
  induction Hcf as [|c cs Hc _ IH]; intros m; cbn [fold_left].
  - exists []. apply grows_refl.
  - assert (exists new1, grows m (call m c) new1) as (new1 & H1).
    { destruct c; cbn [call]; [apply getClient_grows | apply getAllClients_grows |
                               discriminate Hc]. }
    destruct (IH (call m c)) as (new2 & H2).
    exists (new1 ++ new2). eapply grows_trans; eauto.
Qed.

Lemma getClient_cached k c cfg m :
  clients m !! k = Some c -> k <> "" -> getSources cfg <> [] ->
  getClient (Some k) cfg m = (Ok c, m).
Proof.
  intros Hc Hk Hsrc. unfold getClient.
  destruct (getSources cfg) as [|s0 rest]; [congruence|]. cbv zeta.
  destruct (resolveKey_spec (Some k) s0 (s0 :: rest)) as [Hr _].
  rewrite (Hr k eq_refl Hk), Hc. reflexivity.
Qed.

(** A handle [getClient] returns is the one cached under the key it worked
    with: it was there before, or it has just been constructed. *)
Lemma getClient_returns_cached k cfg m c m' :
  getClient k cfg m = (Ok c, m') ->
  exists k', clients m' !! k' = Some c /\
    (forall s, k = Some s -> s <> "" -> k' = s) /\
    ((clients m !! k' = Some c /\ m' = m) \/
     (clients m !! k' = None /\ constructed m' = constructed m ++ [c] /\
      client_id c = length (constructed m))).
Proof.
  unfold getClient. destruct (getSources cfg) as [|s0 rest]; [discriminate|].
  cbv zeta. destruct (resolveKey_spec k s0 (s0 :: rest)) as [Hr _].
  set (k' := resolveKey k s0 (s0 :: rest)) in *.
  destruct (clients m !! k') as [c0|] eqn:Hc.
  - intros [= <- <-]. exists k'. auto.
  - destruct (JS.find _ _) as [sc|]; [|discriminate].
    destruct (enabled sc); [|discriminate].
    intros [= <- <-]. exists k'. split; [apply lookup_insert_eq|].
    split; [exact Hr|]. right. auto.
Qed.

Lemma map_set_elem {V} k (v : V) l x :
  x ∈ JS.map_set k v l -> x = (k, v) \/ x ∈ l.
Proof.
  induction l as [|[k0 v0] l IH]; cbn.
  - intros H. apply list_elem_of_singleton in H. auto.
  - destruct (String.eqb k0 k).
    + intros H. apply elem_of_cons in H as [H|H]; [auto|].
      right. now apply elem_of_cons; right.
    + intros H. apply elem_of_cons in H as [H|H].
      * right. apply elem_of_cons. auto.
      * destruct (IH H) as [?|?]; [auto|]. right. apply elem_of_cons. auto.
Qed.

Lemma getAllClients_step_entries acc source :
  enabled source = true -> entriesCached acc ->
  entriesCached (getAllClients_step acc source).
Proof.
  destruct acc as [m result]. intros Hen Hinv.
  destruct (getAllClients_step_grows m result source) as (new & _ & _ & _ & Hkeep).
  unfold getAllClients_step in *.
  set (m' := match clients m !! key source with
             | Some _ => m
             | None => construct (key source) source m
             end) in *.
  destruct (clients m' !! key source) as [c|] eqn:Hc; cbn [fst snd] in *.
  - intros k e Hin. cbn [fst snd] in *.
    apply map_set_elem in Hin as [[= -> ->] | Hin].
    + cbn. auto.
    + destruct (Hinv k e Hin) as (H1 & H2 & H3). auto.
  - intros k e Hin. cbn [fst snd] in *.
    destruct (Hinv k e Hin) as (H1 & H2 & H3). auto.
Qed.

Lemma getAllClients_loop_entries sources acc :
  Forall (fun s => enabled s = true) sources -> entriesCached acc ->
  entriesCached (fold_left getAllClients_step sources acc).
Proof.
  intros Hen. revert acc.
  induction Hen as [|s sources Hs _ IH]; intros acc Hinv; cbn [fold_left].
  - exact Hinv.
  - apply IH. now apply getAllClients_step_entries.
Qed.

(** Each entry [getAllClients] returns holds the client cached under its
    key. *)
Lemma getAllClients_entries cfg m k e :
  (k, e) ∈ fst (getAllClients cfg m) ->
  clients (snd (getAllClients cfg m)) !! k = Some (client e) /\
  key (config e) = k /\ enabled (config e) = true.
Proof.
  unfold getAllClients.
  pose proof (getAllClients_loop_entries (getEnabledSources cfg) (m, [])) as H.
  destruct (fold_left _ _ _) as [m' result]. cbn [fst snd].
  intros Hin. apply H; [| |exact Hin].
  - unfold getEnabledSources. apply Forall_forall.
    intros s Hs. apply list_elem_of_In, filter_In in Hs. tauto.
  - intros k0 e0 H0. inversion H0.
Qed.

Lemma clearCache_empty m : clients (clearCache m) = ∅.
Proof. reflexivity. Qed.

(** After [clearCache] a successful resolution constructs its client. *)
Lemma getClient_after_clear k cfg m c m' :
  getClient k cfg (clearCache m) = (Ok c, m') ->
  constructed m' = constructed m ++ [c] /\ client_id c = length (constructed m).
Proof.
  intros H. apply getClient_returns_cached in H as (k' & _ & _ & [[H _]|H]).
  - rewrite clearCache_empty, lookup_empty in H. discriminate.
  - cbn in H. tauto.
Qed.

(** The run above constructs a client for [b] and one for [c], and none for
    [a], which had one. *)
Example calls_construct :
  map clientKey (constructedBy Examples.calls Examples.managerWithA) = ["b"; "c"].
Proof. vm_compute. reflexivity. Qed.

(** Clients are told apart by the index they carry: in a manager reached from
    the initial one, no two constructed clients share it. *)
Lemma construct_idsOk k sc m : idsOk m -> idsOk (construct k sc m).
Proof.
  intros H i c. unfold construct. cbn.
  destruct (decide (i < length (constructed m))%nat) as [Hlt|Hge].
  - rewrite lookup_app_l by exact Hlt. apply H.
  - rewrite lookup_app_r by lia.
    destruct (i - length (constructed m))%nat as [|n] eqn:E; cbn; [|discriminate].
    intros [= <-]. cbn. lia.
Qed.

Lemma getClient_idsOk k cfg m : idsOk m -> idsOk (snd (getClient k cfg m)).
Proof.
  intros H. unfold getClient.
  destruct (getSources cfg) as [|s0 rest]; [exact H|]. cbv zeta.
  destruct (clients m !! _); [exact H|].
  destruct (JS.find _ _) as [sc|]; [|exact H].
  destruct (enabled sc); [|exact H]. now apply construct_idsOk.
Qed.

Lemma getAllClients_idsOk cfg m : idsOk m -> idsOk (snd (getAllClients cfg m)).
Proof.
  unfold getAllClients.
  assert (Hloop : forall sources acc,
             idsOk acc.1 -> idsOk (fold_left getAllClients_step sources acc).1).
  { induction sources as [|s sources IH]; intros acc Hacc; cbn [fold_left]; [exact Hacc|].
    apply IH. destruct acc as [m0 r0]. unfold getAllClients_step. cbn [fst] in *.
    destruct (clients m0 !! key s) as [c|] eqn:Hc.
    - rewrite Hc. exact Hacc.
    - destruct (clients (construct (key s) s m0) !! key s); cbn [fst];
        now apply construct_idsOk. }
  intros H. specialize (Hloop (getEnabledSources cfg) (m, []) H).
  destruct (fold_left _ _ _) as [m' result]. exact Hloop.
Qed.

Lemma run_idsOk cs m : idsOk m -> idsOk (run cs m).
Proof.
  unfold run. revert m. induction cs as [|c cs IH]; intros m H; cbn [fold_left]; [exact H|].
  apply IH. destruct c; cbn [call].
  - now apply getClient_idsOk.
  - now apply getAllClients_idsOk.
  - exact H.
Qed.

Lemma reachable_ids_distinct cs i j c :
  constructed (run cs initial) !! i = Some c ->
  constructed (run cs initial) !! j = Some c -> i = j.
Proof.
  assert (H : idsOk (run cs initial)).
  { apply run_idsOk. intros n c0 Hn. cbn in Hn. rewrite lookup_nil in Hn. discriminate. }
  intros Hi Hj. apply H in Hi, Hj. congruence.
Qed.

End RegistryFacts.

(** ** The list cache *)

Section CacheFacts.
Import EmbyCache.
Context {T : Type}.
Implicit Types (cache : gmap string (EmbyCachedEntry T)) (d : T).

Lemma setCachedEmbyList_lookup now page pageSize d parentId embyKey cache :
  setCachedEmbyList now page pageSize d parentId embyKey cache
    !! makeListCacheKey page pageSize parentId embyKey
  = Some {| expiresAt := now + EMBY_CACHE_TTL_MS; data := d |}.
Proof. unfold setCachedEmbyList. apply lookup_insert_eq. Qed.

Lemma getCachedEmbyList_fresh now page pageSize parentId embyKey cache e :
  cache !! makeListCacheKey page pageSize parentId embyKey = Some e ->
  now < expiresAt e ->
  getCachedEmbyList now page pageSize parentId embyKey cache = (Some (data e), cache).
Proof.
  intros He Hlt. unfold getCachedEmbyList. rewrite He.
  destruct (expiresAt e <=? now) eqn:E; [apply Z.leb_le in E; lia | reflexivity].
Qed.

Lemma getCachedEmbyList_expired now page pageSize parentId embyKey cache e :
  cache !! makeListCacheKey page pageSize parentId embyKey = Some e ->
  expiresAt e <= now ->
  getCachedEmbyList now page pageSize parentId embyKey cache
  = (None, delete (makeListCacheKey page pageSize parentId embyKey) cache).
Proof.
  intros He Hle. unfold getCachedEmbyList. rewrite He.
  destruct (expiresAt e <=? now) eqn:E; [reflexivity | apply Z.leb_gt in E; lia].
Qed.

Lemma getCachedEmbyList_absent now page pageSize parentId embyKey cache :
  cache !! makeListCacheKey page pageSize parentId embyKey = None ->
  getCachedEmbyList now page pageSize parentId embyKey cache = (None, cache).
Proof. intros He. unfold getCachedEmbyList. now rewrite He. Qed.

(** A read touches no other key. *)
Lemma getCachedEmbyList_other now page pageSize parentId embyKey cache k :
  k <> makeListCacheKey page pageSize parentId embyKey ->
  (getCachedEmbyList now page pageSize parentId embyKey cache).2 !! k = cache !! k.
Proof.
  intros Hk. unfold getCachedEmbyList.
  destruct (cache !! _) as [e|]; [|reflexivity].
  destruct (expiresAt e <=? now); [|reflexivity].
  cbn. now rewrite lookup_delete_ne.
Qed.

(** C6.  After [setCachedEmbyList] has stored [d] at time [setTime], a
    [getCachedEmbyList] for the same page, page size, parent and emby key
    returns [d], and leaves the cache alone, at every read time strictly
    before [setTime + EMBY_CACHE_TTL_MS]; at every read time at or after it,
    it returns [null] and deletes the entry, so that the key is absent from
    the map afterwards. *)
Theorem list_cache_expiry (setTime readTime page pageSize : Z) d
        (parentId embyKey : option string) cache :
  let stored := setCachedEmbyList setTime page pageSize d parentId embyKey cache in
  let key := makeListCacheKey page pageSize parentId embyKey in
  (readTime < setTime + EMBY_CACHE_TTL_MS ->
     getCachedEmbyList readTime page pageSize parentId embyKey stored
     = (Some d, stored)) /\
  (setTime + EMBY_CACHE_TTL_MS <= readTime ->
     getCachedEmbyList readTime page pageSize parentId embyKey stored
     = (None, delete key stored) /\
     delete key stored !! key = None /\
     forall later,
       getCachedEmbyList later page pageSize parentId embyKey (delete key stored)
       = (None, delete key stored)).
Proof.
  intros stored key.
  pose proof (setCachedEmbyList_lookup setTime page pageSize d parentId embyKey cache)
    as Hst. fold stored key in Hst.
  split.
  - intros Hlt.
    apply (getCachedEmbyList_fresh _ _ _ _ _ _ _ Hst). exact Hlt.
  - intros Hle. split; [|split].
    + apply (getCachedEmbyList_expired _ _ _ _ _ _ _ Hst). exact Hle.
    + apply lookup_delete_eq.
    + intros later. apply getCachedEmbyList_absent. apply lookup_delete_eq.
Qed.

End CacheFacts.

Lemma list_cache_expiry_witness :
  let stored := EmbyCache.setCachedEmbyList 1000 1 20 "page-one" (Some "lib") (Some "a") ∅ in
  EmbyCache.getCachedEmbyList 21600999 1 20 (Some "lib") (Some "a") stored
    = (Some "page-one", stored) /\
  EmbyCache.getCachedEmbyList 21601000 1 20 (Some "lib") (Some "a") stored
    = (None, delete "emby:a:list:1:20:lib" stored).
Proof.
  destruct (list_cache_expiry 1000 21600999 1 20 "page-one" (Some "lib") (Some "a") ∅)
    as [Hfresh _].
  destruct (list_cache_expiry 1000 21601000 1 20 "page-one" (Some "lib") (Some "a") ∅)
    as [_ Hexp].
  split.
  - apply Hfresh. vm_compute. reflexivity.
  - apply Hexp. vm_compute. discriminate.
Defined.

Example makeListCacheKey_forms :
  EmbyCache.makeListCacheKey 2 50 None None = "emby:list:2:50" /\
  EmbyCache.makeListCacheKey 2 50 (Some "") (Some "") = "emby:list:2:50" /\
  EmbyCache.makeListCacheKey 2 50 (Some "p7") (Some "home") = "emby:home:list:2:50:p7".
Proof. repeat split. Qed.

(** ** Strings *)

Lemma prefix_occurs (w s : string) :
  String.prefix w s = true <-> exists post, s = w +:+ post.
Proof.
  revert s. induction w as [|a w IH]; intros s.
  - split; [intros _; now exists s | intros _; now destruct s].
  - destruct s as [|b s]; cbn.
    + split; [discriminate | intros (post & H); discriminate].
    + destruct (Ascii.ascii_dec a b) as [->|Hne].
      * rewrite IH. split; intros (post & H); exists post.
        -- now rewrite H.
        -- now injection H.
      * split; [discriminate|]. intros (post & H). injection H. congruence.
Qed.

(** [includes] decides occurrence. *)
Lemma includes_spec (s w : string) :
  JS.includes s w = true <-> JS.occursIn w s.
Proof.
  unfold JS.occursIn. induction s as [|a s IH]; cbn [JS.includes].
  - rewrite orb_false_r, prefix_occurs. split.
    + intros (post & H). now exists "", post.
    + intros (pre & post & H). destruct pre; [|discriminate]. now exists post.
  - rewrite orb_true_iff, prefix_occurs, IH. split.
    + intros [(post & H) | (pre & post & H)].
      * now exists "", post.
      * exists (String a pre), post. cbn. now rewrite H.
    + intros (pre & post & H). destruct pre as [|b pre].
      * left. now exists post.
      * right. injection H as _ H. now exists pre, post.
Qed.

Example includes_examples :
  JS.includes "伦理片" "伦理" = true /\ JS.includes "电影" "伦理" = false /\
  JS.includes "" "" = true /\ JS.includes "abc" "bd" = false.
Proof. repeat split. Qed.

(** ** The search fan-out *)

Section SearchFacts.
Import EmbyManager Emby Async Search.

Variable getAvailableApiSites : string -> list ApiSite.
Variable generateSearchVariants : string -> list string.
Variable searchFromApi : ApiSite -> string -> list string -> Task (list SearchResult).
Variable getItems : EmbyClient -> string -> Task (list EmbyItem).
Variable getImageUrl : EmbyClient -> string -> string -> string.
Variable yellowWords : list string.

Local Abbreviation GET :=
  (GET getAvailableApiSites generateSearchVariants searchFromApi getItems getImageUrl
       yellowWords).
Local Abbreviation siteContribution := (siteContribution generateSearchVariants searchFromApi).
Local Abbreviation embyContribution := (embyContribution getItems getImageUrl).
Local Abbreviation yellowFilter := (yellowFilter yellowWords).
Local Abbreviation notYellow := (notYellow yellowWords).

(** *** The yellow filter *)

Lemma notYellow_spec r :
  notYellow r = true <->
  forall word, word ∈ yellowWords -> ~ JS.occursIn word (typeName r).
Proof.
  unfold Search.notYellow, JS.some. rewrite negb_true_iff.
  split.
  - intros H word Hin Hocc. apply includes_spec in Hocc.
    assert (existsb (fun w => JS.includes (typeName r) w) yellowWords = true);
      [|congruence].
    apply existsb_exists. exists word. split; [now apply list_elem_of_In | exact Hocc].
  - intros H. destruct (existsb _ _) eqn:E; [|reflexivity].
    apply existsb_exists in E as (word & Hin & Hinc).
    exfalso. apply (H word); [now apply list_elem_of_In | now apply includes_spec].
Qed.

Lemma filter_sublist {A} (p : A -> bool) (l : list A) : sublist (List.filter p l) l.
Proof.
  induction l as [|x l IH]; cbn; [constructor|].
  destruct (p x); now constructor.
Qed.

Lemma filter_Permutation {A} (p : A -> bool) (l l' : list A) :
  l ≡ₚ l' -> List.filter p l ≡ₚ List.filter p l'.
Proof.
  induction 1 as [|x l l' _ IH|x y l|l1 l2 l3 _ IH1 _ IH2]; cbn.
  - constructor.
  - destruct (p x); [now constructor | exact IH].
  - destruct (p x), (p y); try reflexivity. apply perm_swap.
  - now transitivity (List.filter p l2).
Qed.

(** C9.  Unless [DisableYellowFilter] is set, a result is in the filtered
    list exactly when it is in the flattened list and no blacklisted word
    occurs in its [type_name] (taken as empty when missing).  The filtered
    list is a sublist of the flattened one, so survivors come out as they
    went in and in the same relative order.  Whether a result survives is a
    matter of that result alone: the filter distributes over any split of
    the list around it, and permuting the input permutes the output.  With
    [DisableYellowFilter] set the list is returned as it is. *)
Theorem yellow_filter_pure (config : AdminConfig) (flattenedResults : list SearchResult) :
  (DisableYellowFilter (SiteCfg config) = false ->
     (forall r, r ∈ yellowFilter config flattenedResults <->
                r ∈ flattenedResults /\
                forall word, word ∈ yellowWords -> ~ JS.occursIn word (typeName r)) /\
     sublist (yellowFilter config flattenedResults) flattenedResults /\
     (forall before r after, flattenedResults = before ++ r :: after ->
        yellowFilter config flattenedResults
        = yellowFilter config before ++ (if notYellow r then [r] else [])
          ++ yellowFilter config after) /\
     (forall l', flattenedResults ≡ₚ l' ->
        yellowFilter config flattenedResults ≡ₚ yellowFilter config l')) /\
  (DisableYellowFilter (SiteCfg config) = true ->
     yellowFilter config flattenedResults = flattenedResults).
Proof.
  unfold Search.yellowFilter. split; intros ->; cbn [negb]; [|reflexivity].
  split; [|split; [|split]].
  - intros r. rewrite <- notYellow_spec, !list_elem_of_In. apply filter_In.
  - apply filter_sublist.
  - intros before r after ->. rewrite List.filter_app. cbn [List.filter].
    now destruct (notYellow r).
  - intros l'. apply filter_Permutation.
Qed.

(** *** What [GET] returns *)

Lemma fulfilledValues_searchPromises apiSites query :
  fulfilledValues (searchPromises searchFromApi apiSites query
                     (generateSearchVariants query))
  = map (siteContribution query) apiSites.
Proof.
  unfold searchPromises, Search.siteContribution.
  induction apiSites as [|site apiSites IH]; cbn; [reflexivity|].
  rewrite <- IH. now destruct (searchFromApi site query _).
Qed.

(** For an authenticated request with a non-empty query the handler answers
    200 with the filtered concatenation of what the API sites' promises
    settle to, in the order of the sites. *)
Lemma GET_results request cfg m user query :
  authenticated request = Some user -> q request = Some query -> query <> "" ->
  status (GET request cfg m).1 = 200 /\
  resultsOf (GET request cfg m).1
  = yellowFilter cfg (concat (map (siteContribution query) (getAvailableApiSites user))).
Proof.
  intros Hu Hq Hne. unfold Search.GET. rewrite Hu, Hq.
  destruct query as [|a query]; [congruence|]. cbn [JS.truthy_string negb].
  destruct (getAllClients cfg m) as [embySourcesMap m']. cbv zeta.
  rewrite fulfilledValues_searchPromises.
  destruct (yellowFilter cfg _); split; reflexivity.
Qed.

(** *** The emby tasks *)

(** An emby promise never rejects; a task that throws or is still pending
    when the timer fires settles to the empty list. *)
Lemma embyPromise_fulfilled embySources query e :
  catch (raceTimeout (embyTask getItems getImageUrl embySources query e)) []
  = Fulfilled (embyContribution embySources query e).
Proof.
  unfold Search.embyContribution, embyTask.
  now destruct (getItems (client e) query).
Qed.

Lemma embyContribution_cases embySources query e :
  embyContribution embySources query e
  = match getItems (client e) query with
    | Returns items => map (embyResult getImageUrl embySources e) items
    | Throws => []
    | Pending => []
    end.
Proof.
  unfold Search.embyContribution, embyTask.
  now destruct (getItems (client e) query).
Qed.

Lemma sitePromise_fulfilled query site :
  catch (raceTimeout (searchFromApi site query (generateSearchVariants query))) []
  = Fulfilled (siteContribution query site).
Proof.
  unfold Search.siteContribution.
  now destruct (searchFromApi site query _).
Qed.

Lemma siteContribution_cases query site :
  siteContribution query site
  = match searchFromApi site query (generateSearchVariants query) with
    | Returns l => l
    | Throws => []
    | Pending => []
    end.
Proof.
  unfold Search.siteContribution.
  now destruct (searchFromApi site query _).
Qed.

(** A failed task costs the aggregate nothing: the response is the one for
    the API sites whose search returned. *)
Lemma GET_site_isolation request cfg m user query :
  authenticated request = Some user -> q request = Some query -> query <> "" ->
  let returned site :=
    match searchFromApi site query (generateSearchVariants query) with
    | Returns _ => true
    | _ => false
    end in
  status (GET request cfg m).1 = 200 /\
  resultsOf (GET request cfg m).1
  = yellowFilter cfg
      (concat (map (siteContribution query)
                   (List.filter returned (getAvailableApiSites user)))).
Proof.
  intros Hu Hq Hne returned.
  destruct (GET_results request cfg m user query Hu Hq Hne) as [Hst Hres].
  split; [exact Hst|]. rewrite Hres. f_equal. clear Hres Hst.
  induction (getAvailableApiSites user) as [|site sites IH]; cbn; [reflexivity|].
  rewrite IH. unfold returned at 2.
  pose proof (siteContribution_cases query site) as Hsite.
  destruct (searchFromApi site query _); cbn; now rewrite Hsite.
Qed.

(** Every result of an emby task carries the tag computed for its source. *)
Lemma embyContribution_source embySources query e r :
  r ∈ embyContribution embySources query e ->
  source r = sourceValue embySources (config e).
Proof.
  rewrite embyContribution_cases.
  destruct (getItems (client e) query) as [items| |]; intros H;
    [|inversion H|inversion H].
  apply list_elem_of_fmap in H as (item & -> & _). reflexivity.
Qed.

(** *** The sources the fan-out runs over *)

Lemma entryConfigs_map_set k e result :
  entryConfigs (JS.map_set k e result) = JS.map_set k (config e) (entryConfigs result).
Proof.
  unfold entryConfigs. induction result as [|[k0 e0] result IH]; cbn; [reflexivity|].
  destruct (String.eqb k0 k); cbn; [reflexivity | now rewrite IH].
Qed.

Lemma getAllClients_step_configs acc source :
  entryConfigs (getAllClients_step acc source).2
  = JS.map_set (key source) source (entryConfigs acc.2).
Proof.
  destruct acc as [m result]. unfold getAllClients_step.
  destruct (clients m !! key source) as [c|] eqn:Hc.
  - rewrite Hc. cbn [snd]. now rewrite entryConfigs_map_set.
  - unfold construct at 1. cbn [clients]. rewrite lookup_insert_eq. cbn [snd].
    now rewrite entryConfigs_map_set.
Qed.

Lemma getAllClients_configs cfg m :
  entryConfigs (getAllClients cfg m).1
  = fold_left (fun acc s => JS.map_set (key s) s acc) (getEnabledSources cfg) [].
Proof.
  unfold getAllClients.
  assert (Hloop : forall sources acc,
             entryConfigs (fold_left getAllClients_step sources acc).2
             = fold_left (fun a s => JS.map_set (key s) s a) sources (entryConfigs acc.2)).
  { induction sources as [|s sources IH]; intros acc; cbn [fold_left]; [reflexivity|].
    now rewrite IH, getAllClients_step_configs. }
  specialize (Hloop (getEnabledSources cfg) (m, [])).
  destruct (fold_left getAllClients_step _ _) as [m' result]. exact Hloop.
Qed.

Lemma map_set_fresh {V} k (v : V) l :
  k ∉ map fst l -> JS.map_set k v l = l ++ [(k, v)].
Proof.
  induction l as [|[k0 v0] l IH]; cbn; [reflexivity|].
  intros Hnin. apply not_elem_of_cons in Hnin as [Hne Hnin].
  destruct (String.eqb k0 k) eqn:E.
  - apply String.eqb_eq in E. congruence.
  - now rewrite IH.
Qed.

Lemma map_set_loop_distinct (sources : list EmbySourceConfig) acc :
  NoDup (map fst acc ++ map key sources) ->
  fold_left (fun a s => JS.map_set (key s) s a) sources acc
  = acc ++ map (fun s => (key s, s)) sources.
Proof.
  revert acc. induction sources as [|s sources IH]; intros acc Hnd; cbn.
  - now rewrite app_nil_r.
  - assert (Hfresh : key s ∉ map fst acc).
    { apply NoDup_app in Hnd as (_ & Hdisj & _). intros Hin.
      apply (Hdisj _ Hin). cbn. apply elem_of_cons. auto. }
    rewrite (map_set_fresh _ _ _ Hfresh), IH.
    + now rewrite <- app_assoc.
    + rewrite map_app. cbn. rewrite <- app_assoc. exact Hnd.
Qed.

(** With pairwise distinct keys the fan-out runs over the enabled sources,
    one entry each, in their order. *)
Lemma embySources_enabled cfg m :
  NoDup (map key (getEnabledSources cfg)) ->
  map config (JS.map_values (getAllClients cfg m).1) = getEnabledSources cfg.
Proof.
  intros Hnd.
  assert (H : map snd (entryConfigs (getAllClients cfg m).1) = getEnabledSources cfg).
  { rewrite getAllClients_configs, map_set_loop_distinct by exact Hnd.
    cbn. rewrite map_map. cbn. apply map_id. }
  rewrite <- H. unfold entryConfigs, JS.map_values. now rewrite !map_map.
Qed.

(** C4.  Let the emby sources have pairwise distinct keys.  The fan-out then
    has one task per enabled source, and every result a task produces is
    tagged ['emby'] when exactly one source is enabled and
    ['emby_' + key], with the key of the task's source, when two or more
    are. *)
Theorem emby_source_tag (cfg : AdminConfig) (m : Manager) (query : string) :
  NoDup (map key (getEnabledSources cfg)) ->
  map config (JS.map_values (getAllClients cfg m).1) = getEnabledSources cfg /\
  forall e r,
    e ∈ JS.map_values (getAllClients cfg m).1 ->
    r ∈ embyContribution (JS.map_values (getAllClients cfg m).1) query e ->
    (length (getEnabledSources cfg) = 1%nat -> source r = "emby") /\
    ((2 <= length (getEnabledSources cfg))%nat ->
       source r = "emby_" +:+ key (config e)).
Proof.
  intros Hnd. pose proof (embySources_enabled cfg m Hnd) as Hsrc.
  split; [exact Hsrc|].
  intros e r _ Hr. apply embyContribution_source in Hr. rewrite Hr.
  unfold sourceValue.
  assert (Hlen : length (JS.map_values (getAllClients cfg m).1)
                 = length (getEnabledSources cfg)).
  { rewrite <- Hsrc. now rewrite length_map. }
  rewrite Hlen. split; intros H.
  - now rewrite H.
  - destruct (Nat.eqb_spec (length (getEnabledSources cfg)) 1); [lia | reflexivity].
Qed.

End SearchFacts.

(** *** The emby tasks are left out of the aggregate *)

(** The response does not depend on what the emby servers answer. *)
Lemma GET_ignores_emby sites variants fromApi getItems getItems' imageUrl words
      request cfg m :
  Search.GET sites variants fromApi getItems imageUrl words request cfg m
  = Search.GET sites variants fromApi getItems' imageUrl words request cfg m.
Proof. reflexivity. Qed.

(** C1, at a concrete search.  One emby source is enabled and its task
    settles to one result; no API site is available; the filter is off.
    The handler has the emby promise in hand and answers with no result. *)
Theorem search_omits_emby_results :
  let cfg := Examples.modernConfig [Examples.srcA] in
  let embySources := JS.map_values (EmbyManager.getAllClients cfg EmbyManager.initial).1 in
  Search.embyPromises Examples.getItemsOk Examples.getImageUrl embySources "matrix"
  = [Async.Fulfilled [Examples.resultMatrix "emby" "Emby" "http://a.example:8096"]] /\
  (Search.GET Examples.noSites Examples.generateSearchVariants Examples.searchFromApi
      Examples.getItemsOk Examples.getImageUrl Examples.yellowWords
      Examples.request cfg EmbyManager.initial).1
  = {| Search.status := 200; Search.body := Search.Results [];
       Search.cacheHeaders := false |}.
Proof. split; vm_compute; reflexivity. Qed.

(** C3, at a concrete search.  Emby source [a] answers and [b] throws; API
    site [x] times out and [y] answers.  The handler answers 200 with the
    result of [y] alone: the two failures cost nothing, and the result of
    emby source [a], a task that did not fail, is missing all the same. *)
Theorem search_isolation_omits_emby :
  let cfg := Examples.modernConfig [Examples.srcA; Examples.srcB] in
  let embySources := JS.map_values (EmbyManager.getAllClients cfg EmbyManager.initial).1 in
  Search.embyPromises Examples.getItemsBdown Examples.getImageUrl embySources "matrix"
  = [Async.Fulfilled [Examples.resultMatrix "emby_a" "Attic" "http://a.example:8096"];
     Async.Fulfilled []] /\
  Search.searchPromises Examples.searchFromApi [Examples.siteX; Examples.siteY] "matrix"
    ["matrix"]
  = [Async.Fulfilled []; Async.Fulfilled [Examples.resultY (Some "科幻片")]] /\
  (Search.GET Examples.twoSites Examples.generateSearchVariants Examples.searchFromApi
      Examples.getItemsBdown Examples.getImageUrl Examples.yellowWords
      Examples.request cfg EmbyManager.initial).1
  = {| Search.status := 200;
       Search.body := Search.Results [Examples.resultY (Some "科幻片")];
       Search.cacheHeaders := true |}.
Proof. repeat split; vm_compute; reflexivity. Qed.

Lemma emby_source_tag_witness :
  (forall r,
     r ∈ [Examples.resultMatrix "emby" "Emby" "http://a.example:8096"] ->
     Search.source r = "emby") /\
  (forall r,
     r ∈ [Examples.resultMatrix "emby_b" "Basement" "http://b.example:8096"] ->
     Search.source r = "emby_b").
Proof.
  split; intros r Hr.
  - pose (cfg := Examples.modernConfig [Examples.srcA]).
    destruct (emby_source_tag Examples.getItemsOk Examples.getImageUrl
                cfg EmbyManager.initial "matrix") as [_ H].
    { vm_compute. apply NoDup_singleton. }
    apply (H {| EmbyManager.client := {| EmbyManager.client_id := 0;
                                         EmbyManager.client_config := Examples.srcA |};
                EmbyManager.config := Examples.srcA |} r).
    + vm_compute. apply list_elem_of_here.
    + exact Hr.
    + reflexivity.
  - pose (cfg := Examples.modernConfig [Examples.srcA; Examples.srcB]).
    destruct (emby_source_tag Examples.getItemsOk Examples.getImageUrl
                cfg EmbyManager.initial "matrix") as [_ H].
    { vm_compute. apply NoDup_cons. split; [|apply NoDup_singleton].
      intros Hin. apply list_elem_of_singleton in Hin. discriminate. }
    apply (H {| EmbyManager.client := {| EmbyManager.client_id := 1;
                                         EmbyManager.client_config := Examples.srcB |};
                EmbyManager.config := Examples.srcB |} r).
    + vm_compute. apply list_elem_of_further, list_elem_of_here.
    + exact Hr.
    + vm_compute. lia.
Defined.

(** Outside the data model (two enabled sources under one key) the map
    [getAllClients] returns has a single entry, and its task tags its
    results ['emby']. *)
Example emby_source_tag_shared_key :
  let cfg := Examples.modernConfig [Examples.srcA; Examples.srcA] in
  let embySources := JS.map_values (EmbyManager.getAllClients cfg EmbyManager.initial).1 in
  length (EmbyManager.getEnabledSources cfg) = 2%nat /\
  Search.embyPromises Examples.getItemsOk Examples.getImageUrl embySources "matrix"
  = [Async.Fulfilled [Examples.resultMatrix "emby" "Emby" "http://a.example:8096"]].
Proof. split; vm_compute; reflexivity. Qed.

Lemma yellow_filter_pure_witness :
  let l := [Examples.resultY (Some "伦理片"); Examples.resultY (Some "科幻片");
            Examples.resultY None] in
  Search.yellowFilter Examples.yellowWords (Examples.legacyConfig None) l
  = [Examples.resultY (Some "科幻片"); Examples.resultY None] /\
  Search.yellowFilter Examples.yellowWords (Examples.modernConfig []) l = l.
Proof.
  intros l. split.
  - destruct (yellow_filter_pure Examples.yellowWords (Examples.legacyConfig None) l)
      as [Hon _].
    destruct (Hon eq_refl) as (_ & _ & Hsplit & _).
    rewrite (Hsplit [] (Examples.resultY (Some "伦理片"))
               [Examples.resultY (Some "科幻片"); Examples.resultY None] eq_refl).
    vm_compute. reflexivity.
  - destruct (yellow_filter_pure Examples.yellowWords (Examples.modernConfig []) l)
      as [_ Hoff].
    apply Hoff. reflexivity.
Defined.

(** ** The play proxy *)

Section PlayProxyFacts.
Import EmbyManager PlayProxy.

Variable cfg : AdminConfig.
Variable getStreamUrl : EmbyClient -> string -> option string.
Variable fetch : nat -> string -> option string -> option Upstream.

Local Abbreviation getEmbyClient := (getEmbyClient cfg).
Local Abbreviation streamUrl := (streamUrl getStreamUrl).
Local Abbreviation doFetch := (doFetch fetch).
Local Abbreviation proxy := (proxy cfg getStreamUrl fetch).
Local Abbreviation GET := (GET cfg getStreamUrl fetch).

Lemma fetchCount_snoc l e :
  fetchCount (l ++ [e]) = (fetchCount l + (if isFetch e then 1 else 0))%nat.
Proof.
  unfold fetchCount. rewrite List.filter_app, length_app. cbn.
  now destruct (isFetch e).
Qed.

Lemma getEmbyClient_ok k w c m' :
  hasSources cfg = true -> getClient k cfg (mgr w) = (Ok c, m') ->
  getEmbyClient k w = ({| mgr := m'; log := log w ++ [EvGetClient k] |}, inr c).
Proof.
  intros Hs Hc. unfold PlayProxy.getEmbyClient, bind, emit. rewrite Hs. cbn.
  now rewrite Hc.
Qed.

Lemma getEmbyClient_fetches k w :
  fetchCount (log (getEmbyClient k w).1) = fetchCount (log w).
Proof.
  unfold PlayProxy.getEmbyClient, bind, emit, throw.
  destruct (negb (hasSources cfg)); cbn; [reflexivity|].
  destruct (getClient k cfg (mgr w)) as [[c|e] m']; cbn [fst log];
    rewrite fetchCount_snoc; cbn; lia.
Qed.

Lemma streamUrl_ok c i u w :
  getStreamUrl c i = Some u ->
  streamUrl c i w = ({| mgr := mgr w; log := log w ++ [EvGetStreamUrl c i] |}, inr u).
Proof.
  intros Hu. unfold PlayProxy.streamUrl, bind, emit, ret. cbn. now rewrite Hu.
Qed.

Lemma streamUrl_fetches c i w :
  fetchCount (log (streamUrl c i w).1) = fetchCount (log w).
Proof.
  unfold PlayProxy.streamUrl, bind, emit, ret, throw. cbn.
  destruct (getStreamUrl c i); cbn [fst log]; rewrite fetchCount_snoc; cbn; lia.
Qed.

Lemma doFetch_fetches u range w :
  fetchCount (log (doFetch u range w).1) = S (fetchCount (log w)).
Proof.
  unfold PlayProxy.doFetch.
  destruct (fetch _ u range); cbn [fst log]; rewrite fetchCount_snoc; cbn; lia.
Qed.

Lemma bind_ok {A B} (x : M A) (f : A -> M B) w w' a :
  x w = (w', inr a) -> bind x f w = f a w'.
Proof. intros H. unfold bind. now rewrite H. Qed.


Lemma bind_assoc {A B C} (x : M A) (f : A -> M B) (g : B -> M C) w :
  bind (bind x f) g w = bind x (fun a => bind (f a) g) w.
Proof. unfold bind. now destruct (x w) as [w' [e|a]]. Qed.



Lemma doFetch_ok u range w r :
  fetch (fetchCount (log w)) u range = Some r ->
  doFetch u range w = ({| mgr := mgr w; log := log w ++ [EvFetch u range] |}, inr r).
Proof. intros H. unfold PlayProxy.doFetch. now rewrite H. Qed.

Lemma doFetch_err u range w :
  fetch (fetchCount (log w)) u range = None ->
  doFetch u range w
  = ({| mgr := mgr w; log := log w ++ [EvFetch u range] |}, inl "fetch failed").
Proof. intros H. unfold PlayProxy.doFetch. now rewrite H. Qed.

(** One request fetches upstream at most twice, whatever the manager, the
    client and the network do. *)
Lemma proxy_fetches_at_most_twice i filename k range w :
  (fetchCount (log (proxy i filename k range w).1) <= fetchCount (log w) + 2)%nat.
Proof.
  unfold PlayProxy.proxy, bind.
  pose proof (getEmbyClient_fetches k w) as H1.
  destruct (getEmbyClient k w) as [w1 [e|c1]]; cbn [fst] in *; [lia|].
  pose proof (streamUrl_fetches c1 i w1) as H2.
  destruct (streamUrl c1 i w1) as [w2 [e|u1]]; cbn [fst] in *; [lia|].
  pose proof (doFetch_fetches u1 range w2) as H3.
  destruct (doFetch u1 range w2) as [w3 [e|r1]]; cbn [fst] in *; [lia|].
  destruct (up_status r1 =? 401).
  - unfold doClearCache at 1.
    set (w4 := {| mgr := clearCache (mgr w3); log := log w3 ++ [EvClearCache] |}).
    assert (H4 : fetchCount (log w4) = fetchCount (log w3)).
    { unfold w4. cbn [log]. rewrite fetchCount_snoc. cbn. lia. }
    pose proof (getEmbyClient_fetches k w4) as H5.
    destruct (getEmbyClient k w4) as [w5 [e|c2]]; cbn [fst] in *; [lia|].
    pose proof (streamUrl_fetches c2 i w5) as H6.
    destruct (streamUrl c2 i w5) as [w6 [e|u2]]; cbn [fst] in *; [lia|].
    pose proof (doFetch_fetches u2 range w6) as H7.
    destruct (doFetch u2 range w6) as [w7 [e|r2]]; cbn [fst] in *; [lia|].
    unfold ret, throw. cbv zeta. destruct (negb (ok r2)); cbn [fst log]; [lia|].
    destruct (headersAccepted _); cbn [fst log]; lia.
  - unfold ret, throw. cbv zeta. destruct (negb (ok r1)); cbn [fst log]; [lia|].
    destruct (headersAccepted _); cbn [fst log]; lia.
Qed.

Lemma GET_fetches_at_most_twice hasValidToken hasValidAuth itemId filename k range w :
  (fetchCount (log (GET hasValidToken hasValidAuth itemId filename k range w).1)
   <= fetchCount (log w) + 2)%nat.
Proof.
  unfold PlayProxy.GET.
  destruct (negb hasValidToken && negb hasValidAuth); cbn [fst]; [lia|].
  destruct itemId as [i|]; cbn [fst]; [|lia].
  destruct (negb (JS.truthy_string i)); cbn [fst]; [lia|].
  match goal with
  | |- context [PlayProxy.proxy _ _ _ ?i ?f ?k ?r ?w] =>
      pose proof (proxy_fetches_at_most_twice i f k r w) as H;
      destruct (PlayProxy.proxy cfg getStreamUrl fetch i f k r w) as [w' [e|reply]]
  end; cbn [fst] in *; lia.
Qed.

End PlayProxyFacts.


(** ** The order of episodes *)

Section DetailFacts.
Import Emby Detail.

Lemma insert_Permutation {A} (cmp : A -> A -> Z) x l :
  JS.insert cmp x l ≡ₚ x :: l.
Proof.
  induction l as [|y l IH]; cbn; [reflexivity|].
  destruct (cmp x y <? 0); [reflexivity|].
  rewrite IH. apply perm_swap.
Qed.

(** Sorting permutes: nothing is dropped, nothing is added. *)
Lemma sort_Permutation {A} (cmp : A -> A -> Z) l : JS.sort cmp l ≡ₚ l.
Proof.
  unfold JS.sort.
  assert (H : forall acc, fold_left (fun acc x => JS.insert cmp x acc) l acc ≡ₚ acc ++ l).
  { induction l as [|x l IH]; intros acc; cbn.
    - now rewrite app_nil_r.
    - rewrite IH, insert_Permutation. cbn. apply Permutation_middle. }
  apply H.
Qed.

Lemma sortedEpisodes_Permutation episodesBySeason :
  sortedEpisodes episodesBySeason ≡ₚ concat episodesBySeason.
Proof. apply sort_Permutation. Qed.

Lemma or_num_0 x : JS.or_num x 0 = JS.nullish x 0.
Proof. destruct x as [n|]; cbn; [|reflexivity]. destruct (Z.eqb_spec n 0); congruence. Qed.

Lemma rank_le_refl a : rank_le a a.
Proof. unfold rank_le. lia. Qed.

Lemma rank_le_trans a b c : rank_le a b -> rank_le b c -> rank_le a c.
Proof. unfold rank_le. lia. Qed.

(** On comparable episodes the comparator decides the documented order. *)
Lemma episodeCompare_lt a b :
  comparable a b -> episodeCompare a b < 0 -> rank_le a b.
Proof.
  unfold comparable, episodeCompare, rank_le, rank, strictNotEqual.
  rewrite !or_num_0. cbn [fst snd].
  destruct (ParentIndexNumber a) as [pa|], (ParentIndexNumber b) as [pb|];
    cbn [JS.nullish]; intros [H1 H2].
  - destruct (Z.eqb_spec pa pb); cbn [negb]; lia.
  - lia.
  - lia.
  - lia.
Qed.

Lemma episodeCompare_ge a b :
  comparable a b -> ~ episodeCompare a b < 0 -> rank_le b a.
Proof.
  unfold comparable, episodeCompare, rank_le, rank, strictNotEqual.
  rewrite !or_num_0. cbn [fst snd].
  destruct (ParentIndexNumber a) as [pa|], (ParentIndexNumber b) as [pb|];
    cbn [JS.nullish]; intros [H1 H2].
  - destruct (Z.eqb_spec pa pb); cbn [negb]; lia.
  - intros H. assert (pa <> 0) by (intros ->; apply H2; auto). lia.
  - intros H. assert (pb <> 0) by (intros ->; apply H1; auto). lia.
  - lia.
Qed.

Lemma insert_HdRel y x l :
  rank_le y x -> HdRel rank_le y l -> HdRel rank_le y (JS.insert episodeCompare x l).
Proof.
  intros Hyx Hl. destruct l as [|z l]; cbn; [now constructor|].
  destruct (episodeCompare x z <? 0); constructor; [exact Hyx|].
  now inversion Hl.
Qed.

Lemma insert_Sorted x l :
  (forall y, y ∈ l -> comparable x y) ->
  Sorted rank_le l -> Sorted rank_le (JS.insert episodeCompare x l).
Proof.
  intros Hcmp Hs. induction Hs as [|y l Hs IH Hhd]; cbn.
  - repeat constructor.
  - assert (Hxy : comparable x y) by (apply Hcmp, list_elem_of_here).
    destruct (Z.ltb_spec (episodeCompare x y) 0) as [Hlt|Hge].
    + constructor; [now constructor|]. constructor. now apply episodeCompare_lt.
    + constructor.
      * apply IH. intros z Hz. apply Hcmp. now apply list_elem_of_further.
      * apply insert_HdRel; [|exact Hhd]. apply episodeCompare_ge; [exact Hxy | lia].
Qed.

(** What the sort does achieve: when no episode lacks its season index
    while another sits in season 0, the episodes come out in the documented
    order. *)
Lemma sortedEpisodes_Sorted episodesBySeason :
  seasonsComparable (concat episodesBySeason) ->
  Sorted rank_le (sortedEpisodes episodesBySeason).
Proof.
  unfold sortedEpisodes, JS.sort, seasonsComparable.
  generalize (concat episodesBySeason) as l. intros l Hcmp.
  assert (H : forall rest acc,
             (forall a b, a ∈ acc ++ rest -> b ∈ acc ++ rest -> comparable a b) ->
             Sorted rank_le acc ->
             Sorted rank_le (fold_left (fun acc x => JS.insert episodeCompare x acc) rest acc)).
  { induction rest as [|x rest IH]; intros acc Hc Hs; cbn; [exact Hs|].
    apply IH.
    - intros a b Ha Hb. apply Hc.
      + apply elem_of_app in Ha as [Ha|Ha].
        * rewrite insert_Permutation in Ha. apply elem_of_cons in Ha as [->|Ha].
          -- apply elem_of_app. right. apply list_elem_of_here.
          -- apply elem_of_app. now left.
        * apply elem_of_app. right. now apply list_elem_of_further.
      + apply elem_of_app in Hb as [Hb|Hb].
        * rewrite insert_Permutation in Hb. apply elem_of_cons in Hb as [->|Hb].
          -- apply elem_of_app. right. apply list_elem_of_here.
          -- apply elem_of_app. now left.
        * apply elem_of_app. right. now apply list_elem_of_further.
    - apply insert_Sorted; [|exact Hs].
      intros y Hy. apply Hc; apply elem_of_app; [right; apply list_elem_of_here | now left]. }
  apply H; [exact Hcmp | constructor].
Qed.

(** The episodes of the design document's example, as the code orders them:
    the episode without indices comes first. *)
Example sortedEpisodes_example :
  map rank (sortedEpisodes
              [[Examples.episode "x" (Some 1) (Some 2);
                Examples.episode "y" (Some 1) (Some 1)];
               [Examples.episode "z" (Some 2) (Some 1);
                Examples.episode "w" None None]])
  = [(0, 0); (1, 1); (1, 2); (2, 1)].
Proof. reflexivity. Qed.

End DetailFacts.

(** C5, at a concrete series.  The server lists an episode without season
    index (episode 5) before the first special (season 0, episode 1).  In
    the documented order the special, ranked (0, 1), precedes the other,
    ranked (0, 5).  The comparator returns 0 for the pair in both
    directions, because it tests the raw season indices for inequality and
    then subtracts the defaulted ones, so the sort leaves the pair as
    listed and [getEmbyDetail] returns the episodes out of order. *)
Theorem detail_misorders_unknown_season :
  let a := Examples.epUnknownSeason in
  let b := Examples.epSpecial in
  Detail.rank a = (0, 5) /\ Detail.rank b = (0, 1) /\
  Detail.episodeCompare a b = 0 /\ Detail.episodeCompare b a = 0 /\
  Detail.sortedEpisodes [[a; b]] = [a; b] /\
  ~ Sorted Detail.rank_le (Detail.sortedEpisodes [[a; b]]) /\
  exists r m',
    Detail.getEmbyDetail Examples.getItem Examples.getSeasons Examples.getEpisodes
      Examples.getStreamUrl Examples.getSubtitles Examples.getImageUrl
      "emby" "s1" (Examples.modernConfig [Examples.srcA]) EmbyManager.initial
    = (inr r, m') /\
    Detail.episodes r = ["http://a.example:8096/Videos/e5/stream";
                         "http://a.example:8096/Videos/e1/stream"] /\
    Detail.episodes_titles r = ["S01E05"; "S01E01"].
Proof.
  cbv zeta. repeat split; try reflexivity.
  - intros H. inversion H as [|x l _ Hhd]; subst.
    inversion Hhd as [|y l' Hle]; subst.
    unfold Detail.rank_le in Hle. cbn in Hle. lia.
  - eexists _, _. split; [vm_compute; reflexivity | split; reflexivity].
Qed.

(** ** Importing sources *)

Section ImportFacts.
Import EmbyManager ImportRoute.

Implicit Types (l e d : list EmbySourceConfig) (x s : EmbySourceConfig) (k : string).

Local Abbreviation hasKey k := (fun s : EmbySourceConfig => String.eqb (key s) k).

Lemma upsert_cons y l x :
  upsert (y :: l) x = if String.eqb (key y) (key x) then x :: l else y :: upsert l x.
Proof.
  unfold upsert. cbn [findIndex].
  destruct (String.eqb (key y) (key x)); [reflexivity|].
  now destruct (findIndex _ l).
Qed.

Lemma upsert_find l x k :
  JS.find (hasKey k) (upsert l x)
  = if String.eqb (key x) k then Some x else JS.find (hasKey k) l.
Proof.
  unfold JS.find. induction l as [|y l IH].
  - cbn. now destruct (String.eqb (key x) k).
  - rewrite upsert_cons. destruct (String.eqb_spec (key y) (key x)) as [Hyx|Hyx]; cbn.
    + rewrite Hyx. now destruct (String.eqb (key x) k).
    + rewrite IH. destruct (String.eqb_spec (key y) k) as [Hyk|Hyk]; [|reflexivity].
      destruct (String.eqb_spec (key x) k); [congruence | reflexivity].
Qed.

Lemma upsert_keys l x :
  map key (upsert l x)
  = if decide (key x ∈ map key l) then map key l else map key l ++ [key x].
Proof.
  induction l as [|y l IH].
  - cbn. destruct (decide _) as [H|H]; [inversion H | reflexivity].
  - rewrite upsert_cons. destruct (String.eqb_spec (key y) (key x)) as [Hyx|Hyx]; cbn.
    + rewrite decide_True by (rewrite Hyx; apply list_elem_of_here). now rewrite Hyx.
    + rewrite IH. destruct (decide (key x ∈ map key l)) as [H|H].
      * now rewrite decide_True by (now apply list_elem_of_further).
      * rewrite decide_False; [reflexivity|].
        intros H'. apply elem_of_cons in H' as [?|?]; congruence.
Qed.

Lemma upsert_keeps l x i s :
  l !! i = Some s -> key s <> key x -> upsert l x !! i = Some s.
Proof.
  revert i. induction l as [|y l IH]; intros i Hi Hne; [discriminate|].
  rewrite upsert_cons. destruct i as [|i]; cbn in Hi.
  - injection Hi as ->. now rewrite (proj2 (String.eqb_neq _ _) Hne).
  - destruct (String.eqb_spec (key y) (key x)); cbn; [exact Hi | now apply IH].
Qed.

Lemma find_snoc {A} (p : A -> bool) (l : list A) (x : A) :
  List.find p (l ++ [x])
  = match List.find p l with
    | Some y => Some y
    | None => if p x then Some x else None
    end.
Proof.
  induction l as [|y l IH]; cbn; [reflexivity|]. now destruct (p y).
Qed.

Lemma find_key_elem l k s : JS.find (hasKey k) l = Some s -> key s = k /\ s ∈ l.
Proof.
  intros H. apply find_firstWith in H as (pre & post & -> & _ & Hk).
  apply String.eqb_eq in Hk. split; [exact Hk|].
  apply elem_of_app. right. apply list_elem_of_here.
Qed.

Lemma find_key_none l k : k ∉ map key l -> JS.find (hasKey k) l = None.
Proof.
  intros H. apply find_none. apply Forall_forall. intros s Hs.
  apply String.eqb_neq. intros <-. apply H. now apply list_elem_of_fmap_2.
Qed.

Lemma find_key_some l k : k ∈ map key l -> JS.find (hasKey k) l <> None.
Proof.
  intros H Hn. apply find_none in Hn. apply list_elem_of_fmap in H as (s & -> & Hs).
  rewrite Forall_forall in Hn. specialize (Hn s Hs). cbn in Hn.
  now rewrite String.eqb_refl in Hn.
Qed.

Lemma upsert_NoDup l x : NoDup (map key l) -> NoDup (map key (upsert l x)).
Proof.
  intros H. rewrite upsert_keys. destruct (decide _) as [Hin|Hnin]; [exact H|].
  apply NoDup_app. split; [exact H | split; [|apply NoDup_singleton]].
  intros k Hk Hk'. apply list_elem_of_singleton in Hk'. congruence.
Qed.

(** The loop over the imported sources, looked up by key. *)
Lemma fold_upsert_find e d k :
  JS.find (hasKey k) (fold_left upsert d e)
  = match JS.find (hasKey k) (rev d) with
    | Some x => Some x
    | None => JS.find (hasKey k) e
    end.
Proof.
  revert e. induction d as [|x d IH]; intros e; cbn [fold_left rev].
  - reflexivity.
  - rewrite IH, upsert_find. unfold JS.find. rewrite find_snoc.
    destruct (List.find (hasKey k) (rev d)); [reflexivity|].
    now destruct (String.eqb (key x) k).
Qed.

(** X1.  Looking a source up by key after an import gives the last imported
    source with that key and, when none was imported, what the lookup gave
    before; so a key that is not imported resolves as it did. *)
Theorem mergeSources_find e d k :
  JS.find (hasKey k) (mergeSources e d)
  = match JS.find (hasKey k) (rev d) with
    | Some x => Some x
    | None => JS.find (hasKey k) e
    end /\
  (k ∉ map key d -> JS.find (hasKey k) (mergeSources e d) = JS.find (hasKey k) e).
Proof.
  unfold mergeSources. split; [apply fold_upsert_find|].
  intros Hk. rewrite fold_upsert_find.
  assert (Hnone : JS.find (hasKey k) (rev d) = None).
  { apply find_none, Forall_forall. intros s Hs. apply String.eqb_neq. intros <-.
    apply Hk, list_elem_of_fmap_2. apply list_elem_of_In, in_rev in Hs.
    now apply list_elem_of_In. }
  now rewrite Hnone.
Qed.

(** The loop over the imported sources: the keys it leaves. *)
Lemma fold_upsert_keys e d :
  (NoDup (map key e) -> NoDup (map key (fold_left upsert d e))) /\
  (exists new, map key (fold_left upsert d e) = map key e ++ new /\
     forall k, k ∈ new -> k ∈ map key d /\ k ∉ map key e) /\
  (forall i s, e !! i = Some s -> key s ∉ map key d ->
     fold_left upsert d e !! i = Some s).
Proof.
  revert e. induction d as [|x d IH]; intros e; cbn [fold_left].
  - split; [auto | split].
    + exists []. rewrite app_nil_r. split; [reflexivity|]. intros k H. inversion H.
    + auto.
  - destruct (IH (upsert e x)) as (Hnd & (new & Hkeys & Hnew) & Hkeep).
    split; [|split].
    + intros H. now apply Hnd, upsert_NoDup.
    + rewrite Hkeys, upsert_keys. destruct (decide (key x ∈ map key e)) as [Hin|Hnin].
      * exists new. split; [reflexivity|]. intros k Hk.
        destruct (Hnew k Hk) as [H1 H2]. rewrite upsert_keys, decide_True in H2 by exact Hin.
        split; [cbn; now apply list_elem_of_further | exact H2].
      * exists (key x :: new). split; [now rewrite <- app_assoc|].
        intros k Hk. apply elem_of_cons in Hk as [->|Hk].
        -- split; [apply list_elem_of_here | exact Hnin].
        -- destruct (Hnew k Hk) as [H1 H2].
           rewrite upsert_keys, decide_False in H2 by exact Hnin.
           split; [cbn; now apply list_elem_of_further|].
           intros H. apply H2, elem_of_app. now left.
    + intros i s Hi Hs. cbn in Hs. apply not_elem_of_cons in Hs as [Hne Hs].
      apply Hkeep; [|exact Hs]. now apply upsert_keeps.
Qed.

(** X2.  An import keeps the keys pairwise distinct when they were, keeps every
    existing key at its index, with the source untouched when its key is not
    imported, and appends the keys that are new, each once. *)
Theorem mergeSources_keys e d :
  (NoDup (map key e) -> NoDup (map key (mergeSources e d))) /\
  (exists new, map key (mergeSources e d) = map key e ++ new /\
     NoDup new /\
     forall k, k ∈ new <-> k ∈ map key d /\ k ∉ map key e) /\
  (forall i s, e !! i = Some s -> key s ∉ map key d ->
     mergeSources e d !! i = Some s).
Proof.
  unfold mergeSources. destruct (fold_upsert_keys e d) as (Hnd & (new & Hkeys & Hnew) & Hkeep).
  split; [exact Hnd | split; [|exact Hkeep]].
  exists new. split; [exact Hkeys | split].
  - clear Hnd Hkeep Hnew. revert e new Hkeys.
    induction d as [|x d IH]; intros e new Hkeys; cbn [fold_left] in Hkeys.
    + assert (new = []) as ->; [|constructor].
      apply (f_equal (@length string)) in Hkeys. rewrite length_app in Hkeys.
      destruct new; [reflexivity | cbn in Hkeys; lia].
    + destruct (fold_upsert_keys (upsert e x) d) as (_ & (new' & Hkeys' & Hnew') & _).
      rewrite Hkeys', upsert_keys in Hkeys.
      destruct (decide (key x ∈ map key e)) as [Hin|Hnin].
      * apply app_inv_head in Hkeys as <-. apply (IH (upsert e x)).
        now rewrite Hkeys', upsert_keys, decide_True.
      * rewrite <- app_assoc in Hkeys. apply app_inv_head in Hkeys as <-.
        cbn. apply NoDup_cons. split.
        -- intros Hx. apply Hnew' in Hx as [_ Hx]. apply Hx.
           rewrite upsert_keys, decide_False by exact Hnin.
           apply elem_of_app. right. apply list_elem_of_here.
        -- apply (IH (upsert e x)). exact Hkeys'.
  - intros k. split; [apply Hnew|]. intros [Hd He].
    assert (Hk : k ∈ map key (fold_left upsert d e)).
    { destruct (JS.find (hasKey k) (fold_left upsert d e)) as [s|] eqn:E.
      - apply find_key_elem in E as [<- Hs]. now apply list_elem_of_fmap_2.
      - exfalso. rewrite fold_upsert_find in E.
        destruct (JS.find (hasKey k) (rev d)) eqn:E'; [discriminate|].
        revert E'. apply find_key_some.
        apply list_elem_of_fmap in Hd as (x & -> & Hx). apply list_elem_of_fmap_2.
        apply list_elem_of_In, in_rev. rewrite rev_involutive. now apply list_elem_of_In. }
    rewrite Hkeys in Hk. apply elem_of_app in Hk as [Hk|Hk]; [contradiction | exact Hk].
Qed.

(** A list of sources with pairwise distinct keys is determined by its keys
    and by what the lookup by key gives. *)
Lemma sources_eq_by_find l1 l2 :
  NoDup (map key l1) -> map key l1 = map key l2 ->
  (forall k, JS.find (hasKey k) l1 = JS.find (hasKey k) l2) -> l1 = l2.
Proof.
  revert l2. induction l1 as [|a l1 IH]; intros [|b l2] Hnd Hkeys Hfind;
    try discriminate; [reflexivity|].
  cbn in Hkeys. injection Hkeys as Hab Hkeys.
  apply NoDup_cons in Hnd as [Hnin Hnd].
  assert (a = b) as <-.
  { specialize (Hfind (key a)). unfold JS.find in Hfind. cbn in Hfind.
    rewrite <- Hab, String.eqb_refl in Hfind. congruence. }
  f_equal. apply IH; [exact Hnd | exact Hkeys|].
  intros k. destruct (String.eqb_spec (key a) k) as [<-|Hne].
  - rewrite !find_key_none; [reflexivity | now rewrite <- Hkeys | exact Hnin].
  - specialize (Hfind k). unfold JS.find in *. cbn in Hfind.
    now rewrite (proj2 (String.eqb_neq _ _) Hne) in Hfind.
Qed.

(** X3.  Importing the same sources a second time changes nothing, when the keys
    of the existing sources are pairwise distinct. *)
Theorem mergeSources_idempotent e d :
  NoDup (map key e) -> mergeSources (mergeSources e d) d = mergeSources e d.
Proof.
  intros Hnd. unfold mergeSources.
  destruct (fold_upsert_keys e d) as (Hnd' & _ & _).
  destruct (fold_upsert_keys (fold_left upsert d e) d)
    as (Hnd'' & (new & Hkeys & Hnew) & _).
  assert (new = []) as ->.
  { destruct new as [|k new]; [reflexivity|]. exfalso.
    destruct (Hnew k (list_elem_of_here _ _)) as [Hin Hnin]. apply Hnin.
    apply list_elem_of_fmap in Hin as (x & -> & Hx).
    destruct (JS.find (hasKey (key x)) (fold_left upsert d e)) as [s|] eqn:E.
    - apply find_key_elem in E as [<- Hs]. now apply list_elem_of_fmap_2.
    - rewrite fold_upsert_find in E.
      destruct (JS.find (hasKey (key x)) (rev d)) eqn:E'; [discriminate|].
      exfalso. revert E'. apply find_key_some.
      apply list_elem_of_fmap_2. apply list_elem_of_In, in_rev.
      rewrite rev_involutive. now apply list_elem_of_In. }
  rewrite app_nil_r in Hkeys.
  apply sources_eq_by_find; [auto | exact Hkeys|].
  intros k. rewrite (fold_upsert_find (fold_left upsert d e)).
  destruct (JS.find (hasKey k) (rev d)) eqn:E; [|reflexivity].
  now rewrite fold_upsert_find, E.
Qed.

(** X4.  Importing single-source fields into a configuration that holds a
    [Sources] array leaves the array, and so the sources the manager lists, as
    they were. *)
Theorem import_legacy_into_modern adminConfig data sources :
  Sources data = None -> modernShape adminConfig sources ->
  getSources (importInto adminConfig data) = sources /\
  getSources adminConfig = sources.
Proof.
  intros Hd (ec & Hec & Hs). unfold importInto, getSources. rewrite Hd, Hec. cbn.
  now rewrite Hd, Hs.
Qed.

Lemma importInto_sources adminConfig data ds :
  Sources data = Some ds ->
  getSources (importInto adminConfig data)
  = mergeSources (JS.nullish (Sources (JS.nullish (EmbyCfg adminConfig) emptyEmbyConfig)) [])
                 ds.
Proof. intros Hd. unfold importInto, getSources. now rewrite Hd. Qed.

(** X5.  After an import the manager resolves an imported key to the last
    imported source with that key: with no client cached under the key it
    constructs one from that source when it is enabled and throws the disabled
    error when it is not. A client cached before the import is still what
    [getClient] returns: the import does not clear the cache. *)
Theorem import_then_getClient adminConfig data ds k x m :
  Sources data = Some ds -> k <> "" ->
  JS.find (hasKey k) (rev ds) = Some x ->
  (forall c, clients m !! k = Some c ->
     getClient (Some k) (importInto adminConfig data) m = (Ok c, m)) /\
  (clients m !! k = None ->
     getClient (Some k) (importInto adminConfig data) m
     = if enabled x then (Ok (newEmbyClient x m), construct k x m)
       else (Throw (Disabled (name x)), m)).
Proof.
  intros Hd Hk Hx.
  pose proof (importInto_sources adminConfig data ds Hd) as Hsrc.
  set (e := JS.nullish _ _) in Hsrc.
  assert (Hfind : JS.find (hasKey k) (mergeSources e ds) = Some x)
    by (unfold mergeSources; now rewrite fold_upsert_find, Hx).
  assert (Hne : getSources (importInto adminConfig data) <> []).
  { rewrite Hsrc. intros Hnil. rewrite Hnil in Hfind. discriminate. }
  split.
  - intros c Hc. now apply getClient_cached.
  - intros Hnone. unfold getClient.
    destruct (getSources (importInto adminConfig data)) as [|s0 rest] eqn:E; [congruence|].
    cbv zeta. destruct (resolveKey_spec (Some k) s0 (s0 :: rest)) as [Hr _].
    rewrite (Hr k eq_refl Hk), Hnone, Hsrc, Hfind. reflexivity.
Qed.

End ImportFacts.

Section ImportExamples.
Import EmbyManager ImportRoute Examples.

Lemma mergeSources_find_witness :
  JS.find (fun s => String.eqb (key s) "a") (mergeSources [srcA; srcB] [srcB_default; srcC])
  = JS.find (fun s => String.eqb (key s) "a") [srcA; srcB].
Proof.
  apply (proj2 (mergeSources_find [srcA; srcB] [srcB_default; srcC] "a")).
  compute_done.
Defined.

Lemma mergeSources_keys_witness :
  NoDup (map key (mergeSources [srcA; srcB] [srcB_default; srcC])) /\
  mergeSources [srcA; srcB] [srcB_default; srcC] !! 0%nat = Some srcA.
Proof.
  destruct (mergeSources_keys [srcA; srcB] [srcB_default; srcC]) as (Hnd & _ & Hkeep).
  split.
  - apply Hnd. compute_done.
  - apply Hkeep; [reflexivity | compute_done].
Defined.

Lemma mergeSources_idempotent_witness :
  mergeSources (mergeSources [srcA; srcB] [srcB_default; srcC]) [srcB_default; srcC]
  = mergeSources [srcA; srcB] [srcB_default; srcC].
Proof. apply (mergeSources_idempotent [srcA; srcB] [srcB_default; srcC]). compute_done. Defined.

Lemma import_legacy_into_modern_witness :
  getSources (importInto (modernConfig [srcA]) (legacyEmby (Some "http://old.example")))
  = [srcA] /\
  getSources (modernConfig [srcA]) = [srcA].
Proof.
  apply (import_legacy_into_modern (modernConfig [srcA])
           (legacyEmby (Some "http://old.example")) [srcA]).
  - reflexivity.
  - eexists. split; reflexivity.
Defined.

Lemma import_then_getClient_witness :
  getClient (Some "b")
    (importInto (modernConfig [srcA]) (withSources emptyEmbyConfig [srcB; srcB_default]))
    initial
  = (Ok (newEmbyClient srcB_default initial), construct "b" srcB_default initial).
Proof.
  apply (proj2 (import_then_getClient (modernConfig [srcA])
                  (withSources emptyEmbyConfig [srcB; srcB_default]) [srcB; srcB_default]
                  "b" srcB_default initial eq_refl ltac:(discriminate) eq_refl)).
  reflexivity.
Defined.

End ImportExamples.

(** ** More on the manager *)

Section ManagerFacts.
Import EmbyManager ManagerViews.

Lemma getAllClients_step_cached m result source c :
  clients m !! key source = Some c ->
  getAllClients_step (m, result) source
  = (m, JS.map_set (key source) {| client := c; config := source |} result).
Proof. intros H. unfold getAllClients_step. now rewrite !H. Qed.

Lemma getAllClients_step_lookup m result source :
  exists c, clients (getAllClients_step (m, result) source).1 !! key source = Some c /\
    (getAllClients_step (m, result) source).2
    = JS.map_set (key source) {| client := c; config := source |} result.
Proof.
  unfold getAllClients_step. destruct (clients m !! key source) as [c|] eqn:Hc.
  - rewrite Hc. now exists c.
  - assert (Hs : clients (construct (key source) source m) !! key source
                 = Some (newEmbyClient source m)) by apply lookup_insert_eq.
    rewrite Hs. cbn [fst snd]. eauto.
Qed.

(** The loop of [getAllClients] leaves every source with a cached client, and
    the map it builds is read off the final cache. *)
Lemma getAllClients_loop_result sources m result :
  let out := fold_left getAllClients_step sources (m, result) in
  (forall s, s ∈ sources -> is_Some (clients out.1 !! key s)) /\
  out.2 = entriesFor (clients out.1) sources result.
Proof.
  revert m result. induction sources as [|s sources IH]; intros m result; cbn zeta.
  - split; [intros s H; inversion H | reflexivity].
  - cbn [fold_left].
    destruct (getAllClients_step_lookup m result s) as (c & Hc & Hres).
    destruct (getAllClients_step (m, result) s) as [m1 result1] eqn:E.
    cbn [fst snd] in Hc, Hres.
    destruct (IH m1 result1) as [Hall Hout].
    destruct (getAllClients_loop_grows sources m1 result1) as (new & _ & _ & _ & Hkeep).
    pose proof (Hkeep _ _ Hc) as Hc'.
    split.
    + intros s' Hs'. apply elem_of_cons in Hs' as [->|Hs']; [|now apply Hall].
      rewrite Hc'. eauto.
    + rewrite Hout. unfold entriesFor. cbn [fold_left]. now rewrite Hc', Hres.
Qed.

Lemma getAllClients_loop_cached sources m result :
  (forall s, s ∈ sources -> is_Some (clients m !! key s)) ->
  fold_left getAllClients_step sources (m, result)
  = (m, entriesFor (clients m) sources result).
Proof.
  revert result. induction sources as [|s sources IH]; intros result Hall; [reflexivity|].
  cbn [fold_left]. destruct (Hall s (list_elem_of_here _ _)) as [c Hc].
  rewrite (getAllClients_step_cached _ _ _ _ Hc), IH.
  - unfold entriesFor. cbn [fold_left]. now rewrite Hc.
  - intros s' Hs'. apply Hall. now apply list_elem_of_further.
Qed.

(** X6.  Under one configuration a second [getAllClients] constructs nothing and
    returns the map the first one returned. *)
Theorem getAllClients_idempotent cfg m :
  getAllClients cfg (getAllClients cfg m).2 = getAllClients cfg m.
Proof.
  unfold getAllClients.
  destruct (getAllClients_loop_result (getEnabledSources cfg) m []) as [Hall Hout].
  destruct (fold_left getAllClients_step (getEnabledSources cfg) (m, [])) as [m' result].
  cbn [fst snd] in *. rewrite (getAllClients_loop_cached _ _ _ Hall). now rewrite Hout.
Qed.

Lemma getAllClients_no_sources cfg m :
  getEnabledSources cfg = [] -> getAllClients cfg m = ([], m).
Proof. intros H. unfold getAllClients. now rewrite H. Qed.

(** After [getAllClients], [getClient] with the key of any entry returns the
    client of that entry and leaves the manager as it is. *)
Lemma getClient_after_getAllClients cfg m k e :
  (k, e) ∈ (getAllClients cfg m).1 -> k <> "" ->
  getClient (Some k) cfg (getAllClients cfg m).2 = (Ok (client e), (getAllClients cfg m).2).
Proof.
  intros Hin Hk. destruct (getAllClients_entries cfg m k e Hin) as (Hc & _ & _).
  apply getClient_cached; [exact Hc | exact Hk|].
  intros Hnil. unfold getAllClients, getEnabledSources in Hin. rewrite Hnil in Hin.
  cbn in Hin. inversion Hin.
Qed.

(** *** What [getAllClients] lists *)

Lemma map_set_keys {V} k (v : V) l :
  map fst (JS.map_set k v l)
  = if decide (k ∈ map fst l) then map fst l else map fst l ++ [k].
Proof.
  induction l as [|[k0 v0] l IH]; cbn.
  - destruct (decide _) as [H|H]; [inversion H | reflexivity].
  - destruct (String.eqb_spec k0 k) as [->|Hne]; cbn.
    + now rewrite decide_True by apply list_elem_of_here.
    + rewrite IH. destruct (decide (k ∈ map fst l)) as [H|H].
      * now rewrite decide_True by (now apply list_elem_of_further).
      * rewrite decide_False; [reflexivity|].
        intros H'. apply elem_of_cons in H' as [?|?]; congruence.
Qed.

Lemma map_set_get {V} k k' (v : V) l :
  map_get k (JS.map_set k' v l) = if String.eqb k' k then Some v else map_get k l.
Proof.
  unfold map_get. induction l as [|[k0 v0] l IH]; cbn.
  - now destruct (String.eqb k' k).
  - destruct (String.eqb_spec k0 k') as [->|Hne]; cbn.
    + now destruct (String.eqb k' k).
    + destruct (String.eqb_spec k0 k) as [->|Hne']; cbn.
      * now rewrite (proj2 (String.eqb_neq _ _) (not_eq_sym Hne)).
      * exact IH.
Qed.

Lemma map_set_loop_keys (sources : list EmbySourceConfig) acc :
  let out := fold_left (fun a s => JS.map_set (key s) s a) sources acc in
  (NoDup (map fst acc) -> NoDup (map fst out)) /\
  (forall k, k ∈ map fst out <-> k ∈ map fst acc \/ k ∈ map key sources) /\
  (forall k, map_get k out
             = match List.find (fun s => String.eqb (key s) k) (rev sources) with
               | Some s => Some s
               | None => map_get k acc
               end).
Proof.
  revert acc. induction sources as [|s sources IH]; intros acc; cbn zeta.
  - cbn. split; [auto | split; [|reflexivity]].
    intros k. split; [auto | intros [H|H]; [exact H | inversion H]].
  - cbn [fold_left]. destruct (IH (JS.map_set (key s) s acc)) as (Hnd & Hin & Hget).
    split; [|split].
    + intros H. apply Hnd. rewrite map_set_keys. destruct (decide _) as [?|Hn]; [exact H|].
      apply NoDup_app. split; [exact H | split; [|apply NoDup_singleton]].
      intros k Hk Hk'. apply list_elem_of_singleton in Hk'. congruence.
    + intros k. rewrite Hin, map_set_keys. cbn [map]. rewrite elem_of_cons.
      destruct (decide (key s ∈ map fst acc)) as [Hs|Hs].
      * split; [tauto|]. intros [H|[->|H]]; auto.
      * rewrite elem_of_app, list_elem_of_singleton. tauto.
    + intros k. rewrite Hget, map_set_get. cbn [rev]. rewrite find_snoc.
      destruct (List.find _ (rev sources)); [reflexivity|].
      now destruct (String.eqb (key s) k).
Qed.

Lemma entryConfigs_get k result :
  map_get k (entryConfigs result) = config <$> map_get k result.
Proof.
  unfold map_get, entryConfigs. induction result as [|[k0 e0] result IH]; cbn; [reflexivity|].
  destruct (String.eqb k0 k); [reflexivity | exact IH].
Qed.

(** X7.  [getAllClients] returns one entry per key of an enabled source, none
    for any other key, and the entry of a key holds the last enabled source that
    has it. *)
Theorem getAllClients_keys cfg m :
  NoDup (map fst (getAllClients cfg m).1) /\
  (forall k, k ∈ map fst (getAllClients cfg m).1 <-> k ∈ map key (getEnabledSources cfg)) /\
  (forall k, config <$> map_get k (getAllClients cfg m).1
             = List.find (fun s => String.eqb (key s) k) (rev (getEnabledSources cfg))).
Proof.
  pose proof (getAllClients_configs cfg m) as Hcfg.
  destruct (map_set_loop_keys (getEnabledSources cfg) []) as (Hnd & Hin & Hget).
  cbn zeta in *. rewrite <- Hcfg in *.
  assert (Hfst : map fst (entryConfigs (getAllClients cfg m).1)
                 = map fst (getAllClients cfg m).1).
  { unfold entryConfigs. rewrite map_map. reflexivity. }
  rewrite Hfst in *. split; [|split].
  - apply Hnd. constructor.
  - intros k. rewrite Hin. cbn. split; [intros [H|H]; [inversion H | exact H] | auto].
  - intros k. rewrite <- entryConfigs_get, Hget.
    now destruct (List.find _ (rev (getEnabledSources cfg))).
Qed.

(** *** What the manager never does *)

Lemma getClient_constructs_enabled k cfg m :
  exists new, constructed (getClient k cfg m).2 = constructed m ++ new /\
    Forall (fun c => enabled (client_config c) = true) new.
Proof.
  unfold getClient. destruct (getSources cfg) as [|s0 rest].
  { exists []. now rewrite app_nil_r. }
  cbv zeta. destruct (clients m !! _).
  { exists []. now rewrite app_nil_r. }
  destruct (JS.find _ _) as [sc|].
  2:{ exists []. now rewrite app_nil_r. }
  destruct (enabled sc) eqn:Hen.
  - exists [newEmbyClient sc m]. split; [reflexivity|]. now repeat constructor.
  - exists []. now rewrite app_nil_r.
Qed.

Lemma getAllClients_constructs_enabled cfg m :
  exists new, constructed (getAllClients cfg m).2 = constructed m ++ new /\
    Forall (fun c => enabled (client_config c) = true) new.
Proof.
  unfold getAllClients.
  assert (Hloop : forall sources acc,
             Forall (fun s => enabled s = true) sources ->
             exists new,
               constructed (fold_left getAllClients_step sources acc).1
               = constructed acc.1 ++ new /\
               Forall (fun c => enabled (client_config c) = true) new).
  { induction sources as [|s sources IH]; intros acc Hen; cbn [fold_left].
    - exists []. now rewrite app_nil_r.
    - apply Forall_cons in Hen as [Hs Hen].
      destruct (IH (getAllClients_step acc s) Hen) as (new & Hc & Hnew).
      destruct acc as [m0 r0]. rewrite Hc. unfold getAllClients_step.
      destruct (clients m0 !! key s) as [c|] eqn:E.
      + rewrite E. cbn [fst]. now exists new.
      + destruct (clients (construct (key s) s m0) !! key s); cbn [fst];
          (exists (newEmbyClient s m0 :: new); split;
           [cbn; now rewrite <- app_assoc | now constructor]). }
  destruct (Hloop (getEnabledSources cfg) (m, [])) as (new & Hc & Hnew).
  { unfold getEnabledSources. apply Forall_forall. intros s Hs.
    apply list_elem_of_In, filter_In in Hs. tauto. }
  destruct (fold_left _ _ _) as [m' result]. now exists new.
Qed.

(** X8.  Whatever calls are made on it, the manager constructs clients for
    enabled sources only. *)
Theorem manager_constructs_enabled_only cs m :
  Forall (fun c => enabled (client_config c) = true) (constructedBy cs m).
Proof.
  unfold constructedBy.
  assert (H : exists new, constructed (run cs m) = constructed m ++ new /\
                Forall (fun c => enabled (client_config c) = true) new).
  { unfold run. revert m. induction cs as [|c cs IH]; intros m; cbn [fold_left].
    - exists []. now rewrite app_nil_r.
    - destruct (IH (call m c)) as (new2 & Hc2 & Hn2).
      assert (exists new1, constructed (call m c) = constructed m ++ new1 /\
                Forall (fun c => enabled (client_config c) = true) new1)
        as (new1 & Hc1 & Hn1).
      { destruct c; cbn [call].
        - apply getClient_constructs_enabled.
        - apply getAllClients_constructs_enabled.
        - exists []. now rewrite app_nil_r. }
      exists (new1 ++ new2). rewrite Hc2, Hc1, app_assoc. split; [reflexivity|].
      now apply Forall_app. }
  destruct H as (new & -> & Hnew). now rewrite drop_app_length.
Qed.

(** *** Migration *)

Lemma migrateEmbyConfig_modern cfg : hasSources cfg = true -> migrateEmbyConfig cfg = cfg.
Proof.
  unfold hasSources, migrateEmbyConfig. destruct (EmbyCfg cfg) as [ec|]; [|discriminate].
  now destruct (Sources ec).
Qed.

(** X9.  Migrating twice is migrating once; the migrated configuration lists the
    same sources up to the streaming defaults; and once migrated, a
    configuration that lists any source passes the callers' test on [Sources],
    which a legacy configuration fails. *)
Theorem migrateEmbyConfig_settles cfg :
  migrateEmbyConfig (migrateEmbyConfig cfg) = migrateEmbyConfig cfg /\
  Forall2 sameConnection (getSources (migrateEmbyConfig cfg)) (getSources cfg) /\
  (getSources cfg <> [] -> hasSources (migrateEmbyConfig cfg) = true) /\
  (forall ec url, legacyShape cfg ec url -> hasSources cfg = false).
Proof.
  split; [|split; [apply getSources_migrate | split]].
  - assert (H : migrateEmbyConfig cfg = cfg \/ hasSources (migrateEmbyConfig cfg) = true).
    { unfold migrateEmbyConfig.
      destruct (EmbyCfg cfg) as [ec|]; [|now left].
      destruct (Sources ec); [now left|].
      destruct (cfg_ServerURL ec) as [url|]; [|now left].
      destruct (JS.truthy_string url); [now right | now left]. }
    destruct H as [H|H]; [now rewrite !H | now apply migrateEmbyConfig_modern].
  - unfold getSources, migrateEmbyConfig, hasSources.
    destruct (EmbyCfg cfg) as [ec|] eqn:Hec; [|congruence].
    destruct (Sources ec) as [l|] eqn:Hs.
    + rewrite Hec, Hs. destruct l; [congruence | reflexivity].
    + destruct (cfg_ServerURL ec) as [url|]; [|congruence].
      destruct (JS.truthy_string url); [reflexivity | congruence].
  - intros ec url (Hec & Hs & _). unfold hasSources. now rewrite Hec, Hs.
Qed.

End ManagerFacts.

Section ManagerExamples.
Import EmbyManager Examples.

Lemma migrateEmbyConfig_settles_witness :
  hasSources (migrateEmbyConfig (legacyConfig (Some "http://old.example"))) = true /\
  hasSources (legacyConfig (Some "http://old.example")) = false.
Proof.
  destruct (migrateEmbyConfig_settles (legacyConfig (Some "http://old.example")))
    as (_ & _ & Hmig & Hleg).
  split.
  - apply Hmig. discriminate.
  - apply (Hleg (legacyEmby (Some "http://old.example")) "http://old.example").
    repeat split; discriminate.
Defined.

End ManagerExamples.

(** ** More on the cache *)

Lemma string_app_cons x (a b : string) : String x a +:+ b = String x (a +:+ b).
Proof. reflexivity. Qed.

Lemma string_app_assoc (a b c : string) : (a +:+ b) +:+ c = a +:+ (b +:+ c).
Proof.
  induction a as [|x a IH]; [reflexivity|]. rewrite !string_app_cons. now rewrite IH.
Qed.

Lemma string_app_nil_r (a : string) : a +:+ "" = a.
Proof.
  induction a as [|x a IH]; [reflexivity|]. rewrite string_app_cons. now rewrite IH.
Qed.

Lemma string_app_inv_head (s a b : string) : s +:+ a = s +:+ b -> a = b.
Proof. apply String.app_inj. Qed.

(** Two texts that agree, each cut at its first colon, agree on both sides
    of the cut. *)
Lemma split_at_colon (a a' b b' : string) :
  Text.colonFree a = true -> Text.colonFree a' = true ->
  a +:+ ":" +:+ b = a' +:+ ":" +:+ b' -> a = a' /\ b = b'.
Proof.
  assert (Hnil : forall s : string, "" +:+ s = s) by reflexivity.
  assert (Hcolon : forall s : string, ":" +:+ s = String (Ascii.ascii_of_nat 58) s)
    by reflexivity.
  revert a'. induction a as [|x a IH]; intros [|x' a'];
    rewrite ?string_app_cons, ?Hnil, ?Hcolon.
  - intros _ _ H. injection H as ->. auto.
  - intros _ H Heq. injection Heq as <- _. cbn in H. discriminate.
  - intros H _ Heq. injection Heq as -> _. cbn in H. discriminate.
  - intros H H' Heq. injection Heq as -> Heq.
    cbn in H, H'.
    apply andb_true_iff in H as [_ H]. apply andb_true_iff in H' as [_ H'].
    destruct (IH a' H H' Heq) as [-> ->]. auto.
Qed.

Lemma pretty_N_go_colonFree x s :
  Text.colonFree s = true -> Text.colonFree (pretty_N_go x s) = true.
Proof.
  revert s. induction (N.lt_wf_0 x) as [x _ IH]; intros s Hs.
  assert (x = 0 \/ 0 < x)%N as [->|Hx] by lia.
  - now rewrite pretty_N_go_0.
  - rewrite pretty_N_go_step by exact Hx. apply IH.
    + now apply N.div_lt.
    + cbn. rewrite Hs, andb_true_r. unfold pretty_N_char.
      now repeat case_match.
Qed.

Lemma toString_colonFree (n : Z) : Text.colonFree (JS.toString n) = true.
Proof.
  assert (HN : forall x : N, Text.colonFree (pretty x) = true).
  { intros x. unfold pretty, pretty_N. case_decide; [reflexivity|].
    now apply pretty_N_go_colonFree. }
  unfold JS.toString. destruct n as [|p|p]; [reflexivity| |].
  - change (pretty (Z.pos p)) with (pretty (N.pos p)). apply HN.
  - change (pretty (Z.neg p)) with ("-" +:+ pretty (N.pos p)).
    rewrite string_app_cons. cbn [Text.colonFree].
    change ("" +:+ pretty (N.pos p)) with (pretty (N.pos p)). now rewrite HN.
Qed.

Lemma toString_inj (n n' : Z) : JS.toString n = JS.toString n' -> n = n'.
Proof. apply pretty_Z_inj. Qed.

Section MoreCacheFacts.
Import EmbyCache.
Context {T : Type}.
Implicit Types (cache : gmap string (EmbyCachedEntry T)) (d : T).

(** For one parent and one emby key, distinct (page, page size) pairs have
    distinct cache keys. *)
Lemma makeListCacheKey_inj page pageSize page' pageSize' parentId embyKey :
  makeListCacheKey page pageSize parentId embyKey
  = makeListCacheKey page' pageSize' parentId embyKey ->
  page = page' /\ pageSize = pageSize'.
Proof.
  unfold makeListCacheKey. cbv zeta.
  set (keyPrefix := match embyKey with
                    | Some k => if JS.truthy_string k then "emby:" +:+ k else "emby"
                    | None => "emby"
                    end).
  assert (Hbase : forall tail,
             (keyPrefix +:+ ":list:" +:+ JS.toString page +:+ ":" +:+ JS.toString pageSize)
               +:+ tail
             = (keyPrefix +:+ ":list:" +:+ JS.toString page' +:+ ":" +:+ JS.toString pageSize')
               +:+ tail ->
             tail = "" \/ (exists p, tail = ":" +:+ p) ->
             page = page' /\ pageSize = pageSize').
  { intros tail Heq Htail.
    rewrite !string_app_assoc in Heq.
    apply string_app_inv_head, string_app_inv_head in Heq.
    apply split_at_colon in Heq as [Hp Hq]; try apply toString_colonFree.
    apply toString_inj in Hp. split; [exact Hp|].
    destruct Htail as [->|[p ->]].
    - rewrite !string_app_nil_r in Hq. now apply toString_inj.
    - apply split_at_colon in Hq as [Hq _]; try apply toString_colonFree.
      now apply toString_inj. }
  destruct parentId as [p|].
  - destruct (JS.truthy_string p).
    + intros H. apply (Hbase (":" +:+ p) H). right. now exists p.
    + intros H. apply (Hbase ""); [now rewrite !string_app_nil_r | now left].
  - intros H. apply (Hbase ""); [now rewrite !string_app_nil_r | now left].
Qed.

(** X10.  Reads and writes of different pages (same parent, same emby key) do
    not see each other: the read returns what it returned without the write, and
    the write goes through as it did without the read. A second write of one
    page replaces the first, value and expiry. *)
Theorem list_cache_pages_independent now t page pageSize page' pageSize' d
        (parentId embyKey : option string) cache :
  (page, pageSize) <> (page', pageSize') ->
  getCachedEmbyList now page' pageSize' parentId embyKey
    (setCachedEmbyList t page pageSize d parentId embyKey cache)
  = ((getCachedEmbyList now page' pageSize' parentId embyKey cache).1,
     setCachedEmbyList t page pageSize d parentId embyKey
       (getCachedEmbyList now page' pageSize' parentId embyKey cache).2) /\
  forall t' d',
    setCachedEmbyList t' page pageSize d' parentId embyKey
      (setCachedEmbyList t page pageSize d parentId embyKey cache)
    = setCachedEmbyList t' page pageSize d' parentId embyKey cache.
Proof.
  intros Hne. split.
  - assert (Hk : makeListCacheKey page pageSize parentId embyKey
                 <> makeListCacheKey page' pageSize' parentId embyKey).
    { intros H. apply makeListCacheKey_inj in H as [-> ->]. now apply Hne. }
    unfold getCachedEmbyList, setCachedEmbyList.
    rewrite lookup_insert_ne by exact Hk.
    destruct (cache !! _) as [e|]; [|reflexivity].
    destruct (expiresAt e <=? now); [|reflexivity].
    cbn [fst snd]. now rewrite delete_insert_ne by (intros H; now apply Hk).
  - intros t' d'. unfold setCachedEmbyList. apply insert_insert_eq.
Qed.

(** X11.  The views of an emby key stored at [setTime] are returned, the cache
    left alone, at every read strictly before [setTime +
    EMBY_VIEWS_CACHE_TTL_MS] (one day); from then on a read returns [null] and
    deletes the entry. *)
Theorem views_cache_expiry (setTime readTime : Z) (embyKey : string) d cache :
  let stored := setCachedEmbyViews setTime embyKey d cache in
  (readTime < setTime + 86400000 ->
     getCachedEmbyViews readTime embyKey stored = (Some d, stored)) /\
  (setTime + 86400000 <= readTime ->
     exists swept,
       getCachedEmbyViews readTime embyKey stored = (None, swept) /\
       forall later, getCachedEmbyViews later embyKey swept = (None, swept)).
Proof.
  cbv zeta. unfold getCachedEmbyViews, setCachedEmbyViews.
  rewrite lookup_insert_eq. cbn [expiresAt data].
  change EMBY_VIEWS_CACHE_TTL_MS with 86400000.
  split; intros H.
  - destruct (Z.leb_spec (setTime + 86400000) readTime); [lia | reflexivity].
  - destruct (Z.leb_spec (setTime + 86400000) readTime); [|lia].
    eexists. split; [reflexivity|]. intros later. now rewrite lookup_delete_eq.
Qed.

(** X12.  [clearEmbyCache] reports the number of entries and leaves none: every
    read after it returns [null]. After the pages of a list of pairwise distinct
    (page, page size) pairs have been stored in an empty cache, the number
    reported is the number of pairs. *)
Theorem clearEmbyCache_count (pages : list (Z * Z * Z * T))
        (parentId embyKey : option string) cache :
  (clearEmbyCache cache).1 = size cache /\
  (forall now page pageSize par ek,
     getCachedEmbyList now page pageSize par ek (clearEmbyCache cache).2
     = (None, (clearEmbyCache cache).2)) /\
  (forall now ek,
     getCachedEmbyViews now ek (clearEmbyCache cache).2 = (None, (clearEmbyCache cache).2)) /\
  (NoDup (map (fun p => (p.1.1.1, p.1.1.2)) pages) ->
   (clearEmbyCache
      (fold_left (fun c p => setCachedEmbyList p.1.2 p.1.1.1 p.1.1.2 p.2 parentId embyKey c)
                 pages ∅)).1 = length pages).
Proof.
  split; [reflexivity | split; [|split]].
  - intros. unfold getCachedEmbyList, clearEmbyCache. cbn. now rewrite lookup_empty.
  - intros. unfold getCachedEmbyViews, clearEmbyCache. cbn. now rewrite lookup_empty.
  - intros Hnd. unfold clearEmbyCache. cbn [fst].
    set (keyOf := fun p : Z * Z * Z * T =>
                    makeListCacheKey p.1.1.1 p.1.1.2 parentId embyKey).
    assert (Hgen : forall ps (c : gmap string (EmbyCachedEntry T)),
               NoDup (map keyOf ps) ->
               (forall p, p ∈ ps -> c !! keyOf p = None) ->
               size (fold_left
                       (fun c p => setCachedEmbyList p.1.2 p.1.1.1 p.1.1.2 p.2
                                     parentId embyKey c) ps c)
               = (size c + length ps)%nat).
    { induction ps as [|p ps IH]; intros c Hn Hc; cbn [fold_left length]; [lia|].
      cbn in Hn. apply NoDup_cons in Hn as [Hp Hn].
      rewrite IH.
      - unfold setCachedEmbyList. rewrite map_size_insert_None; [lia|].
        apply Hc, list_elem_of_here.
      - exact Hn.
      - intros q Hq. unfold setCachedEmbyList. rewrite lookup_insert_ne.
        + apply Hc. now apply list_elem_of_further.
        + intros Heq. apply Hp. fold (keyOf p) in Heq. rewrite Heq.
          now apply list_elem_of_fmap_2. }
    rewrite Hgen.
    + now rewrite map_size_empty.
    + clear Hgen. induction pages as [|p ps IH]; [constructor|].
      cbn in Hnd |- *. apply NoDup_cons in Hnd as [Hp Hnd].
      apply NoDup_cons. split; [|now apply IH].
      intros Hin. apply Hp. apply list_elem_of_fmap in Hin as (q & Hq & Hqin).
      unfold keyOf in Hq. apply makeListCacheKey_inj in Hq as [H1 H2].
      apply list_elem_of_fmap. exists q. split; [now rewrite H1, H2 | exact Hqin].
    + intros p _. apply lookup_empty.
Qed.

End MoreCacheFacts.

Section CacheExamples.
Import EmbyCache.

Lemma list_cache_pages_independent_witness :
  getCachedEmbyList 5 2 20 None (Some "a")
    (setCachedEmbyList 0 1 20 "page one" None (Some "a") ∅)
  = ((getCachedEmbyList 5 2 20 None (Some "a") (∅ : gmap string (EmbyCachedEntry string))).1,
     setCachedEmbyList 0 1 20 "page one" None (Some "a")
       (getCachedEmbyList 5 2 20 None (Some "a") ∅).2).
Proof.
  apply (list_cache_pages_independent 5 0 1 20 2 20 "page one" None (Some "a") ∅).
  discriminate.
Defined.

Lemma views_cache_expiry_witness :
  getCachedEmbyViews 86399999 "a" (setCachedEmbyViews 0 "a" "views" ∅)
  = (Some "views", setCachedEmbyViews 0 "a" "views" ∅) /\
  exists swept,
    getCachedEmbyViews 86400000 "a" (setCachedEmbyViews 0 "a" "views" ∅) = (None, swept) /\
    forall later, getCachedEmbyViews later "a" swept = (None, swept).
Proof.
  split.
  - apply (proj1 (views_cache_expiry 0 86399999 "a" "views" ∅)). lia.
  - apply (proj2 (views_cache_expiry 0 86400000 "a" "views" ∅)). lia.
Defined.

Lemma clearEmbyCache_count_witness :
  (clearEmbyCache
     (fold_left (fun c p => setCachedEmbyList p.1.2 p.1.1.1 p.1.1.2 p.2 None (Some "a") c)
                [(1, 20, 0, "page one"); (2, 20, 7, "page two")] ∅)).1 = 2%nat.
Proof.
  apply (proj2 (proj2 (proj2 (clearEmbyCache_count
                                [(1, 20, 0, "page one"); (2, 20, 7, "page two")]
                                None (Some "a") ∅)))).
  compute_done.
Defined.

End CacheExamples.

(** ** More on the search handler *)

Section SearchMoreFacts.
Import EmbyManager Emby Async Search.

Variable getAvailableApiSites : string -> list ApiSite.
Variable generateSearchVariants : string -> list string.
Variable searchFromApi : ApiSite -> string -> list string -> Task (list SearchResult).
Variable getItems : EmbyClient -> string -> Task (list EmbyItem).
Variable getImageUrl : EmbyClient -> string -> string -> string.
Variable yellowWords : list string.

Local Abbreviation GET :=
  (GET getAvailableApiSites generateSearchVariants searchFromApi getItems getImageUrl
       yellowWords).

(** X13.  A request without a query, or with the empty one, is answered with an
    empty, cacheable result list, and one without a user name with 401; in both
    cases the manager is left as it is and the answer is the same whatever the
    API sites and the emby servers would do. *)
Theorem GET_short_circuits request cfg m
        sites' variants' fromApi' items' imageUrl' words' :
  (authenticated request = None \/ q request = None \/ q request = Some "") ->
  GET request cfg m
  = (match authenticated request with
     | Some _ => {| status := 200; body := Results []; cacheHeaders := true |}
     | None => {| status := 401; body := ErrorBody "Unauthorized"; cacheHeaders := false |}
     end, m) /\
  GET request cfg m
  = Search.GET sites' variants' fromApi' items' imageUrl' words' request cfg m.
Proof.
  intros H. unfold Search.GET.
  destruct (authenticated request) as [user|]; [|split; reflexivity].
  destruct H as [H|[H|H]]; [discriminate | |]; rewrite H; split; reflexivity.
Qed.

(** X14.  For a query that is not empty the answer carries the cache headers
    exactly when it carries a result: an empty answer is never cached. *)
Theorem GET_caches_nonempty_only request cfg m user query :
  authenticated request = Some user -> q request = Some query -> query <> "" ->
  (cacheHeaders (GET request cfg m).1 = true <-> resultsOf (GET request cfg m).1 <> []).
Proof.
  intros Hu Hq Hne. unfold Search.GET. rewrite Hu, Hq.
  destruct query as [|a query]; [congruence|]. cbn [JS.truthy_string negb].
  destruct (getAllClients cfg m) as [embySourcesMap m']. cbv zeta.
  destruct (yellowFilter yellowWords cfg _); cbn; split; congruence.
Qed.

(** X15.  With the filter on, no answer holds a result in whose [type_name] a
    blacklisted word occurs. *)
Theorem GET_results_clean request cfg m r word :
  DisableYellowFilter (SiteCfg cfg) = false ->
  r ∈ resultsOf (GET request cfg m).1 -> word ∈ yellowWords ->
  ~ JS.occursIn word (typeName r).
Proof.
  intros Hon Hr Hw.
  assert (Hin : r ∈ List.filter (notYellow yellowWords)
                     (concat (fulfilledValues
                                (searchPromises searchFromApi
                                   (getAvailableApiSites (default "" (authenticated request)))
                                   (default "" (q request))
                                   (generateSearchVariants (default "" (q request))))))).
  { revert Hr. unfold Search.GET.
    destruct (authenticated request) as [user|]; [|intros H; inversion H].
    destruct (q request) as [query|]; [|intros H; inversion H].
    destruct (negb (JS.truthy_string query)); [intros H; inversion H|].
    destruct (getAllClients cfg m) as [embySourcesMap m']. cbv zeta.
    unfold yellowFilter. rewrite Hon. cbn [negb default].
    destruct (List.filter _ _) eqn:E; [intros H; inversion H|].
    cbn. now rewrite <- E. }
  apply list_elem_of_In, filter_In in Hin as [_ Hclean].
  apply (proj1 (notYellow_spec yellowWords r) Hclean word Hw).
Qed.

(** X16.  A search leaves every enabled emby source with a cached client and
    drops none that was cached: the next [getClient] for the key of an enabled
    source constructs nothing. *)
Theorem GET_warms_handles request cfg m user query :
  authenticated request = Some user -> q request = Some query -> query <> "" ->
  (GET request cfg m).2 = (getAllClients cfg m).2 /\
  (forall s, s ∈ getEnabledSources cfg -> is_Some (clients (GET request cfg m).2 !! key s)) /\
  (forall k c, clients m !! k = Some c -> clients (GET request cfg m).2 !! k = Some c) /\
  (forall s, s ∈ getEnabledSources cfg -> key s <> "" ->
     exists c, getClient (Some (key s)) cfg (GET request cfg m).2
               = (Ok c, (GET request cfg m).2)).
Proof.
  intros Hu Hq Hne.
  assert (Hm : (GET request cfg m).2 = (getAllClients cfg m).2).
  { unfold Search.GET. rewrite Hu, Hq.
    destruct query as [|a query]; [congruence|]. cbn [JS.truthy_string negb].
    destruct (getAllClients cfg m) as [embySourcesMap m']. cbv zeta.
    now destruct (yellowFilter yellowWords cfg _). }
  rewrite Hm. split; [reflexivity|].
  assert (Hall : forall s, s ∈ getEnabledSources cfg ->
                   is_Some (clients (getAllClients cfg m).2 !! key s)).
  { unfold getAllClients.
    destruct (getAllClients_loop_result (getEnabledSources cfg) m []) as [Hall _].
    destruct (fold_left getAllClients_step _ _) as [m' result]. exact Hall. }
  split; [exact Hall | split].
  - destruct (getAllClients_grows cfg m) as (new & _ & _ & _ & Hkeep). exact Hkeep.
  - intros s Hs Hk. destruct (Hall s Hs) as [c Hc]. exists c.
    apply getClient_cached; [exact Hc | exact Hk|].
    intros Hnil. unfold getEnabledSources in Hs. rewrite Hnil in Hs. inversion Hs.
Qed.

(** X17.  An API site whose search throws, or is still pending when its timer
    fires, costs the answer nothing: the handler answers, and leaves the
    manager, as it would had only the sites whose search returned been
    configured. *)
Theorem GET_failed_sites_cost_nothing request cfg m user query
        (returnedSites : string -> list ApiSite) :
  authenticated request = Some user -> q request = Some query -> query <> "" ->
  returnedSites user
  = List.filter (fun site =>
                   match searchFromApi site query (generateSearchVariants query) with
                   | Returns _ => true
                   | _ => false
                   end) (getAvailableApiSites user) ->
  GET request cfg m
  = Search.GET returnedSites generateSearchVariants searchFromApi getItems getImageUrl
               yellowWords request cfg m.
Proof.
  intros Hu Hq Hne Hsites. unfold Search.GET. rewrite Hu, Hq.
  destruct query as [|a query]; [congruence|]. cbn [JS.truthy_string negb].
  destruct (getAllClients cfg m) as [embySourcesMap m']. cbv zeta.
  rewrite !fulfilledValues_searchPromises, Hsites.
  set (query' := String a query).
  assert (Heq : concat (map (siteContribution generateSearchVariants searchFromApi query')
                            (getAvailableApiSites user))
                = concat (map (siteContribution generateSearchVariants searchFromApi query')
                              (List.filter
                                 (fun site =>
                                    match searchFromApi site query'
                                            (generateSearchVariants query') with
                                    | Returns _ => true
                                    | _ => false
                                    end) (getAvailableApiSites user)))).
  { clear Hsites. induction (getAvailableApiSites user) as [|site sites IH];
      cbn [map concat List.filter]; [reflexivity|].
    rewrite IH. pose proof (siteContribution_cases generateSearchVariants searchFromApi
                              query' site) as Hsite.
    destruct (searchFromApi site query' _); cbn [map concat]; now rewrite Hsite. }
  now rewrite Heq.
Qed.

End SearchMoreFacts.

Section SearchExamples.
Import EmbyManager Search Examples.

Local Abbreviation exampleGET :=
  (Search.GET twoSites generateSearchVariants searchFromApi getItemsOk getImageUrl
              yellowWords).

Lemma GET_short_circuits_witness :
  exampleGET {| authInfo := Some {| username := Some "alice" |}; q := Some "" |}
             (modernConfig [srcA]) initial
  = ({| status := 200; body := Results []; cacheHeaders := true |}, initial).
Proof.
  apply (GET_short_circuits twoSites generateSearchVariants searchFromApi getItemsOk
           getImageUrl yellowWords
           {| authInfo := Some {| username := Some "alice" |}; q := Some "" |}
           (modernConfig [srcA]) initial
           noSites generateSearchVariants searchFromApi getItemsBdown getImageUrl []).
  right. right. reflexivity.
Defined.

Lemma GET_caches_nonempty_only_witness :
  cacheHeaders (exampleGET request (modernConfig [srcA]) initial).1 = true <->
  resultsOf (exampleGET request (modernConfig [srcA]) initial).1 <> [].
Proof.
  apply (GET_caches_nonempty_only twoSites generateSearchVariants searchFromApi getItemsOk
           getImageUrl yellowWords request (modernConfig [srcA]) initial "alice" "matrix");
    [reflexivity | reflexivity | discriminate].
Defined.

Lemma GET_results_clean_witness :
  ~ JS.occursIn "伦理" (typeName (resultY (Some "科幻片"))).
Proof.
  apply (GET_results_clean twoSites generateSearchVariants searchFromApi getItemsOk
           getImageUrl yellowWords request (legacyConfig (Some "http://old.example"))
           initial (resultY (Some "科幻片")) "伦理").
  - reflexivity.
  - vm_compute. apply list_elem_of_here.
  - apply list_elem_of_here.
Defined.

Lemma GET_warms_handles_witness :
  is_Some (clients (exampleGET request (modernConfig [srcA; srcB]) initial).2 !! key srcB) /\
  exists c,
    getClient (Some (key srcB)) (modernConfig [srcA; srcB])
              (exampleGET request (modernConfig [srcA; srcB]) initial).2
    = (Ok c, (exampleGET request (modernConfig [srcA; srcB]) initial).2).
Proof.
  destruct (GET_warms_handles twoSites generateSearchVariants searchFromApi getItemsOk
              getImageUrl yellowWords request (modernConfig [srcA; srcB]) initial
              "alice" "matrix" eq_refl eq_refl ltac:(discriminate))
    as (_ & Hall & _ & Hget).
  assert (Hin : srcB ∈ getEnabledSources (modernConfig [srcA; srcB])).
  { apply list_elem_of_In. vm_compute. right. left. reflexivity. }
  split; [apply (Hall srcB Hin) | apply (Hget srcB Hin); discriminate].
Defined.

Lemma GET_failed_sites_cost_nothing_witness :
  exampleGET request (modernConfig [srcA]) initial
  = Search.GET (fun _ => [siteY]) generateSearchVariants searchFromApi getItemsOk
               getImageUrl yellowWords request (modernConfig [srcA]) initial.
Proof.
  apply (GET_failed_sites_cost_nothing twoSites generateSearchVariants searchFromApi
           getItemsOk getImageUrl yellowWords request (modernConfig [srcA]) initial
           "alice" "matrix" (fun _ => [siteY]));
    [reflexivity | reflexivity | discriminate | reflexivity].
Defined.

End SearchExamples.

(** ** More on the detail of an emby item *)

Lemma substring_all (s : string) : String.substring 0 (String.length s) s = s.
Proof. induction s as [|c s IH]; cbn; [reflexivity | now rewrite IH]. Qed.

Lemma substring_after (p k : string) :
  String.substring (String.length p) (String.length (p +:+ k) - String.length p) (p +:+ k)
  = k.
Proof.
  induction p as [|c p IH].
  - change ("" +:+ k) with k. cbn [String.length]. rewrite Nat.sub_0_r.
    apply substring_all.
  - rewrite string_app_cons. cbn [String.length String.substring Nat.sub]. exact IH.
Qed.

Lemma startsWith_app (p s : string) : JS.startsWith (p +:+ s) p = true.
Proof. unfold JS.startsWith. apply prefix_occurs. now exists s. Qed.

(** The key read back from the tag ['emby_' + k] is [k]; the bare tag
    ['emby'] names no key. *)
Lemma embyKeyOf_tag (k : string) :
  Detail.embyKeyOf ("emby_" +:+ k) = Some k /\ Detail.embyKeyOf "emby" = None.
Proof.
  split; [|reflexivity]. unfold Detail.embyKeyOf. rewrite startsWith_app.
  f_equal. change 5%nat with (String.length "emby_"). apply substring_after.
Qed.

Section DetailMoreFacts.
Import EmbyManager Emby Detail SpecialSources.

Variable getItem : EmbyClient -> string -> option EmbyItem.
Variable getSeasons : EmbyClient -> string -> option (list EmbyItem).
Variable getEpisodes : EmbyClient -> string -> string -> option (list EmbyItem).
Variable getStreamUrl : EmbyClient -> string -> option string.
Variable getSubtitles : EmbyClient -> EmbyItem -> list string.
Variable getImageUrl : EmbyClient -> string -> string -> string.

Local Abbreviation getEmbyDetail :=
  (getEmbyDetail getItem getSeasons getEpisodes getStreamUrl getSubtitles getImageUrl).
Local Abbreviation getSpecialSourceDetail :=
  (getSpecialSourceDetail getItem getSeasons getEpisodes getStreamUrl getSubtitles
                          getImageUrl).
Local Abbreviation fetchEpisodes := (fetchEpisodes getSeasons getEpisodes).

(** What a detail that is returned was built from. *)
Lemma getEmbyDetail_inr source id cfg m r m' :
  getEmbyDetail source id cfg m = (inr r, m') ->
  hasSources cfg = true /\
  exists c item,
    getClient (embyKeyOf source) cfg m = (Ok c, m') /\
    getItem c id = Some item /\
    Detail.source r = source /\ Detail.id r = Id item /\ title r = Name item /\
    ((Type_ item = "Movie" /\
      exists url, getStreamUrl c (Id item) = Some url /\
        episodes r = [url] /\ episodes_titles r = [Name item] /\
        length (subtitles r) <= 1)%nat \/
     (Type_ item = "Series" /\
      exists fetched,
        fetchEpisodes c item = Some fetched /\
        mapM (fun ep => getStreamUrl c (Id ep)) (sortedEpisodes fetched)
          = Some (episodes r) /\
        episodes_titles r = map episodeTitle (sortedEpisodes fetched) /\
        subtitles r = map (getSubtitles c) (sortedEpisodes fetched))).
Proof.
  unfold Detail.getEmbyDetail.
  destruct (hasSources cfg); cbn [negb]; [|discriminate].
  destruct (getClient (embyKeyOf source) cfg m) as [[c|e] m1]; [|discriminate].
  destruct (getItem c id) as [item|] eqn:Hitem; [|discriminate].
  destruct (String.eqb_spec (Type_ item) "Movie") as [Hmovie|Hmovie].
  - destruct (getStreamUrl c (Id item)) as [url|] eqn:Hu; [|discriminate].
    intros [= <- <-]. split; [reflexivity|]. exists c, item. cbn.
    split; [reflexivity | split; [exact Hitem|]].
    repeat (split; [reflexivity|]). left. split; [exact Hmovie|].
    exists url. split; [exact Hu|]. repeat (split; [reflexivity|]).
    destruct (getSubtitles c item); cbn; lia.
  - destruct (String.eqb_spec (Type_ item) "Series") as [Hseries|Hseries]; [|discriminate].
    destruct (Detail.fetchEpisodes getSeasons getEpisodes c item) as [fetched|] eqn:Hf;
      [|discriminate].
    destruct (mapM _ (sortedEpisodes fetched)) as [urls|] eqn:Hurls; [|discriminate].
    intros [= <- <-]. split; [reflexivity|]. exists c, item. cbn.
    split; [reflexivity | split; [exact Hitem|]].
    repeat (split; [reflexivity|]). right. split; [exact Hseries|].
    exists fetched. auto.
Qed.

(** X18.  In every detail returned, the episode URLs and the episode titles are
    of one length; a movie has exactly one episode; a series has one episode,
    one title and one subtitle list per episode fetched, over all seasons. *)
Theorem detail_co_indexed source id cfg m r m' :
  getEmbyDetail source id cfg m = (inr r, m') ->
  length (episodes r) = length (episodes_titles r) /\
  exists c item,
    getItem c id = Some item /\
    (Type_ item = "Movie" -> length (episodes r) = 1%nat) /\
    (Type_ item <> "Movie" ->
     exists fetched,
       fetchEpisodes c item = Some fetched /\
       length (episodes r) = length (concat fetched) /\
       length (subtitles r) = length (episodes r)).
Proof.
  intros H. apply getEmbyDetail_inr in H as (_ & c & item & _ & Hitem & _ & _ & _ & Hcase).
  destruct Hcase as [(Hm & url & _ & He & Ht & _) | (Hs & fetched & Hf & Hu & Ht & Hsub)].
  - rewrite He, Ht. split; [reflexivity|]. exists c, item.
    split; [exact Hitem | split; [reflexivity | congruence]].
  - apply length_mapM in Hu.
    assert (Hlen : length (sortedEpisodes fetched) = length (concat fetched))
      by (apply Permutation_length, sortedEpisodes_Permutation).
    rewrite Ht, Hsub, !length_map. split; [now rewrite Hu|]. exists c, item.
    split; [exact Hitem | split; [congruence|]]. intros _. exists fetched.
    split; [exact Hf | split; congruence].
Qed.

(** X19.  The episodes of a series come out as a rearrangement of the episodes
    fetched, none dropped and none added, each with its stream URL and its
    label; they are in (season, episode) order whenever no episode lacks its
    season index while another sits in season 0. *)
Theorem detail_series_order source id cfg m r m' c item :
  getEmbyDetail source id cfg m = (inr r, m') ->
  getClient (embyKeyOf source) cfg m = (Ok c, m') ->
  getItem c id = Some item -> Type_ item = "Series" ->
  exists fetched ordered,
    fetchEpisodes c item = Some fetched /\
    ordered ≡ₚ concat fetched /\
    (seasonsComparable (concat fetched) -> Sorted rank_le ordered) /\
    Forall2 (fun ep url => getStreamUrl c (Id ep) = Some url) ordered (episodes r) /\
    episodes_titles r = map episodeTitle ordered.
Proof.
  intros H Hc Hitem Hseries.
  apply getEmbyDetail_inr in H as (_ & c' & item' & Hc' & Hitem' & _ & _ & _ & Hcase).
  rewrite Hc in Hc'. injection Hc' as <-. rewrite Hitem in Hitem'. injection Hitem' as <-.
  destruct Hcase as [(Hm & _) | (_ & fetched & Hf & Hu & Ht & _)]; [congruence|].
  exists fetched, (sortedEpisodes fetched).
  split; [exact Hf | split; [apply sortedEpisodes_Permutation | split]].
  - apply sortedEpisodes_Sorted.
  - split; [now apply mapM_Some_1 | exact Ht].
Qed.

(** X20.  A configuration in the old single-source format, though enabled and
    resolved by the manager, is refused by [getEmbyDetail] as not configured,
    the manager untouched; migrated, it passes that test. *)
Theorem legacy_config_needs_migration cfg ec url source id m :
  legacyShape cfg ec url -> cfg_Enabled ec = Some true ->
  getEmbyDetail source id cfg m = (inl EmbyNotConfigured, m) /\
  (exists c m', getClient None cfg m = (Ok c, m')) /\
  hasSources (migrateEmbyConfig cfg) = true.
Proof.
  intros Hleg Hen. pose proof (getSources_legacy cfg ec url Hleg) as Hsrc.
  destruct Hleg as (Hec & Hs & Hu & Hne).
  split; [|split].
  - unfold Detail.getEmbyDetail, hasSources. now rewrite Hec, Hs.
  - unfold getClient. rewrite Hsrc. cbv zeta.
    change (resolveKey None (legacySource ec url) [legacySource ec url]) with "default".
    destruct (clients m !! "default") as [c|]; [eauto|].
    cbn. rewrite Hen. cbn. eauto.
  - unfold migrateEmbyConfig, hasSources. rewrite Hec, Hs, Hu.
    destruct url; [congruence | reflexivity].
Qed.



(** X22.  [getSpecialSourceDetail] returns [null] exactly for the sources
    [isSpecialSource] rejects, and then touches nothing; a detail it returns
    carries the source tag it was asked for; and every tag the search writes for
    an emby result is a special source. *)
Theorem special_source_dispatch source id cfg m :
  ((getSpecialSourceDetail source id cfg m).1 = inr None <-> isSpecialSource source = false) /\
  (isSpecialSource source = false -> getSpecialSourceDetail source id cfg m = (inr None, m)) /\
  (forall r, (getSpecialSourceDetail source id cfg m).1 = inr (Some r) ->
     Detail.source r = source) /\
  (forall embySources sc, isSpecialSource (Search.sourceValue embySources sc) = true).
Proof.
  unfold SpecialSources.getSpecialSourceDetail, isSpecialSource.
  split; [|split; [|split]].
  - destruct (String.eqb source "emby" || JS.startsWith source "emby_");
      [|split; reflexivity].
    destruct (Detail.getEmbyDetail _ _ _ _ _ _ _ _ _ _) as [[e|r] m'];
      split; discriminate.
  - intros ->. reflexivity.
  - intros r. destruct (String.eqb source "emby" || JS.startsWith source "emby_");
      [|discriminate].
    destruct (Detail.getEmbyDetail _ _ _ _ _ _ _ _ _ _) as [[e|r'] m'] eqn:E;
      [discriminate|].
    intros [= <-]. now apply getEmbyDetail_inr in E as (_ & c & item & _ & _ & Hs & _).
  - intros embySources sc. unfold Search.sourceValue.
    destruct (length embySources =? 1)%nat; [reflexivity|].
    rewrite startsWith_app. apply orb_true_r.
Qed.

End DetailMoreFacts.

Section DetailExamples.
Import EmbyManager Emby Detail SpecialSources Examples.

Local Abbreviation exampleDetail :=
  (Detail.getEmbyDetail getItem getSeasons getEpisodes getStreamUrl getSubtitles getImageUrl).

Lemma detail_co_indexed_witness :
  exists r m',
    exampleDetail "emby_a" "s1" (modernConfig [srcA; srcB]) initial = (inr r, m') /\
    length (episodes r) = length (episodes_titles r).
Proof.
  destruct (exampleDetail "emby_a" "s1" (modernConfig [srcA; srcB]) initial)
    as [[e|r] m'] eqn:E; [vm_compute in E; discriminate E|].
  exists r, m'. split; [reflexivity|].
  apply (detail_co_indexed getItem getSeasons getEpisodes getStreamUrl getSubtitles
           getImageUrl "emby_a" "s1" (modernConfig [srcA; srcB]) initial r m' E).
Defined.

Lemma detail_series_order_witness :
  exists r m' fetched ordered,
    exampleDetail "emby_a" "s1" (modernConfig [srcA; srcB]) initial = (inr r, m') /\
    Detail.fetchEpisodes getSeasons getEpisodes (newEmbyClient srcA initial) seriesItem
    = Some fetched /\
    ordered ≡ₚ concat fetched /\
    episodes_titles r = map episodeTitle ordered.
Proof.
  destruct (exampleDetail "emby_a" "s1" (modernConfig [srcA; srcB]) initial)
    as [[e|r] m'] eqn:E; [vm_compute in E; discriminate E|].
  destruct (detail_series_order getItem getSeasons getEpisodes getStreamUrl getSubtitles
              getImageUrl "emby_a" "s1" (modernConfig [srcA; srcB]) initial r m'
              (newEmbyClient srcA initial) seriesItem E)
    as (fetched & ordered & Hf & Hperm & _ & _ & Ht).
  - vm_compute in E. injection E as _ <-. vm_compute. reflexivity.
  - reflexivity.
  - reflexivity.
  - exists r, m', fetched, ordered. auto.
Defined.

Lemma legacy_config_needs_migration_witness :
  exampleDetail "emby" "s1" (legacyConfig (Some "http://old.example")) initial
  = (inl EmbyNotConfigured, initial) /\
  (exists c m', getClient None (legacyConfig (Some "http://old.example")) initial
                = (Ok c, m')) /\
  hasSources (migrateEmbyConfig (legacyConfig (Some "http://old.example"))) = true.
Proof.
  apply (legacy_config_needs_migration getItem getSeasons getEpisodes getStreamUrl
           getSubtitles getImageUrl (legacyConfig (Some "http://old.example"))
           (legacyEmby (Some "http://old.example")) "http://old.example" "emby" "s1" initial).
  - repeat split; discriminate.
  - reflexivity.
Defined.


Lemma special_source_dispatch_witness :
  SpecialSources.getSpecialSourceDetail getItem getSeasons getEpisodes getStreamUrl
    getSubtitles getImageUrl "douban" "s1" (modernConfig [srcA]) initial
  = (inr None, initial).
Proof.
  apply (special_source_dispatch getItem getSeasons getEpisodes getStreamUrl getSubtitles
           getImageUrl "douban" "s1" (modernConfig [srcA]) initial).
  reflexivity.
Defined.

End DetailExamples.

(** ** Header values *)

Lemma list_ascii_app (a b : string) :
  list_ascii_of_string (a +:+ b) = list_ascii_of_string a ++ list_ascii_of_string b.
Proof.
  induction a as [|c a IH]; [reflexivity|].
  rewrite string_app_cons. cbn [list_ascii_of_string app]. now rewrite IH.
Qed.

Lemma forallb_andb {A} (p q : A -> bool) (l : list A) :
  forallb (fun c => p c && q c) l = forallb p l && forallb q l.
Proof.
  induction l as [|c l IH]; cbn [forallb]; [reflexivity|]. rewrite IH.
  destruct (p c), (q c), (forallb p l), (forallb q l); reflexivity.
Qed.

(** Normalising leaves alone a value that neither starts nor ends with
    whitespace. *)
Lemma headerValueNormalize_id c mid d :
  JS.isHttpWhitespace c = false -> JS.isHttpWhitespace d = false ->
  JS.headerValueNormalize (c :: mid ++ [d]) = c :: mid ++ [d].
Proof.
  intros Hc Hd. unfold JS.headerValueNormalize. cbn [JS.trimStart]. rewrite Hc.
  change (c :: mid ++ [d]) with ((c :: mid) ++ [d]) at 1.
  rewrite rev_app_distr. cbn [rev app JS.trimStart]. rewrite Hd.
  change (d :: rev mid ++ [c]) with ([d] ++ rev (c :: mid)).
  rewrite rev_app_distr, rev_involutive. reflexivity.
Qed.

(** [headers.set('Content-Disposition', ...)] goes through exactly for the
    file names that hold no NUL, LF or CR and no character above U+00FF. *)
Lemma headerValueOk_disposition (filename : string) :
  JS.headerValueOk ("inline; filename=" +:+ JS.dquote +:+ filename +:+ JS.dquote)
  = JS.fileNameOk filename.
Proof.
  unfold JS.headerValueOk, JS.fileNameOk. cbv zeta. rewrite !list_ascii_app.
  set (name := list_ascii_of_string filename).
  change (list_ascii_of_string JS.dquote) with [Ascii.ascii_of_nat 34].
  change (list_ascii_of_string "inline; filename=")
    with (Ascii.ascii_of_nat 105 :: list_ascii_of_string "nline; filename=").
  set (rest := list_ascii_of_string "nline; filename=").
  assert (Hshape : (Ascii.ascii_of_nat 105 :: rest)
                     ++ [Ascii.ascii_of_nat 34] ++ name ++ [Ascii.ascii_of_nat 34]
                   = Ascii.ascii_of_nat 105
                       :: (rest ++ [Ascii.ascii_of_nat 34] ++ name)
                       ++ [Ascii.ascii_of_nat 34]).
  { cbn [app]. now rewrite <- !app_assoc. }
  rewrite Hshape, headerValueNormalize_id by reflexivity.
  rewrite forallb_andb. cbn [forallb]. rewrite !forallb_app. cbn [forallb].
  change (JS.isByteStringChar (Ascii.ascii_of_nat 105)) with true.
  change (JS.isByteStringChar (Ascii.ascii_of_nat 34)) with true.
  change (JS.isNulOrNewline (Ascii.ascii_of_nat 105)) with false.
  change (JS.isNulOrNewline (Ascii.ascii_of_nat 34)) with false.
  assert (H1 : forallb JS.isByteStringChar rest = true) by (vm_compute; reflexivity).
  assert (H2 : forallb (fun c => negb (JS.isNulOrNewline c)) rest = true)
    by (vm_compute; reflexivity).
  rewrite H1, H2. cbn [negb andb]. now rewrite !andb_true_r.
Qed.

(** The streamed headers are accepted exactly when the copied ones are and
    the file name is fit for a header value. *)
Lemma headersAccepted_replyHeaders (filename : string) (r : PlayProxy.Upstream) :
  PlayProxy.headersAccepted (PlayProxy.replyHeaders filename r)
  = PlayProxy.headersAccepted (PlayProxy.copiedHeaders r) && JS.fileNameOk filename.
Proof.
  unfold PlayProxy.headersAccepted, PlayProxy.replyHeaders. rewrite forallb_app.
  cbn [forallb snd]. now rewrite headerValueOk_disposition, andb_true_r.
Qed.

(** ** More on the play proxy *)

Section PlayProxyMoreFacts.
Import EmbyManager PlayProxy.

Variable cfg : AdminConfig.
Variable getStreamUrl : EmbyClient -> string -> option string.
Variable fetch : nat -> string -> option string -> option Upstream.

Local Abbreviation GET := (GET cfg getStreamUrl fetch).

(** X23.  When the first answer from upstream is anything but 401, the handler
    fetches once and never clears the manager's cache.  It replies 500 when
    the answer is not ok.  When it is ok it streams the answer, unless
    [headers.set] throws on one of the header values, and then it replies
    500: for the values copied from upstream, and for the
    [Content-Disposition] value exactly when the file name holds NUL, LF, CR
    or a character above U+00FF. *)
Theorem play_proxy_single_fetch (hasValidToken hasValidAuth : bool)
        (i filename : string) (k range : option string)
        (m m1 : Manager) (c1 : EmbyClient) (u1 : string) (r1 : Upstream) :
  negb hasValidToken && negb hasValidAuth = false ->
  i <> "" ->
  hasSources cfg = true ->
  getClient (JS.or_undefined k) cfg m = (Ok c1, m1) ->
  getStreamUrl c1 i = Some u1 ->
  fetch 0 u1 range = Some r1 ->
  up_status r1 <> 401 ->
  GET hasValidToken hasValidAuth (Some i) filename k range {| mgr := m; log := [] |}
  = ({| mgr := m1;
        log := [EvGetClient (JS.or_undefined k); EvGetStreamUrl c1 i; EvFetch u1 range] |},
     if ok r1 then
       if headersAccepted (copiedHeaders r1) && JS.fileNameOk filename
       then Stream (up_status r1) (replyHeaders filename r1) r1
       else Json 500 "播放失败"
     else Json 500 "获取视频流失败").
Proof.
  intros Hauth Hi Hsrc Hc1 Hu1 Hf1 H401.
  assert (Hti : JS.truthy_string i = true) by (destruct i; [congruence | reflexivity]).
  unfold PlayProxy.GET. rewrite Hauth, Hti. cbn [negb]. cbv zeta.
  unfold PlayProxy.proxy.
  erewrite bind_ok by (apply getEmbyClient_ok; eassumption).
  erewrite bind_ok by (apply streamUrl_ok; eassumption).
  erewrite bind_ok by (apply doFetch_ok; exact Hf1).
  rewrite (proj2 (Z.eqb_neq _ _) H401).
  erewrite bind_ok by reflexivity. unfold ret, throw. cbv zeta.
  rewrite <- headersAccepted_replyHeaders.
  destruct (ok r1); cbn [negb]; [|reflexivity].
  now destruct (headersAccepted (replyHeaders filename r1)).
Qed.

(** X24.  A request that is not authorised, names no item, or meets a
    configuration without [Sources] is answered 401, 400 or 500 with no client
    resolved and nothing fetched. *)
Theorem play_proxy_rejects_early (hasValidToken hasValidAuth : bool)
        (itemId : option string) (filename : string) (k range : option string) (w : World) :
  (negb hasValidToken && negb hasValidAuth = true ->
     GET hasValidToken hasValidAuth itemId filename k range w = (w, Json 401 "未授权")) /\
  (negb hasValidToken && negb hasValidAuth = false ->
     (itemId = None \/ itemId = Some "") ->
     GET hasValidToken hasValidAuth itemId filename k range w
     = (w, Json 400 "缺少 itemId 参数")) /\
  (negb hasValidToken && negb hasValidAuth = false ->
     forall i, itemId = Some i -> i <> "" -> hasSources cfg = false ->
     GET hasValidToken hasValidAuth itemId filename k range w = (w, Json 500 "播放失败")).
Proof.
  unfold PlayProxy.GET. split; [|split].
  - intros ->. reflexivity.
  - intros -> [->| ->]; reflexivity.
  - intros -> i -> Hi Hsrc.
    assert (Hti : JS.truthy_string i = true) by (destruct i; [congruence | reflexivity]).
    rewrite Hti. cbn [negb]. cbv zeta.
    unfold PlayProxy.proxy, PlayProxy.getEmbyClient, bind, throw. rewrite Hsrc. reflexivity.
Qed.

(** X25.  Whatever the manager, the client and the network do, what a request
    does is an initial part of: resolve, build the URL, fetch, clear the cache,
    resolve, build the URL, fetch. So it fetches at most twice and clears the
    cache at most once; and it clears the cache only after a first fetch
    answered 401. *)
Theorem play_proxy_trace (hasValidToken hasValidAuth : bool)
        (itemId : option string) (filename : string) (k range : option string)
        (m : Manager) :
  let out := GET hasValidToken hasValidAuth itemId filename k range
                 {| mgr := m; log := [] |} in
  let k' := JS.or_undefined k in
  exists i c1 u1 c2 u2,
    log out.1 `prefix_of`
      [EvGetClient k'; EvGetStreamUrl c1 i; EvFetch u1 range; EvClearCache;
       EvGetClient k'; EvGetStreamUrl c2 i; EvFetch u2 range] /\
    (EvClearCache ∈ log out.1 ->
     exists r1, fetch 0 u1 range = Some r1 /\ up_status r1 = 401).
Proof.
  cbv zeta. unfold PlayProxy.GET.
  pose (dummy := {| client_id := 0; client_config := legacySource
                      ImportRoute.emptyEmbyConfig "" |}).
  assert (Hnil : forall l : list Event,
             ([] : list Event) `prefix_of` l /\
             (EvClearCache ∈ ([] : list Event) ->
              exists r1, fetch 0 "" range = Some r1 /\ up_status r1 = 401)).
  { intros l. split; [apply prefix_nil | intros H; inversion H]. }
  destruct (negb hasValidToken && negb hasValidAuth);
    [exists "", dummy, "", dummy, ""; apply Hnil|].
  destruct itemId as [i|]; [|exists "", dummy, "", dummy, ""; apply Hnil].
  destruct (negb (JS.truthy_string i)); [exists "", dummy, "", dummy, ""; apply Hnil|].
  cbv zeta. set (k' := JS.or_undefined k). exists i.
  unfold PlayProxy.proxy, PlayProxy.getEmbyClient, PlayProxy.streamUrl, PlayProxy.doFetch,
    doClearCache, bind, emit, throw, ret.
  destruct (negb (hasSources cfg)); cbn [mgr log app fst snd].
  { exists dummy, "", dummy, "". apply Hnil. }
  assert (Hno : forall (l : list Event),
             Forall (fun e => e <> EvClearCache) l -> ~ EvClearCache ∈ l).
  { intros l Hl Hin. rewrite Forall_forall in Hl. now apply (Hl _ Hin). }
  destruct (getClient k' cfg m) as [[c1|e1] m1]; cbn [mgr log app fst snd].
  2:{ exists dummy, "", dummy, "". split; [now eexists|].
      intros H. exfalso. revert H. apply Hno. repeat constructor; discriminate. }
  exists c1. destruct (getStreamUrl c1 i) as [u1|]; cbn [mgr log app fst snd].
  2:{ exists "", dummy, "". split; [now eexists|].
      intros H. exfalso. revert H. apply Hno. repeat constructor; discriminate. }
  exists u1. cbn [fetchCount List.filter isFetch length].
  destruct (fetch 0 u1 range) as [r1|] eqn:Hf1; cbn [mgr log app fst snd].
  2:{ exists dummy, "". split; [now eexists|].
      intros H. exfalso. revert H. apply Hno. repeat constructor; discriminate. }
  destruct (Z.eqb_spec (up_status r1) 401) as [H401|H401]; cbn [mgr log app fst snd].
  2:{ exists dummy, "".
      destruct (negb (ok r1)); [|destruct (headersAccepted _)];
        cbn [mgr log app fst snd];
        (split; [now eexists|]);
        intros H; exfalso; revert H; apply Hno; repeat constructor; discriminate. }
  destruct (getClient k' cfg (clearCache m1)) as [[c2|e2] m2]; cbn [mgr log app fst snd].
  2:{ exists dummy, "". split; [now eexists | eauto]. }
  exists c2. destruct (getStreamUrl c2 i) as [u2|]; cbn [mgr log app fst snd].
  2:{ exists "". split; [now eexists | eauto]. }
  exists u2. cbn [fetchCount List.filter isFetch length app].
  destruct (fetch 1 u2 range) as [r2|]; cbn [mgr log app fst snd].
  - destruct (negb (ok r2)); [|destruct (headersAccepted _)];
      cbn [mgr log app fst snd]; (split; [now eexists | eauto]).
  - split; [now eexists | eauto].
Qed.

End PlayProxyMoreFacts.

Section PlayProxyExamples.
Import EmbyManager PlayProxy Examples.

Lemma play_proxy_single_fetch_witness :
  PlayProxy.GET (modernConfig [srcA]) getStreamUrl fetchOk true false (Some "42")
                "video.mp4" (Some "a") None freshWorld
  = ({| mgr := managerWithA;
        log := [EvGetClient (Some "a");
                EvGetStreamUrl (newEmbyClient srcA initial) "42";
                EvFetch "http://a.example:8096/Videos/42/stream" None] |},
     Stream 206 (replyHeaders "video.mp4" (answer 206)) (answer 206)) /\
  PlayProxy.GET (modernConfig [srcA]) getStreamUrl fetchOk true false (Some "42")
                "视频.mp4" (Some "a") None freshWorld
  = ({| mgr := managerWithA;
        log := [EvGetClient (Some "a");
                EvGetStreamUrl (newEmbyClient srcA initial) "42";
                EvFetch "http://a.example:8096/Videos/42/stream" None] |},
     Json 500 "播放失败").
Proof.
  split.
  - apply (play_proxy_single_fetch (modernConfig [srcA]) getStreamUrl fetchOk true false
             "42" "video.mp4" (Some "a") None initial managerWithA
             (newEmbyClient srcA initial) "http://a.example:8096/Videos/42/stream"
             (answer 206));
      try reflexivity; discriminate.
  - apply (play_proxy_single_fetch (modernConfig [srcA]) getStreamUrl fetchOk true false
             "42" "视频.mp4" (Some "a") None initial managerWithA
             (newEmbyClient srcA initial) "http://a.example:8096/Videos/42/stream"
             (answer 206));
      try reflexivity; discriminate.
Defined.

Lemma play_proxy_rejects_early_witness :
  PlayProxy.GET noEmbyConfig getStreamUrl fetchOk false false (Some "42") "video.mp4"
                None None freshWorld = (freshWorld, Json 401 "未授权") /\
  PlayProxy.GET noEmbyConfig getStreamUrl fetchOk true false (Some "") "video.mp4"
                None None freshWorld = (freshWorld, Json 400 "缺少 itemId 参数") /\
  PlayProxy.GET noEmbyConfig getStreamUrl fetchOk true false (Some "42") "video.mp4"
                None None freshWorld = (freshWorld, Json 500 "播放失败").
Proof.
  split; [|split].
  - apply (play_proxy_rejects_early noEmbyConfig getStreamUrl fetchOk false false
             (Some "42") "video.mp4" None None freshWorld). reflexivity.
  - apply (proj1 (proj2 (play_proxy_rejects_early noEmbyConfig getStreamUrl fetchOk
                           true false (Some "") "video.mp4" None None freshWorld)));
      [reflexivity | now right].
  - apply (proj2 (proj2 (play_proxy_rejects_early noEmbyConfig getStreamUrl fetchOk
                           true false (Some "42") "video.mp4" None None freshWorld))
             eq_refl "42"); [reflexivity | discriminate | reflexivity].
Defined.

Lemma play_proxy_trace_witness :
  exists u1 r1, fetchRecovers 0 u1 None = Some r1 /\ up_status r1 = 401.
Proof.
  destruct (play_proxy_trace (modernConfig [srcA]) getStreamUrl fetchRecovers true false
              (Some "42") "video.mp4" (Some "a") None initial)
    as (i & c1 & u1 & c2 & u2 & _ & Hclear).
  exists u1. apply Hclear.
  apply list_elem_of_In. vm_compute. do 3 right. left. reflexivity.
Defined.

End PlayProxyExamples.

(** ** The views route *)

Section ViewsRouteFacts.
Import EmbyManager EmbyCache ViewsRoute.

Context {T : Type}.
Variable store : ViewsResponse -> T.
Variable truthy : T -> bool.

(** X26.  A fresh answer is served from the cache for a day: until
    [EMBY_VIEWS_CACHE_TTL_MS] after it was stored, every request whose [embyKey]
    parameter gives the same cache key is answered with the stored response,
    whatever the configuration, the manager and the server are by then, and
    neither the manager nor the cache is touched. *)
Theorem views_route_cached_for_a_day
        (getUserViews getUserViews' : EmbyClient -> string + list EmbyView)
        (now later now' later' : Z) (k k' : option string) (cfg cfg' : AdminConfig)
        (m m1 m' : Manager) (cache cache1 : gmap string (EmbyCachedEntry T))
        (r : ViewsResponse) :
  (forall response, truthy (store response) = true) ->
  GET store truthy getUserViews now later k cfg (m, cache) = (Fresh r, (m1, cache1)) ->
  cacheKeyOf k' = cacheKeyOf k ->
  now' < later + 86400000 ->
  GET store truthy getUserViews' now' later' k' cfg' (m', cache1)
  = (Json (store r), (m', cache1)).
Proof.
  intros Htruthy Hget Hkey Hnow.
  assert (Hstored : exists cache0,
             cache1 = setCachedEmbyViews later (cacheKeyOf k) (store r) cache0).
  { revert Hget. unfold GET. fold (cacheKeyOf k). cbn [fst snd].
    destruct (getCachedEmbyViews now (cacheKeyOf k) cache) as [cached cache0].
    assert (Hmiss : forall miss : Reply T * (Manager * gmap string (EmbyCachedEntry T)),
               match cached with
               | Some d => if truthy d then (Json d, (m, cache0)) else miss
               | None => miss
               end = (Fresh r, (m1, cache1)) -> miss = (Fresh r, (m1, cache1))).
    { intros miss. destruct cached as [d|]; [|auto].
      destruct (truthy d); [discriminate | auto]. }
    cbv zeta. intros H. apply Hmiss in H. clear Hmiss. revert H.
    destruct (getClient (JS.or_undefined k) cfg m) as [[c|e] m2]; [|discriminate].
    destruct (getUserViews c) as [msg|all]; [discriminate|].
    intros [= <- <- <-]. now exists cache0. }
  destruct Hstored as [cache0 ->].
  unfold GET. fold (cacheKeyOf k'). rewrite Hkey. cbn [fst snd].
  unfold getCachedEmbyViews, setCachedEmbyViews. rewrite lookup_insert_eq.
  cbn [expiresAt data]. change EMBY_VIEWS_CACHE_TTL_MS with 86400000.
  destruct (Z.leb_spec (later + 86400000) now'); [lia|].
  now rewrite Htruthy.
Qed.

(** X27.  The three outcomes of a request. An answer from the cache leaves the
    manager and the cache as they are. A failure, of the manager or of the
    server, stores nothing: the cache holds no entry it did not hold. A fresh
    answer lists libraries the server returned, in the server's order, and only
    those whose [CollectionType] is [movies] or [tvshows]. *)
Theorem views_route_outcomes
        (getUserViews : EmbyClient -> string + list EmbyView)
        (now later : Z) (k : option string) (cfg : AdminConfig)
        (m : Manager) (cache : gmap string (EmbyCachedEntry T)) :
  let out := GET store truthy getUserViews now later k cfg (m, cache) in
  (forall d, out.1 = Json d -> out.2 = (m, cache) /\ truthy d = true) /\
  (forall error, out.1 = Failure error -> out.2.2 ⊆ cache) /\
  (forall r, out.1 = Fresh r ->
     exists c all,
       getClient (JS.or_undefined k) cfg m = (Ok c, out.2.1) /\
       getUserViews c = inr all /\
       map id (views r) `sublist_of` map Id all /\
       Forall (fun v => type v = Some "movies" \/ type v = Some "tvshows") (views r)).
Proof.
  cbv zeta. unfold GET. fold (cacheKeyOf k). cbn [fst snd].
  assert (Hsub : (getCachedEmbyViews now (cacheKeyOf k) cache).2 ⊆ cache).
  { unfold getCachedEmbyViews. destruct (cache !! _) as [e|]; [|reflexivity].
    destruct (expiresAt e <=? now); [apply delete_subseteq | reflexivity]. }
  assert (Hhit : forall d, (getCachedEmbyViews now (cacheKeyOf k) cache).1 = Some d ->
                   (getCachedEmbyViews now (cacheKeyOf k) cache).2 = cache).
  { unfold getCachedEmbyViews. destruct (cache !! _) as [e|]; [|discriminate].
    destruct (expiresAt e <=? now); [discriminate | reflexivity]. }
  destruct (getCachedEmbyViews now (cacheKeyOf k) cache) as [cached cache0].
  cbn [fst snd] in Hsub, Hhit. cbv zeta.
  set (miss := match getClient (JS.or_undefined k) cfg m with
               | (Throw e, m1) => _
               | (Ok client, m1) => _
               end).
  assert (Hmiss :
            (forall d, miss.1 <> Json d) /\
            (forall error, miss.1 = Failure error -> miss.2.2 ⊆ cache) /\
            (forall r, miss.1 = Fresh r ->
               exists c all,
                 getClient (JS.or_undefined k) cfg m = (Ok c, miss.2.1) /\
                 getUserViews c = inr all /\
                 map id (views r) `sublist_of` map Id all /\
                 Forall (fun v => type v = Some "movies" \/ type v = Some "tvshows")
                        (views r))).
  { unfold miss. destruct (getClient (JS.or_undefined k) cfg m) as [[c|e] m1].
    - destruct (getUserViews c) as [msg|all] eqn:Hall; cbn [fst snd].
      + split; [discriminate | split; [auto | discriminate]].
      + split; [discriminate | split; [discriminate|]].
        intros r [= <-]. exists c, all. split; [reflexivity | split; [exact Hall|]].
        cbn [views]. split.
        * clear Hall. induction all as [|v all IH]; cbn; [constructor|].
          destruct (isMediaLibrary v); cbn; [now apply sublist_skip | now apply sublist_cons].
        * apply Forall_forall. intros v Hv.
          apply list_elem_of_fmap in Hv as (view & -> & Hview).
          apply list_elem_of_In, filter_In in Hview as [_ Hmedia].
          unfold isMediaLibrary in Hmedia. cbn [type viewOut].
          destruct (CollectionType view) as [t|]; [|discriminate].
          apply orb_true_iff in Hmedia as [H|H]; apply String.eqb_eq in H; subst; auto.
    - cbn [fst snd]. split; [discriminate | split; [auto | discriminate]]. }
  clearbody miss. destruct Hmiss as (Hj & Hf & Hr).
  destruct cached as [d|]; [destruct (truthy d) eqn:Ht|]; cbn [fst snd].
  - split; [|split; discriminate]. intros d' [= <-]. now rewrite (Hhit d eq_refl).
  - split; [intros d' H; now apply Hj in H | split; [exact Hf | exact Hr]].
  - split; [intros d' H; now apply Hj in H | split; [exact Hf | exact Hr]].
Qed.

End ViewsRouteFacts.

Section ViewsRouteExamples.
Import EmbyManager EmbyCache ViewsRoute Examples.

Lemma views_route_cached_for_a_day_witness :
  GET storeResponse truthyResponse (fun _ => inl "down") 86400999 86401000
      (Some "default") noEmbyConfig
      (initial, setCachedEmbyViews 1000 "default" viewsResponse ∅)
  = (Json viewsResponse, (initial, setCachedEmbyViews 1000 "default" viewsResponse ∅)).
Proof.
  apply (views_route_cached_for_a_day storeResponse truthyResponse getUserViews
           (fun _ => inl "down") 0 1000 86400999 86401000 None (Some "default")
           (modernConfig [srcA]) noEmbyConfig initial managerWithA initial ∅
           (setCachedEmbyViews 1000 "default" viewsResponse ∅) viewsResponse).
  - reflexivity.
  - reflexivity.
  - reflexivity.
  - lia.
Defined.

Lemma views_route_outcomes_witness :
  (GET storeResponse truthyResponse getUserViews 0 1000 None noEmbyConfig
       (initial, setCachedEmbyViews (-86400000) "default" viewsResponse ∅)).2.2
  ⊆ setCachedEmbyViews (-86400000) "default" viewsResponse ∅.
Proof.
  apply (proj1 (proj2 (views_route_outcomes storeResponse truthyResponse getUserViews
                         0 1000 None noEmbyConfig initial
                         (setCachedEmbyViews (-86400000) "default" viewsResponse ∅)))
           "获取 Emby 媒体库列表失败: 未配置 Emby 源").
  reflexivity.
Defined.

End ViewsRouteExamples.

(** ** The import route *)

Section ImportRouteFacts.
Import EmbyManager ImportRoute.

(** X28.  A configuration is saved only for a request of the site owner, on a
    storage other than local storage, that carries data; it is then the
    configuration the import builds from the current one, the answer is 200, and
    the site configuration is the one that was there. *)
Theorem import_owner_only request adminConfig saved st cfg' :
  POST request adminConfig saved = (st, Some cfg') ->
  st = 200 /\
  (exists u, username request = Some u /\ owner request = Some u /\ u <> "") /\
  (exists t, storageType request = Some t /\ t <> "" /\ t <> "localstorage") /\
  (exists d, ImportRoute.data request = Some d /\ cfg' = importInto adminConfig d) /\
  SiteCfg cfg' = SiteCfg adminConfig.
Proof.
  unfold POST.
  destruct (String.eqb_spec (JS.or_string (storageType request) "localstorage")
                            "localstorage") as [Hst|Hst]; [discriminate|].
  destruct (username request) as [u|]; [|discriminate].
  destruct (JS.truthy_string u) eqn:Hu; cbn [negb]; [|discriminate].
  destruct (owner request) as [o|]; [|discriminate].
  destruct (String.eqb_spec u o) as [<-|Hne]; cbn [negb]; [|discriminate].
  destruct (ImportRoute.data request) as [d|]; [|discriminate].
  destruct saved; [|discriminate].
  intros [= <- <-]. split; [reflexivity|]. split; [|split; [|split]].
  - exists u. split; [reflexivity | split; [reflexivity|]]. intros ->. discriminate.
  - unfold JS.or_string in Hst. destruct (storageType request) as [t|]; [|congruence].
    exists t. split; [reflexivity|].
    destruct t as [|a t]; [cbn in Hst; congruence|]. cbn in Hst. split; [discriminate | exact Hst].
  - now exists d.
  - unfold importInto. now destruct (Sources d).
Qed.

End ImportRouteFacts.

Section ImportRouteExamples.
Import EmbyManager ImportRoute Examples.

Lemma import_owner_only_witness :
  SiteCfg (importInto (modernConfig [srcA]) (withSources emptyEmbyConfig [srcB]))
  = SiteCfg (modernConfig [srcA]).
Proof.
  apply (import_owner_only importRequest (modernConfig [srcA]) true 200
           (importInto (modernConfig [srcA]) (withSources emptyEmbyConfig [srcB]))).
  reflexivity.
Defined.

End ImportRouteExamples.

(** ** The source parameter of the library page *)

Section LibraryPageFacts.
Import LibraryPage.

Local Abbreviation colon := (Ascii.ascii_of_nat 58).

Lemma split_nonempty sep s : split sep s <> [].
Proof.
  destruct s as [|c s]; cbn; [discriminate|].
  destruct (Ascii.eqb c sep); [discriminate|]. now destruct (split sep s).
Qed.

Lemma split_colonFree (k rest : string) :
  Text.colonFree k = true ->
  split colon (k +:+ ":" +:+ rest) = k :: split colon rest.
Proof.
  induction k as [|c k IH]; intros Hk.
  - reflexivity.
  - cbn in Hk. apply andb_true_iff in Hk as [Hc Hk].
    rewrite string_app_cons. cbn [split].
    apply negb_true_iff in Hc. rewrite Hc, (IH Hk). reflexivity.
Qed.

Lemma split_colonFree_all (k : string) :
  Text.colonFree k = true -> split colon k = [k].
Proof.
  induction k as [|c k IH]; intros Hk; [reflexivity|].
  cbn in Hk. apply andb_true_iff in Hk as [Hc Hk].
  cbn [split]. apply negb_true_iff in Hc. now rewrite Hc, (IH Hk).
Qed.

Lemma includes_app (pre w post : string) : JS.includes (pre +:+ w +:+ post) w = true.
Proof. apply includes_spec. now exists pre, post. Qed.

(** X29.  The key the page writes to the URL is the key it reads back, when the
    key holds no colon; of a key that holds one, only the part before the first
    colon is read back. *)
Theorem page_source_param_round_trip (k rest : string) (embySourceOptions : nat) :
  Text.colonFree k = true -> k <> "" -> (2 <= embySourceOptions)%nat ->
  parseSourceParam (Some (urlSourceParam "emby" (Some k) embySourceOptions))
  = {| sourceType := "emby"; embyKey := Some k |} /\
  parseSourceParam
    (Some (urlSourceParam "emby" (Some (k +:+ ":" +:+ rest)) embySourceOptions))
  = {| sourceType := "emby"; embyKey := Some k |}.
Proof.
  intros Hk Hne Hn.
  assert (Hopt : (1 <? embySourceOptions)%nat = true) by (apply Nat.ltb_lt; lia).
  assert (Ht : forall s, JS.truthy_string (k +:+ s) = true).
  { intros s. destruct k; [congruence | reflexivity]. }
  assert (Hparse : forall tail parts,
             split colon tail = parts ->
             parseSourceParam (Some ("emby:" +:+ tail))
             = {| sourceType := "emby"; embyKey := parts !! 0%nat |}).
  { intros tail parts <-. unfold parseSourceParam.
    change (JS.truthy_string ("emby:" +:+ tail)) with true. cbn [negb].
    change ("emby:" +:+ tail) with ("emby" +:+ ":" +:+ tail).
    rewrite (includes_app "emby" ":" tail). cbv zeta.
    rewrite (split_colonFree "emby" tail eq_refl). reflexivity. }
  split.
  - unfold urlSourceParam. rewrite <- (string_app_nil_r k) at 1.
    rewrite Ht, Hopt. cbn [String.eqb andb].
    change (String.eqb "emby" "emby") with true. cbn [andb].
    apply (Hparse k [k]). now apply split_colonFree_all.
  - unfold urlSourceParam. rewrite Ht, Hopt.
    change (String.eqb "emby" "emby") with true. cbn [andb].
    apply (Hparse _ (k :: split colon rest)). now apply split_colonFree.
Qed.

(** X30.  The tag a card of the library page carries leads the detail code to
    the key the page holds, and is a special source; with no key selected the
    tag is ['emby'], which names no key. *)
Theorem page_card_tag_key (k : string) :
  k <> "" ->
  Detail.embyKeyOf (cardSourceParam "emby" (Some k)) = Some k /\
  SpecialSources.isSpecialSource (cardSourceParam "emby" (Some k)) = true /\
  Detail.embyKeyOf (cardSourceParam "emby" None) = None /\
  SpecialSources.isSpecialSource (cardSourceParam "emby" None) = true.
Proof.
  intros Hne. unfold cardSourceParam.
  assert (Ht : JS.truthy_string k = true) by (destruct k; [congruence | reflexivity]).
  rewrite Ht. change (String.eqb "emby" "emby") with true. cbn [andb].
  split; [apply embyKeyOf_tag | split; [|split; reflexivity]].
  unfold SpecialSources.isSpecialSource. rewrite startsWith_app. apply orb_true_r.
Qed.

End LibraryPageFacts.

Section LibraryPageExamples.
Import LibraryPage.

Lemma page_source_param_round_trip_witness :
  parseSourceParam (Some (urlSourceParam "emby" (Some "attic") 2))
  = {| sourceType := "emby"; embyKey := Some "attic" |} /\
  parseSourceParam (Some (urlSourceParam "emby" (Some ("attic" +:+ ":" +:+ "east")) 2))
  = {| sourceType := "emby"; embyKey := Some "attic" |}.
Proof.
  apply (page_source_param_round_trip "attic" "east" 2); [reflexivity | discriminate | lia].
Defined.

Lemma page_card_tag_key_witness :
  Detail.embyKeyOf (cardSourceParam "emby" (Some "attic")) = Some "attic".
Proof. apply (page_card_tag_key "attic"). discriminate. Defined.

End LibraryPageExamples.

(** ** The manager from its first state on *)

Section RegistryInvariant.
Import EmbyManager.


Lemma construct_consistent k sc m : consistent m -> consistent (construct k sc m).
Proof.
  intros [Hids Hcached]. split; [now apply construct_idsOk|].
  intros k0 c. unfold construct. cbn [clients constructed].
  destruct (decide (k0 = k)) as [->|Hne].
  - rewrite lookup_insert_eq. intros [= <-]. apply elem_of_app. right.
    apply list_elem_of_here.
  - rewrite lookup_insert_ne by congruence. intros H. apply elem_of_app. left.
    now apply (Hcached k0).
Qed.

Lemma clearCache_consistent m : consistent m -> consistent (clearCache m).
Proof.
  intros [Hids _]. split; [exact Hids|].
  intros k c H. cbn in H. rewrite lookup_empty in H. discriminate.
Qed.

Lemma getClient_consistent k cfg m : consistent m -> consistent (getClient k cfg m).2.
Proof.
  intros H. unfold getClient.
  destruct (getSources cfg) as [|s0 rest]; [exact H|]. cbv zeta.
  destruct (clients m !! _); [exact H|].
  destruct (JS.find _ _) as [sc|]; [|exact H].
  destruct (enabled sc); [|exact H]. now apply construct_consistent.
Qed.

Lemma getAllClients_consistent cfg m :
  consistent m -> consistent (getAllClients cfg m).2.
Proof.
  unfold getAllClients.
  assert (Hloop : forall sources acc,
             consistent acc.1 -> consistent (fold_left getAllClients_step sources acc).1).
  { induction sources as [|s sources IH]; intros acc Hacc; cbn [fold_left]; [exact Hacc|].
    apply IH. destruct acc as [m0 r0]. unfold getAllClients_step. cbn [fst] in *.
    destruct (clients m0 !! key s) as [c|] eqn:Hc.
    - rewrite Hc. exact Hacc.
    - destruct (clients (construct (key s) s m0) !! key s); cbn [fst];
        now apply construct_consistent. }
  intros H. specialize (Hloop (getEnabledSources cfg) (m, []) H).
  destruct (fold_left _ _ _) as [m' result]. exact Hloop.
Qed.

(** Every manager a run of calls reaches from [initial] is consistent. *)
Lemma run_consistent cs m : consistent m -> consistent (run cs m).
Proof.
  unfold run. revert m. induction cs as [|c cs IH]; intros m H; cbn [fold_left]; [exact H|].
  apply IH. destruct c; cbn [call].
  - now apply getClient_consistent.
  - now apply getAllClients_consistent.
  - now apply clearCache_consistent.
Qed.

(** A client that is constructed now is none of those constructed before. *)
Lemma newEmbyClient_fresh sc m m0 :
  idsOk m -> constructed m0 = constructed m -> newEmbyClient sc m0 ∉ constructed m.
Proof.
  intros Hids Heq Hin. apply list_elem_of_lookup in Hin as [i Hi].
  pose proof (lookup_lt_Some _ _ _ Hi) as Hlt.
  apply Hids in Hi. unfold newEmbyClient in Hi. cbn in Hi. rewrite Heq in Hi. lia.
Qed.



Lemma getClient_clear_constructs k cfg m s0 rest sc :
  getSources cfg = s0 :: rest ->
  JS.find (fun s => String.eqb (key s) (resolveKey k s0 (s0 :: rest))) (s0 :: rest)
  = Some sc ->
  enabled sc = true ->
  getClient k cfg (clearCache m)
  = (Ok (newEmbyClient sc (clearCache m)),
     construct (resolveKey k s0 (s0 :: rest)) sc (clearCache m)).
Proof.
  intros Hsrc Hf Hen. unfold getClient. rewrite Hsrc. cbv zeta.
  now rewrite clearCache_empty, lookup_empty, Hf, Hen.
Qed.

End RegistryInvariant.

(** ** The play proxy after a 401 *)

Section PlayProxyRetry.
Import EmbyManager PlayProxy.

Variable cfg : AdminConfig.
Variable getStreamUrl : EmbyClient -> string -> option string.
Variable fetch : nat -> string -> option string -> option Upstream.

Local Abbreviation GET := (GET cfg getStreamUrl fetch).


End PlayProxyRetry.

Section PlayProxyRetryExamples.
Import EmbyManager PlayProxy Examples.

Local Abbreviation clientA0 := {| client_id := 0; client_config := srcA |}.
Local Abbreviation clientA1 := {| client_id := 1; client_config := srcA |}.
Local Abbreviation urlA := "http://a.example:8096/Videos/42/stream".



End PlayProxyRetryExamples.

(** ** The handle cache between two [clearCache] *)

Section HandleCache.
Import EmbyManager.

(** Where the clients cached after [getAllClients] come from: the cache it
    started with, or its own constructions. *)
Lemma getAllClients_loop_origin sources m result :
  exists new,
    constructed (fold_left getAllClients_step sources (m, result)).1
    = constructed m ++ new /\
    forall k c, clients (fold_left getAllClients_step sources (m, result)).1 !! k = Some c ->
      clients m !! k = Some c \/ c ∈ new.
Proof.
  revert m result. induction sources as [|s sources IH]; intros m result; cbn [fold_left].
  - exists []. rewrite app_nil_r. auto.
  - destruct (clients m !! key s) as [c0|] eqn:Hc0.
    + rewrite (getAllClients_step_cached m result s c0 Hc0). apply IH.
    + assert (Hstep : getAllClients_step (m, result) s
                      = (construct (key s) s m,
                         JS.map_set (key s)
                           {| client := newEmbyClient s m; config := s |} result)).
      { unfold getAllClients_step. rewrite Hc0.
        assert (Hs : clients (construct (key s) s m) !! key s = Some (newEmbyClient s m))
          by apply lookup_insert_eq.
        now rewrite Hs. }
      rewrite Hstep.
      destruct (IH (construct (key s) s m)
                   (JS.map_set (key s) {| client := newEmbyClient s m; config := s |} result))
        as (new & Hc & Horigin).
      exists (newEmbyClient s m :: new). split.
      * rewrite Hc. cbn [construct constructed]. now rewrite <- app_assoc.
      * intros k c Hk. destruct (Horigin k c Hk) as [H|H].
        -- unfold construct in H. cbn [clients] in H.
           destruct (decide (k = key s)) as [->|Hne].
           ++ rewrite lookup_insert_eq in H. injection H as <-. right.
              apply list_elem_of_here.
           ++ rewrite lookup_insert_ne in H by congruence. now left.
        -- right. now apply list_elem_of_further.
Qed.

Lemma getAllClients_origin cfg m :
  exists new,
    constructed (getAllClients cfg m).2 = constructed m ++ new /\
    forall k c, clients (getAllClients cfg m).2 !! k = Some c ->
      clients m !! k = Some c \/ c ∈ new.
Proof.
  unfold getAllClients.
  destruct (getAllClients_loop_origin (getEnabledSources cfg) m []) as (new & H).
  destruct (fold_left _ _ _) as [m' result]. now exists new.
Qed.

(** The keys [getAllClients] lists are the keys of the enabled sources. *)
Lemma getAllClients_listed cfg m k :
  k ∈ map fst (getAllClients cfg m).1 <-> k ∈ map key (getEnabledSources cfg).
Proof.
  pose proof (getAllClients_configs cfg m) as Hcfg.
  destruct (map_set_loop_keys (getEnabledSources cfg) []) as (_ & Hin & _).
  cbv zeta in Hin. rewrite <- Hcfg in Hin.
  assert (Hfst : map fst (entryConfigs (getAllClients cfg m).1)
                 = map fst (getAllClients cfg m).1).
  { unfold entryConfigs. rewrite map_map. reflexivity. }
  rewrite Hfst in Hin. rewrite Hin. cbn.
  split; [intros [H|H]; [inversion H | exact H] | auto].
Qed.

Lemma getClient_empty_key cfg m : getClient (Some "") cfg m = getClient None cfg m.
Proof. reflexivity. Qed.

(** C10.  Between two calls of [clearCache] the manager constructs at most
    one client per key: over any run of [getClient] and [getAllClients]
    calls, under whatever configurations, the clients constructed have
    pairwise distinct keys, none of which had a client at the start.  A
    client cached under a key at the start is still cached under it at the
    end, and then: [getClient] with that key, when the key is not empty and
    the configuration lists a source, returns this client and leaves the
    manager as it is; with no source listed it throws the not-configured
    error, and with the empty key it does what it does with the key omitted.
    [getAllClients] constructs nothing for the key, leaves this client
    cached, lists an entry for the key exactly when an enabled source has
    it, and the client of that entry is this one.  [clearCache] empties the
    map and keeps the record of what was constructed.  The next
    [getClient], when the first source with the resolved key is enabled,
    constructs a client from it, caches it alone and returns it; the next
    [getAllClients] lists, for every key of an enabled source, a client it
    has just constructed.  In a manager reached from the initial one, a
    client constructed after [clearCache] is none of those constructed
    before. *)
Theorem handle_cache_unique (cs : list Call) (m : Manager) :
  clearFree cs ->
  let m' := run cs m in
  (exists new,
     constructed m' = constructed m ++ new /\
     NoDup (map clientKey new) /\
     (forall c, c ∈ new ->
        clients m !! clientKey c = None /\ clients m' !! clientKey c = Some c)) /\
  (forall k c, clients m !! k = Some c ->
     clients m' !! k = Some c /\
     (forall cfg,
        getClient (Some k) cfg m'
        = match getSources cfg with
          | [] => (Throw NotConfigured, m')
          | _ :: _ => if JS.truthy_string k then (Ok c, m') else getClient None cfg m'
          end) /\
     (forall cfg,
        clients (getAllClients cfg m').2 !! k = Some c /\
        (forall c', c' ∈ constructedBy [CallGetAllClients cfg] m' -> clientKey c' <> k) /\
        ((exists e, (k, e) ∈ (getAllClients cfg m').1) <->
         k ∈ map key (getEnabledSources cfg)) /\
        (forall e, (k, e) ∈ (getAllClients cfg m').1 -> client e = c))) /\
  (clients (clearCache m') = ∅ /\ constructed (clearCache m') = constructed m') /\
  (forall k cfg s0 rest sc,
     getSources cfg = s0 :: rest ->
     JS.find (fun s => String.eqb (key s) (resolveKey k s0 (s0 :: rest))) (s0 :: rest)
     = Some sc ->
     enabled sc = true ->
     let c := {| client_id := length (constructed m'); client_config := sc |} in
     getClient k cfg (clearCache m')
     = (Ok c, {| clients := {[ (key sc) := c ]}; constructed := constructed m' ++ [c] |}) /\
     (idsOk m -> c ∉ constructed m')) /\
  (forall cfg k, k ∈ map key (getEnabledSources cfg) ->
     exists e,
       (k, e) ∈ (getAllClients cfg (clearCache m')).1 /\
       client e ∈ constructedBy [CallGetAllClients cfg] (clearCache m') /\
       (idsOk m -> client e ∉ constructed m')).
Proof.
  intros Hcf m'. destruct (run_grows cs m Hcf) as (new & Hc & Hnd & Hnew & Hkeep).
  fold m' in Hc, Hnew, Hkeep.
  split; [exists new; auto|]. split; [|split; [split; reflexivity | split]].
  - intros k c Hk. pose proof (Hkeep k c Hk) as Hk'. split; [exact Hk' | split].
    + intros cfg. destruct (getSources cfg) as [|s0 rest] eqn:Hs.
      * unfold getClient. now rewrite Hs.
      * destruct k as [|a k]; [apply getClient_empty_key|]. cbn [JS.truthy_string].
        apply getClient_cached; [exact Hk' | discriminate | congruence].
    + intros cfg.
      destruct (getAllClients_grows cfg m') as (new' & Hc' & _ & Hnew' & Hkeep').
      split; [now apply Hkeep'|]. split; [|split].
      * intros c' Hin. unfold constructedBy, run in Hin. cbn [fold_left call] in Hin.
        rewrite Hc', drop_app_length in Hin.
        destruct (Hnew' c' Hin) as [Hnone _]. intros Heq. rewrite Heq in Hnone. congruence.
      * rewrite <- (getAllClients_listed cfg m' k). split.
        -- intros [e He]. apply list_elem_of_fmap. now exists (k, e).
        -- intros Hin. apply list_elem_of_fmap in Hin as ([k0 e] & -> & He). now exists e.
      * intros e Hin. destruct (getAllClients_entries _ _ _ _ Hin) as (He & _ & _).
        apply Hkeep' in Hk'. congruence.
  - intros k cfg s0 rest sc Hs Hf Hen c.
    assert (Hkey : key sc = resolveKey k s0 (s0 :: rest)).
    { pose proof Hf as H. apply find_firstWith in H as (pre & post & _ & _ & H).
      now apply String.eqb_eq in H. }
    split.
    + rewrite (getClient_clear_constructs k cfg m' s0 rest sc Hs Hf Hen), <- Hkey.
      unfold construct, newEmbyClient. cbn [clients constructed clearCache].
      now rewrite insert_empty.
    + intros Hids. apply (newEmbyClient_fresh sc m' m'); [|reflexivity].
      now apply run_idsOk.
  - intros cfg k Hk. apply (getAllClients_listed cfg (clearCache m') k) in Hk.
    apply list_elem_of_fmap in Hk as ([k0 e] & -> & He). cbn [fst]. exists e.
    split; [exact He|].
    destruct (getAllClients_entries _ _ _ _ He) as (Hcached & _ & _).
    destruct (getAllClients_origin cfg (clearCache m')) as (new' & Hc' & Horigin).
    assert (Hin : client e ∈ new').
    { destruct (Horigin _ _ Hcached) as [H|H]; [|exact H].
      cbn in H. rewrite lookup_empty in H. discriminate. }
    split.
    + unfold constructedBy, run. cbn [fold_left call].
      rewrite Hc'. cbn [clearCache constructed]. now rewrite drop_app_length.
    + intros Hids Hold.
      assert (Hids' : idsOk (getAllClients cfg (clearCache m')).2)
        by (apply getAllClients_idsOk; apply (run_idsOk cs m Hids)).
      apply list_elem_of_lookup in Hold as [i Hi].
      apply list_elem_of_lookup in Hin as [j Hj].
      pose proof (lookup_lt_Some _ _ _ Hi) as Hlt.
      assert (H1 : constructed (getAllClients cfg (clearCache m')).2 !! i = Some (client e)).
      { rewrite Hc'. cbn [clearCache constructed]. now rewrite lookup_app_l. }
      assert (H2 : constructed (getAllClients cfg (clearCache m')).2
                     !! (length (constructed m') + j)%nat = Some (client e)).
      { rewrite Hc'. cbn [clearCache constructed]. rewrite lookup_app_r by lia.
        now replace (length (constructed m') + j - length (constructed m'))%nat with j by lia. }
      apply Hids' in H1, H2. lia.
Qed.

End HandleCache.

Section HandleCacheExamples.
Import EmbyManager Examples.

Local Abbreviation clientA0 := {| client_id := 0; client_config := srcA |}.

Lemma handle_cache_unique_witness :
  clients (run calls managerWithA) !! "a" = Some clientA0 /\
  getClient (Some "a") (modernConfig [srcA_off]) (run calls managerWithA)
  = (Ok clientA0, run calls managerWithA) /\
  (exists e, ("a", e) ∈ (getAllClients (modernConfig [srcB; srcA])
                                        (run calls managerWithA)).1 /\
             client e = clientA0) /\
  getClient (Some "a") (modernConfig [srcA]) (clearCache (run calls managerWithA))
  = (Ok {| client_id := 3; client_config := srcA |},
     {| clients := {[ "a" := {| client_id := 3; client_config := srcA |} ]};
        constructed := constructed (run calls managerWithA)
                       ++ [{| client_id := 3; client_config := srcA |}] |}).
Proof.
  destruct (handle_cache_unique calls managerWithA)
    as (_ & Hkeep & _ & Hclear & _); [repeat constructor|].
  destruct (Hkeep "a" clientA0 eq_refl) as (Hcached & Hget & Hall).
  split; [exact Hcached|]. split; [apply (Hget (modernConfig [srcA_off]))|]. split.
  - destruct (Hall (modernConfig [srcB; srcA])) as (_ & _ & [_ Hlisted] & Hsame).
    destruct Hlisted as [e He];
      [apply list_elem_of_In; vm_compute; right; left; reflexivity|].
    exists e. split; [exact He | now apply Hsame].
  - apply (Hclear (Some "a") (modernConfig [srcA]) srcA [] srcA eq_refl eq_refl eq_refl).
Defined.

(** C10: where the code departs from the wording.  A client is cached
    under [a]; yet with no source configured [getClient('a')] throws, and
    with source [a] turned off [getAllClients()] lists nothing: neither
    call returns the cached client. *)
Lemma cached_handle_not_always_returned :
  clients managerWithA !! "a" = Some clientA0 /\
  getClient (Some "a") noEmbyConfig managerWithA = (Throw NotConfigured, managerWithA) /\
  getAllClients (modernConfig [srcA_off]) managerWithA = ([], managerWithA).
Proof. repeat split; vm_compute; reflexivity. Qed.

End HandleCacheExamples.
